(** * conversor_monedas: rate state, quota and conversion

    A shallow embedding of [conversor_monedas.py].  The program keeps a
    global table [RATES] of exchange rates (units per 1 USD), a JSON cache
    file with the last fetched rates and a per-day fetch counter, and
    converts amounts with Python's [decimal] arithmetic (28 significant
    digits).

    Layout:
    - [PyExn], [Outcome]: Python exceptions and the result of a call;
    - [Digits], [Dec]: the [decimal.Decimal] values and the operations the
      program uses, under the context [getcontext().prec = 28];
    - [PyDict]: insertion-ordered dictionaries;
    - [Json]: the values [json.load] produces;
    - [Prog] and the section after it: the program's state and its
      functions over an explicit world;
    - the vocabulary of the statements, then the properties. *)

From Stdlib Require Import ZArith List String Ascii Bool Lia Permutation.
From Stdlib Require Import Reals Lra.
Import ListNotations.

Local Open Scope string_scope.
Local Open Scope list_scope.
Local Open Scope Z_scope.

(** ** Exceptions *)

Module PyExn.

(** The exception classes the program can meet.  [OtherError] stands for
    any other subclass of [Exception] (socket timeouts, decoding errors,
    JSON syntax errors, ...). *)
Inductive exn : Type :=
| InvalidOperation        (* decimal.InvalidOperation *)
| DivisionByZero          (* decimal.DivisionByZero *)
| Overflow                (* decimal.Overflow *)
| AttributeError
| TypeError
| ValueError
| OverflowError
| KeyError (key : string)
| RuntimeError (msg : string)
| URLError (reason : string)
| HTTPError (code : Z)
| EOFError
| OtherError (msg : string).

(** [except (urllib.error.URLError, urllib.error.HTTPError)]:
    [HTTPError] is a subclass of [URLError]. *)
Definition is_URLError (e : exn) : bool :=
  match e with
  | URLError _ | HTTPError _ => true
  | _ => false
  end.

(** [except InvalidOperation]. *)
Definition is_InvalidOperation (e : exn) : bool :=
  match e with
  | InvalidOperation => true
  | _ => false
  end.

End PyExn.
Export PyExn.

(** ** Results of calls *)

Module Outcome.

Inductive outcome (A : Type) : Type :=
| Ret (a : A)
| Raise (e : exn).
Arguments Ret {A} a.
Arguments Raise {A} e.

Definition obind {A B} (r : outcome A) (k : A -> outcome B) : outcome B :=
  match r with
  | Ret a => k a
  | Raise e => Raise e
  end.

Definition raises {A} (r : outcome A) : bool :=
  match r with
  | Ret _ => false
  | Raise _ => true
  end.

End Outcome.
Export Outcome.

Declare Scope outcome_scope.
Delimit Scope outcome_scope with outcome.
Notation "'let?' x ':=' c 'in' k" := (obind c (fun x => k))
  (at level 10, x name, c at level 100, k at level 200)
  : outcome_scope.
Local Open Scope outcome_scope.

(** ** Decimal digits of integers *)

Module Digits.

Definition digit_char (d : Z) : ascii :=
  ascii_of_nat (48 + Z.to_nat d).

Definition is_digit (a : ascii) : bool :=
  let n := Z.of_nat (nat_of_ascii a) in (48 <=? n) && (n <=? 57).

Definition digit_val (a : ascii) : Z := Z.of_nat (nat_of_ascii a) - 48.

(** Digits of [c >= 0], most significant first, accumulated in [acc]. *)
Fixpoint digits_fuel (fuel : nat) (c : Z) (acc : list ascii) : list ascii :=
  match fuel with
  | O => digit_char (c mod 10) :: acc
  | S f =>
      if c <? 10 then digit_char c :: acc
      else digits_fuel f (c / 10) (digit_char (c mod 10) :: acc)
  end.

(** [str(c)] for an integer [c >= 0]. *)
Definition digits_of (c : Z) : list ascii :=
  digits_fuel (Z.to_nat (Z.log2 c)) c [].

(** [len(str(c))]: the number of decimal digits; 1 for 0. *)
Definition ndigits (c : Z) : Z := Z.of_nat (List.length (digits_of c)).

(** [int(s)] for a string of ASCII digits; the empty string counts 0. *)
Definition Z_of_digits (l : list ascii) : Z :=
  fold_left (fun acc a => 10 * acc + digit_val a) l 0.

(** [str(n)] for any integer. *)
Definition str_of_Z (n : Z) : string :=
  let body := string_of_list_ascii (digits_of (Z.abs n)) in
  if n <? 0 then String "-" body else body.

End Digits.
Export Digits.

(** ** decimal.Decimal under the program's context

    The program sets [getcontext().prec = 28] and leaves the rest of the
    default context alone: rounding ROUND_HALF_EVEN, Emax = 999999,
    Emin = -999999, clamp = 0, and the traps InvalidOperation,
    DivisionByZero and Overflow (a trapped signal is a raised exception;
    Underflow, Inexact, Rounded, Subnormal and Clamped only set flags,
    which the program never reads).

    A finite value is sign, coefficient and exponent, as in the General
    Decimal Arithmetic specification that the module implements; the
    coefficient, a digit string in Python, is a non-negative integer here
    and [ndigits] is its length. *)

Module Dec.

Inductive Decimal : Type :=
| Fin (neg : bool) (coeff : Z) (exp : Z)
| Inf (neg : bool)
| NaN (neg : bool) (signaling : bool) (payload : Z).

Definition prec : Z := 28.
Definition Emax : Z := 999999.
Definition Emin : Z := -999999.
Definition Etiny : Z := Emin - prec + 1.
Definition Etop : Z := Emax - prec + 1.

Inductive rounding : Type := ROUND_HALF_EVEN | ROUND_HALF_UP.

(** Whether dropping the last [k] digits of [c] moves the kept digits up
    by one: [_round_half_even] and [_round_half_up]. *)
Definition round_up (r : rounding) (c k : Z) : bool :=
  let kept := c / 10 ^ k in
  let dropped := c mod 10 ^ k in
  match r with
  | ROUND_HALF_UP => 10 ^ k <=? 2 * dropped
  | ROUND_HALF_EVEN =>
      (10 ^ k <? 2 * dropped) || ((10 ^ k =? 2 * dropped) && Z.odd kept)
  end.

(** The coefficient left when the last [k] digits of [c] are rounded
    away.  When [k] exceeds the length of [c] Python rounds
    [1 * 10 ^ (k - 1)] in its place, which gives 0 in both modes. *)
Definition round_coeff (r : rounding) (c k : Z) : Z :=
  if ndigits c <? k then 0
  else c / 10 ^ k + (if round_up r c k then 1 else 0).

(** [Decimal._fix]: round to the context's precision and exponent range. *)
Definition _fix (d : Decimal) : outcome Decimal :=
  match d with
  | NaN s sg p => Ret (NaN s sg (p mod 10 ^ prec))
  | Inf _ => Ret d
  | Fin s c e =>
      if c =? 0 then Ret (Fin s 0 (Z.min (Z.max e Etiny) Emax))
      else
        let exp_min := ndigits c + e - prec in
        if Etop <? exp_min then Raise Overflow
        else
          let exp_min := Z.max exp_min Etiny in
          if e <? exp_min then
            let coeff := round_coeff ROUND_HALF_EVEN c (exp_min - e) in
            let '(coeff, exp_min) :=
              if prec <? ndigits coeff then (coeff / 10, exp_min + 1)
              else (coeff, exp_min) in
            if Etop <? exp_min then Raise Overflow
            else Ret (Fin s coeff exp_min)
          else Ret d
  end.

(** The loop of [__truediv__] for an exact quotient:
    [while exp < ideal_exp and coeff % 10 == 0: coeff //= 10; exp += 1],
    run with [todo = ideal_exp - exp]. *)
Fixpoint strip_zeros (todo : nat) (coeff exp : Z) : Z * Z :=
  match todo with
  | O => (coeff, exp)
  | S todo' =>
      if coeff mod 10 =? 0 then strip_zeros todo' (coeff / 10) (exp + 1)
      else (coeff, exp)
  end.

(** [Decimal.__truediv__]: [a / b]. *)
Definition truediv (a b : Decimal) : outcome Decimal :=
  match a, b with
  | NaN _ true _, _ => Raise InvalidOperation
  | _, NaN _ true _ => Raise InvalidOperation
  | NaN _ false _, _ => _fix a
  | _, NaN _ false _ => _fix b
  | Inf _, Inf _ => Raise InvalidOperation
  | Inf s1, Fin s2 _ _ => Ret (Inf (xorb s1 s2))
  | Fin s1 _ _, Inf s2 => Ret (Fin (xorb s1 s2) 0 Etiny)
  | Fin s1 c1 e1, Fin s2 c2 e2 =>
      let sign := xorb s1 s2 in
      if c2 =? 0 then
        if c1 =? 0 then Raise InvalidOperation else Raise DivisionByZero
      else if c1 =? 0 then _fix (Fin sign 0 (e1 - e2))
      else
        let shift := ndigits c2 - ndigits c1 + prec + 1 in
        let exp := e1 - e2 - shift in
        let '(coeff, remainder) :=
          if 0 <=? shift then Z.div_eucl (c1 * 10 ^ shift) c2
          else Z.div_eucl c1 (c2 * 10 ^ (- shift)) in
        let '(coeff, exp) :=
          if remainder =? 0 then strip_zeros (Z.to_nat shift) coeff exp
          else ((if coeff mod 5 =? 0 then coeff + 1 else coeff), exp) in
        _fix (Fin sign coeff exp)
  end.

(** [Decimal.__mul__]: [a * b]. *)
Definition mul (a b : Decimal) : outcome Decimal :=
  match a, b with
  | NaN _ true _, _ => Raise InvalidOperation
  | _, NaN _ true _ => Raise InvalidOperation
  | NaN _ false _, _ => _fix a
  | _, NaN _ false _ => _fix b
  | Inf s1, Inf s2 => Ret (Inf (xorb s1 s2))
  | Inf s1, Fin s2 c2 _ =>
      if c2 =? 0 then Raise InvalidOperation else Ret (Inf (xorb s1 s2))
  | Fin s1 c1 _, Inf s2 =>
      if c1 =? 0 then Raise InvalidOperation else Ret (Inf (xorb s1 s2))
  | Fin s1 c1 e1, Fin s2 c2 e2 =>
      _fix (Fin (xorb s1 s2) (c1 * c2) (e1 + e2))
  end.

(** [Decimal.adjusted]: the exponent of the most significant digit. *)
Definition adjusted (c e : Z) : Z := e + ndigits c - 1.

(** [Decimal._rescale] of a finite non-zero value to exponent [exp]. *)
Definition _rescale (c e exp : Z) (r : rounding) : Z :=
  if exp <=? e then c * 10 ^ (e - exp)
  else round_coeff r c (exp - e).

(** [Decimal.quantize]: [a.quantize(q, rounding=r)]. *)
Definition quantize (a q : Decimal) (r : rounding) : outcome Decimal :=
  match a, q with
  | NaN _ true _, _ => Raise InvalidOperation
  | _, NaN _ true _ => Raise InvalidOperation
  | NaN _ false _, _ => _fix a
  | _, NaN _ false _ => _fix q
  | Inf _, Inf _ => Ret a
  | Inf _, Fin _ _ _ => Raise InvalidOperation
  | Fin _ _ _, Inf _ => Raise InvalidOperation
  | Fin s c e, Fin _ _ qe =>
      if negb ((Etiny <=? qe) && (qe <=? Emax)) then Raise InvalidOperation
      else if c =? 0 then _fix (Fin s 0 qe)
      else if Emax <? adjusted c e then Raise InvalidOperation
      else if prec <? adjusted c e - qe + 1 then Raise InvalidOperation
      else
        let c' := _rescale c e qe r in
        if Emax <? adjusted c' qe then Raise InvalidOperation
        else if prec <? ndigits c' then Raise InvalidOperation
        else _fix (Fin s c' qe)
  end.

(** [d <= 0] and [d < 0]: an ordering comparison with a NaN signals
    InvalidOperation. *)
Definition le_zero (d : Decimal) : outcome bool :=
  match d with
  | NaN _ _ _ => Raise InvalidOperation
  | Inf s => Ret s
  | Fin s c _ => Ret ((c =? 0) || s)
  end.

Definition lt_zero (d : Decimal) : outcome bool :=
  match d with
  | NaN _ _ _ => Raise InvalidOperation
  | Inf s => Ret s
  | Fin s c _ => Ret (negb (c =? 0) && s)
  end.

(** [Decimal(n)] for an integer. *)
Definition of_Z (n : Z) : Decimal := Fin (n <? 0) (Z.abs n) 0.

(** *** [str(d)] *)

Definition zeros (n : Z) : list ascii := repeat "0"%char (Z.to_nat n).

(** ["%+d" % n] *)
Definition signed_digits (n : Z) : list ascii :=
  (if n <? 0 then "-"%char else "+"%char) :: digits_of (Z.abs n).

Definition sign_str (neg : bool) : list ascii :=
  if neg then ["-"%char] else [].

Definition payload_digits (p : Z) : list ascii :=
  if p =? 0 then [] else digits_of p.

(** [Decimal.__str__]: the scientific string of the specification, with
    the context's [capitals = 1]. *)
Definition to_chars (d : Decimal) : list ascii :=
  match d with
  | Inf s => sign_str s ++ list_ascii_of_string "Infinity"
  | NaN s false p => sign_str s ++ list_ascii_of_string "NaN" ++ payload_digits p
  | NaN s true p => sign_str s ++ list_ascii_of_string "sNaN" ++ payload_digits p
  | Fin s c e =>
      let int := digits_of c in
      let len := ndigits c in
      let leftdigits := e + len in
      let dotplace :=
        if (e <=? 0) && (-6 <? leftdigits) then leftdigits else 1 in
      let '(intpart, fracpart) :=
        if dotplace <=? 0 then
          (["0"%char], "."%char :: zeros (- dotplace) ++ int)
        else if len <=? dotplace then
          (int ++ zeros (dotplace - len), [])
        else
          (firstn (Z.to_nat dotplace) int,
           "."%char :: skipn (Z.to_nat dotplace) int) in
      let exp :=
        if leftdigits =? dotplace then []
        else "E"%char :: signed_digits (leftdigits - dotplace) in
      sign_str s ++ intpart ++ fracpart ++ exp
  end.

Definition to_str (d : Decimal) : string :=
  string_of_list_ascii (to_chars d).

(** *** [Decimal(s)] for a string

    Strings are sequences of characters with code points below 256; the
    digits and letters that matter are ASCII.

    The constructor does not round to the program's context.  CPython's
    [decimal] converts the string in the widest context it has
    ([MAX_EMAX], [MIN_ETINY]) and refuses, with InvalidOperation, a
    number that this context would have to round or clamp: one whose
    adjusted exponent is above [MAX_EMAX] or whose exponent is below
    [MIN_ETINY], a zero included.  It also refuses a coefficient of more
    than [10^18 - 1] digits; a string of that length fits no machine and
    this last bound is left out. *)

Definition MAX_EMAX : Z := 999999999999999999.
Definition MIN_ETINY : Z := -1999999999999999997.

(** Whether the widest context holds [c * 10^e] as it is written. *)
Definition holds_exactly (c e : Z) : bool :=
  (e + ndigits c - 1 <=? MAX_EMAX) && (MIN_ETINY <=? e).

(** [str.isspace] on those characters. *)
Definition is_space (a : ascii) : bool :=
  let n := Z.of_nat (nat_of_ascii a) in
  ((9 <=? n) && (n <=? 13)) || ((28 <=? n) && (n <=? 32))
  || (n =? 133) || (n =? 160).

Fixpoint lstrip (l : list ascii) : list ascii :=
  match l with
  | a :: l' => if is_space a then lstrip l' else l
  | [] => []
  end.

Definition strip (l : list ascii) : list ascii :=
  rev (lstrip (rev (lstrip l))).

Definition is_underscore (a : ascii) : bool := Ascii.eqb a "_"%char.

(** ASCII lower case, for the parser's [re.IGNORECASE]. *)
Definition lower (a : ascii) : ascii :=
  let n := nat_of_ascii a in
  if (65 <=? Z.of_nat n) && (Z.of_nat n <=? 90) then ascii_of_nat (n + 32)
  else a.

Fixpoint span_digits (l : list ascii) : list ascii * list ascii :=
  match l with
  | a :: l' =>
      if is_digit a then let '(ds, rest) := span_digits l' in (a :: ds, rest)
      else ([], l)
  | [] => ([], [])
  end.

Definition chars_eqb (l1 l2 : list ascii) : bool :=
  String.eqb (string_of_list_ascii l1) (string_of_list_ascii l2).

(** The optional sign of a numeric string. *)
Definition take_sign (l : list ascii) : bool * list ascii :=
  match l with
  | "-"%char :: l' => (true, l')
  | "+"%char :: l' => (false, l')
  | _ => (false, l)
  end.

(** The optional exponent part, up to the end of the string: the letter E,
    an optional sign and at least one digit. *)
Definition parse_exp (l : list ascii) : option Z :=
  match l with
  | [] => Some 0
  | a :: l' =>
      if Ascii.eqb (lower a) "e"%char then
        let '(neg, l'') := take_sign l' in
        let '(ds, rest) := span_digits l'' in
        match ds, rest with
        | _ :: _, [] => Some (if neg then - Z_of_digits ds else Z_of_digits ds)
        | _, _ => None
        end
      else None
  end.

(** The finite alternative of the parser: integer digits, an optional
    point with fraction digits, at least one digit in all, then the
    optional exponent. *)
Definition parse_finite (neg : bool) (l : list ascii) : option Decimal :=
  let '(intpart, rest) := span_digits l in
  let '(fracpart, rest') :=
    match rest with
    | "."%char :: r => span_digits r
    | _ => ([], rest)
    end in
  match intpart ++ fracpart with
  | [] => None
  | ds =>
      match parse_exp rest' with
      | Some exp =>
          Some (Fin neg (Z_of_digits ds) (exp - Z.of_nat (List.length fracpart)))
      | None => None
      end
  end.

(** The special alternatives: Inf or Infinity, and NaN or sNaN followed
    by the digits of a payload; letters in any case. *)
Definition parse_special (neg : bool) (l : list ascii) : option Decimal :=
  let low := map lower l in
  if chars_eqb low (list_ascii_of_string "inf")
     || chars_eqb low (list_ascii_of_string "infinity")
  then Some (Inf neg)
  else
    let '(signaling, body) :=
      match low with
      | "s"%char :: r => (true, r)
      | _ => (false, low)
      end in
    match body with
    | "n"%char :: "a"%char :: "n"%char :: diag =>
        let '(ds, rest) := span_digits diag in
        match rest with
        | [] => Some (NaN neg signaling (Z_of_digits ds))
        | _ => None
        end
    | _ => None
    end.

(** [Decimal(s)]: a string that is no numeric string signals
    ConversionSyntax, a trapped InvalidOperation, and so does a finite
    number that the widest context does not hold exactly.  The conversion
    is exact (no rounding to the program's context). *)
Definition of_string (s : string) : outcome Decimal :=
  let l := filter (fun a => negb (is_underscore a))
                  (strip (list_ascii_of_string s)) in
  let '(neg, body) := take_sign l in
  match parse_finite neg body with
  | Some (Fin sign c e) =>
      if holds_exactly c e then Ret (Fin sign c e)
      else Raise InvalidOperation
  | Some d => Ret d
  | None =>
      match parse_special neg body with
      | Some d => Ret d
      | None => Raise InvalidOperation
      end
  end.

End Dec.
Export Dec.

(** ** Insertion-ordered dictionaries

    A Python [dict] keeps its keys in insertion order and holds each key
    once.  It is an association list here; [set] overwrites in place or
    appends, as [d[k] = v] does. *)

Module PyDict.

Definition dict (V : Type) : Type := list (string * V).

Fixpoint get {V} (d : dict V) (k : string) : option V :=
  match d with
  | [] => None
  | (k', v) :: d' => if String.eqb k k' then Some v else get d' k
  end.

(** [k in d] *)
Definition mem {V} (d : dict V) (k : string) : bool :=
  match get d k with
  | Some _ => true
  | None => false
  end.

(** [d[k] = v] *)
Fixpoint set {V} (d : dict V) (k : string) (v : V) : dict V :=
  match d with
  | [] => [(k, v)]
  | (k', v') :: d' =>
      if String.eqb k k' then (k', v) :: d' else (k', v') :: set d' k v
  end.

Definition keys {V} (d : dict V) : list string := map fst d.

(** The keys of a dictionary are pairwise distinct. *)
Definition wf {V} (d : dict V) : Prop := NoDup (keys d).

End PyDict.
Import PyDict.

(** ** JSON values

    [json.load] yields [None], booleans, integers, floats, strings, lists
    and dictionaries with string keys.  The type is indexed by what a
    number with a fraction or exponent is decoded to: a binary float for
    the cache file, a [Decimal] for the service's response, which the
    program decodes with [parse_float=Decimal]. *)

Module Json.

#[local] Set Warnings "-register-all".
Inductive json (F : Type) : Type :=
| JNull
| JBool (b : bool)
| JInt (n : Z)
| JFloat (f : F)
| JStr (s : string)
| JList (l : list (json F))
| JDict (d : list (string * json F)).
Arguments JNull {F}.
Arguments JBool {F} b.
Arguments JInt {F} n.
Arguments JFloat {F} f.
Arguments JStr {F} s.
Arguments JList {F} l.
Arguments JDict {F} d.

(** A Python float: NaN, an infinity, or the finite value
    [(-1)^neg * m * 2^e] with [m >= 0]. *)
Inductive pyfloat : Type :=
| FNan
| FInf (neg : bool)
| FFin (neg : bool) (m : Z) (e : Z).

(** The signed numerator of a finite float over the denominator [2^k],
    [k >= 0]. *)
Definition float_signed (neg : bool) (m : Z) : Z := if neg then - m else m.

(** [f >= n] for an integer [n]; Python compares exactly. *)
Definition float_ge (f : pyfloat) (n : Z) : bool :=
  match f with
  | FNan => false
  | FInf neg => negb neg
  | FFin neg m e =>
      if 0 <=? e then n <=? float_signed neg (m * 2 ^ e)
      else n * 2 ^ (- e) <=? float_signed neg m
  end.

(** [int(f)]: truncation towards zero. *)
Definition float_int (f : pyfloat) : outcome Z :=
  match f with
  | FNan => Raise ValueError
  | FInf _ => Raise OverflowError
  | FFin neg m e =>
      Ret (float_signed neg (if 0 <=? e then m * 2 ^ e else m / 2 ^ (- e)))
  end.

Definition float_truthy (f : pyfloat) : bool :=
  match f with
  | FFin _ m _ => negb (m =? 0)
  | _ => true
  end.

Section Values.
Context {F : Type}.
Variable F_truthy : F -> bool.

(** Truth value of a decoded value: [bool(v)]. *)
Definition truthy (v : json F) : bool :=
  match v with
  | JNull => false
  | JBool b => b
  | JInt n => negb (n =? 0)
  | JFloat f => F_truthy f
  | JStr s => negb (String.eqb s "")
  | JList l => match l with [] => false | _ => true end
  | JDict d => match d with [] => false | _ => true end
  end.

(** [a or b] *)
Definition py_or (a b : json F) : json F := if truthy a then a else b.

(** [v.get(key)], with [None] for a missing key; only a dictionary has
    the method. *)
Definition py_get (v : json F) (key : string) : outcome (json F) :=
  match v with
  | JDict d =>
      Ret (match get d key with Some x => x | None => JNull end)
  | _ => Raise AttributeError
  end.

(** [v.get(key, default)] *)
Definition py_get_default (v : json F) (key : string) (default : json F)
  : outcome (json F) :=
  match v with
  | JDict d =>
      Ret (match get d key with Some x => x | None => default end)
  | _ => Raise AttributeError
  end.

(** [v == s] for a string [s]: only an equal string is equal. *)
Definition eq_str (v : json F) (s : string) : bool :=
  match v with
  | JStr s' => String.eqb s' s
  | _ => false
  end.

End Values.

(** The white space [int] skips at both ends of a string: the ASCII
    blanks (tab to carriage return, and the space) and, above ASCII,
    U+0085 and U+00A0.  The separators U+001C to U+001F, which
    [str.strip] and [Decimal] skip, are no white space for [int]. *)
Definition is_int_space (a : ascii) : bool :=
  let n := Z.of_nat (nat_of_ascii a) in
  ((9 <=? n) && (n <=? 13)) || (n =? 32) || (n =? 133) || (n =? 160).

Fixpoint int_lstrip (l : list ascii) : list ascii :=
  match l with
  | a :: l' => if is_int_space a then int_lstrip l' else l
  | [] => []
  end.

Definition int_strip (l : list ascii) : list ascii :=
  rev (int_lstrip (rev (int_lstrip l))).

(** [int(s)] for a string: optional sign, digits with single underscores
    between them, surrounding whitespace ignored. *)
Fixpoint int_body (prev_digit : bool) (l : list ascii) (acc : Z) : option Z :=
  match l with
  | [] => if prev_digit then Some acc else None
  | a :: l' =>
      if is_digit a then int_body true l' (10 * acc + digit_val a)
      else if is_underscore a && prev_digit then
        match l' with
        | b :: _ => if is_digit b then int_body false l' acc else None
        | [] => None
        end
      else None
  end.

(** [sys.get_int_max_str_digits()], which the program leaves at its
    default: [int] refuses a string with more digits, a ValueError like
    the one for a string that is no integer. *)
Definition int_max_str_digits : Z := 4300.

Definition int_of_string (s : string) : outcome Z :=
  let '(neg, body) := take_sign (int_strip (list_ascii_of_string s)) in
  match int_body false body 0 with
  | Some n =>
      if int_max_str_digits <? Z.of_nat (List.length (filter is_digit body))
      then Raise ValueError
      else Ret (if neg then - n else n)
  | None => Raise ValueError
  end.

Definition Z_of_bool (b : bool) : Z := if b then 1 else 0.

(** [v >= n] for a value of the cache file and an integer [n]. *)
Definition py_ge (v : json pyfloat) (n : Z) : outcome bool :=
  match v with
  | JInt a => Ret (n <=? a)
  | JBool b => Ret (n <=? Z_of_bool b)
  | JFloat f => Ret (float_ge f n)
  | _ => Raise TypeError
  end.

(** [int(v)] for a value of the cache file. *)
Definition py_int (v : json pyfloat) : outcome Z :=
  match v with
  | JInt a => Ret a
  | JBool b => Ret (Z_of_bool b)
  | JFloat f => float_int f
  | JStr s => int_of_string s
  | _ => Raise TypeError
  end.

End Json.
Import Json.

(** ** The program *)

Module Prog.

(** What is printed, one constructor per [print] call of the modelled
    functions, with the values interpolated in the text. *)
Inductive message : Type :=
| MsgQuotaReached
    (* "Has alcanzado el limite de 2 actualizaciones hoy." *)
| MsgNoConnection (e : exn)
    (* "No se pudo conectar a la API: {e}" *)
| MsgFetchError (e : exn)
    (* "Error al obtener tasas: {e}" *)
| MsgUpdated (updated : Z)
    (* "Tasas actualizadas desde la API. Monedas actualizadas: {updated}" *)
| MsgRemaining (remaining : Z)
    (* "Restantes hoy: {remaining}" *)
| MsgRateMustBePositive
    (* "La tasa debe ser mayor que 0." *)
| MsgRateSet (val : Decimal) (code : string)
    (* "Tasa actualizada: 1 USD = {val} {code}" *)
| MsgInvalidValue
    (* "Valor invalido. Intenta de nuevo (ej: 3.75)" *)
| MsgTryingAutoUpdate
    (* "Intentando actualizacion automatica desde la API..." *)
| MsgNegativeAmount
    (* "El monto no puede ser negativo." *)
| MsgInvalidAmount.
    (* "Monto invalido. Intenta de nuevo (ej: 1234.56)" *)

(** The file at [CACHE_PATH]: missing; present but such that opening,
    reading or [json.load] raises; or holding the text of a JSON value. *)
Inductive cache_file : Type :=
| NoFile
| Unreadable
| Content (j : json pyfloat).

(** What the service answers to a request: [urlopen], [read], [decode] or
    [json.loads] raises, or the decoded value.  A number with a fraction
    or an exponent is decoded by [Decimal]; the constants NaN, Infinity
    and -Infinity, which [json.loads] decodes to floats, stand here as
    the [Decimal] that [Decimal(val)] makes of them. *)
Inductive http_response : Type :=
| HttpFail (e : exn)
| HttpJson (j : json Decimal).

(** What happens when the cache file is written: the write succeeds, or
    [open] fails and the file is as before, or the write stops after
    [open] has truncated the file. *)
Inductive disk : Type := DiskOk | DiskOpenFails | DiskWriteFails.

(** The state the program acts on: the global [RATES], the cache file,
    the lines printed and the URLs requested so far. *)
Record world : Type := mkWorld {
  RATES : dict Decimal;
  cache : cache_file;
  stdout : list message;
  requests : list string
}.

(** What the program reads but does not control. *)
Record environment : Type := mkEnv {
  today_iso : string;        (* date.today().isoformat() *)
  utcnow_iso : string;       (* datetime.utcnow().isoformat(timespec="seconds") *)
  http : string -> http_response;
  disk_state : disk
}.

(** A call runs on a world and returns or raises; the world it leaves is
    kept in both cases. *)
Definition M (A : Type) : Type := world -> outcome A * world.

Definition ret {A} (a : A) : M A := fun w => (Ret a, w).
Definition throw {A} (e : exn) : M A := fun w => (Raise e, w).
Definition lift {A} (r : outcome A) : M A := fun w => (r, w).

Definition bind {A B} (c : M A) (k : A -> M B) : M B :=
  fun w =>
    match c w with
    | (Ret a, w') => k a w'
    | (Raise e, w') => (Raise e, w')
    end.

(** [try: c  except <classes matching handles>: handler] *)
Definition try_except {A} (c : M A) (handles : exn -> bool)
    (handler : exn -> M A) : M A :=
  fun w =>
    match c w with
    | (Raise e, w') => if handles e then handler e w' else (Raise e, w')
    | r => r
    end.

Definition read_RATES : M (dict Decimal) := fun w => (Ret (RATES w), w).

(** [RATES[code] = v] *)
Definition assign_RATES (code : string) (v : Decimal) : M unit :=
  fun w =>
    (Ret tt, mkWorld (set (RATES w) code v) (cache w) (stdout w) (requests w)).

Definition print (m : message) : M unit :=
  fun w =>
    (Ret tt, mkWorld (RATES w) (cache w) (stdout w ++ [m]) (requests w)).

End Prog.
Import Prog.

Declare Scope prog_scope.
Delimit Scope prog_scope with prog.
Notation "'do' x '<-' c ';' k" := (bind c (fun x => k))
  (at level 10, x name, c at level 100, k at level 200) : prog_scope.
Notation "'run' c ';' k" := (bind c (fun _ => k))
  (at level 10, c at level 100, k at level 200) : prog_scope.

Local Open Scope prog_scope.

(** [SUPPORTED], a Python set.  Membership does not depend on the order;
    the one loop over it, in [actualizar_tasas_api], only overwrites
    entries (see [apply_fetched_order]). *)
Definition SUPPORTED : list string :=
  ["USD"; "EUR"; "MXN"; "ARS"; "COP"; "CLP"; "PEN"; "GBP"; "JPY"; "BRL"; "CAD"].

Definition in_SUPPORTED (code : string) : bool :=
  existsb (String.eqb code) SUPPORTED.
Arguments in_SUPPORTED : simpl never.

(** The value of [RATES] when the module is loaded. *)
Definition initial_RATES : dict Decimal :=
  [ ("USD", Fin false 1 0);
    ("EUR", Fin false 92 (-2));
    ("MXN", Fin false 198 (-1));
    ("ARS", Fin false 980 0);
    ("COP", Fin false 3940 0);
    ("CLP", Fin false 910 0);
    ("PEN", Fin false 375 (-2));
    ("GBP", Fin false 78 (-2));
    ("JPY", Fin false 1465 (-1));
    ("BRL", Fin false 51 (-1));
    ("CAD", Fin false 136 (-2)) ].

Definition initial_world (c : cache_file) : world :=
  mkWorld initial_RATES c [] [].

(** "Respuesta de API invalida", with U+00E1 for the accented letter. *)
Definition msg_invalid_response : string :=
  String.append "Respuesta de API inv" (String (ascii_of_nat 225) "lida").

Section Program.

Variable E : environment.

(** [str(f)] of a finite float [(-1)^neg * m * 2^e]: the shortest decimal
    string that reads back as [f].  It is left open; the results hold
    for every such function. *)
Variable float_repr : bool -> Z -> Z -> string.

(** [_today_str] *)
Definition _today_str : M string := ret (today_iso E).

(** [_load_cache]: [None] (here [JNull]) when the file is missing or
    cannot be read and decoded. *)
Definition _load_cache : M (json pyfloat) :=
  fun w =>
    match cache w with
    | NoFile => (Ret JNull, w)
    | Unreadable => (Ret JNull, w)
    | Content j => (Ret j, w)
    end.

(** [_load_cache() or {}] *)
Definition load_record : M (json pyfloat) :=
  do loaded <- _load_cache;
  ret (py_or float_truthy loaded (JDict [])).

(** [_save_cache]: every exception of the write is swallowed. *)
Definition _save_cache (data : json pyfloat) : M unit :=
  fun w =>
    let file :=
      match disk_state E with
      | DiskOk => Content data
      | DiskOpenFails => cache w
      | DiskWriteFails => Unreadable
      end in
    (Ret tt, mkWorld (RATES w) file (stdout w) (requests w)).

(** [str(value)] for a value of the cache file that is no list and no
    dictionary. *)
Definition py_str_scalar (v : json pyfloat) : option string :=
  match v with
  | JNull => Some "None"
  | JBool true => Some "True"
  | JBool false => Some "False"
  | JInt n => Some (str_of_Z n)
  | JFloat FNan => Some "nan"
  | JFloat (FInf false) => Some "inf"
  | JFloat (FInf true) => Some "-inf"
  | JFloat (FFin neg m e) => Some (float_repr neg m e)
  | JStr s => Some s
  | JList _ | JDict _ => None
  end.

(** [Decimal(str(value))].  The [str] of a list or of a dictionary starts
    with a bracket or a brace, which no numeric string does. *)
Definition Decimal_of_str (v : json pyfloat) : outcome Decimal :=
  match py_str_scalar v with
  | Some s => of_string s
  | None => Raise InvalidOperation
  end.

(** The loop of [_apply_cached_rates] over [rates.items()]. *)
Fixpoint apply_items (items : list (string * json pyfloat)) (updated : Z)
  : M Z :=
  match items with
  | [] => ret updated
  | (code, value) :: rest =>
      do updated' <-
        try_except
          (if in_SUPPORTED code then
             do d <- lift (Decimal_of_str value);
             run assign_RATES code d;
             ret (updated + 1)
           else ret updated)
          (fun _ => true)
          (fun _ => ret updated);
      apply_items rest updated'
  end.

(** [_apply_cached_rates]: [None] when there is nothing to apply, else
    the number of entries applied. *)
Definition _apply_cached_rates : M (option Z) :=
  do cache <- _load_cache;
  if negb (truthy float_truthy cache) then ret None
  else
    do rates <- lift (py_get cache "rates");
    match rates with
    | JDict items =>
        do updated <- apply_items items 0;
        ret (Some updated)
    | _ => ret None
    end.

(** [convertir] *)
Definition convertir (monto : Decimal) (desde hacia : string) : M Decimal :=
  if String.eqb desde hacia then ret monto
  else
    do rates <- read_RATES;
    do rate_desde <-
      lift (match get rates desde with
            | Some r => Ret r
            | None => Raise (KeyError desde)
            end);
    do usd <- lift (truediv monto rate_desde);
    do rates' <- read_RATES;
    do rate_hacia <-
      lift (match get rates' hacia with
            | Some r => Ret r
            | None => Raise (KeyError hacia)
            end);
    do result <- lift (mul usd rate_hacia);
    ret result.

(** [formatea]: an f-string renders a [Decimal] as [str] does. *)
Definition formatea (valor : Decimal) (code : string) : M string :=
  do q <- lift (of_string "0.01");
  do rounded <- lift (quantize valor q ROUND_HALF_UP);
  ret (String.append (to_str rounded) (String.append " " code)).

(** The loop of [_fetch_rates_from_api] over [rates.items()]. *)
Fixpoint collect_rates (items : list (string * json Decimal))
    (out : dict Decimal) : dict Decimal :=
  match items with
  | [] => out
  | (code, val) :: rest =>
      let converted : option Decimal :=
        match val with
        | JInt n => Some (of_Z n)
        | JBool b => Some (of_Z (Z_of_bool b))
        | JFloat d => Some d
        | JStr s =>
            match of_string s with
            | Ret d => Some d
            | Raise _ => None
            end
        | JNull | JList _ | JDict _ => None
        end in
      match converted with
      | Some d => collect_rates rest (set out code d)
      | None => collect_rates rest out
      end
  end.

(** [_fetch_rates_from_api] *)
Definition _fetch_rates_from_api (base : string) : M (dict Decimal) :=
  fun w =>
    let url := String.append "https://api.exchangerate.host/latest?base=" base in
    let w' := mkWorld (RATES w) (cache w) (stdout w) (requests w ++ [url]) in
    match http E url with
    | HttpFail e => (Raise e, w')
    | HttpJson data =>
        match data with
        | JDict d =>
            match get d "rates" with
            | None => (Raise (RuntimeError msg_invalid_response), w')
            | Some (JDict items) =>
                (Ret (collect_rates items [("USD", Fin false 1 0)]), w')
            | Some _ => (Raise AttributeError, w')
            end
        | _ => (Raise (RuntimeError msg_invalid_response), w')
        end
    end.

(** The loop of [actualizar_tasas_api] over [SUPPORTED]. *)
Fixpoint apply_fetched (codes : list string) (all_rates : dict Decimal)
    (updated : Z) : M Z :=
  match codes with
  | [] => ret updated
  | code :: rest =>
      match get all_rates code with
      | Some d =>
          run assign_RATES code d;
          apply_fetched rest all_rates (updated + 1)
      | None => apply_fetched rest all_rates updated
      end
  end.

(** [{k: str(RATES[k]) for k in RATES}] *)
Definition rates_snapshot (rates : dict Decimal) : list (string * json pyfloat) :=
  map (fun kv => (fst kv, JStr (to_str (snd kv)))) rates.

(** The condition of the quota check in [actualizar_tasas_api]:
    [cache.get("day") == today and
     cache.get("fetch_count", 0) >= max_updates_per_day]. *)
Definition quota_exhausted (cache : json pyfloat) (today : string)
    (max_updates_per_day : Z) : outcome bool :=
  let? day := py_get cache "day" in
  if eq_str day today then
    let? fetch_count := py_get_default cache "fetch_count" (JInt 0) in
    py_ge fetch_count max_updates_per_day
  else Ret false.

(** The new counter in [actualizar_tasas_api]:
    [new_count = 1
     if cache.get("day") == today:
         new_count = int(cache.get("fetch_count", 0)) + 1]. *)
Definition next_count (cache : json pyfloat) (today : string) : outcome Z :=
  let? day := py_get cache "day" in
  if eq_str day today then
    let? fetch_count := py_get_default cache "fetch_count" (JInt 0) in
    let? n := py_int fetch_count in
    Ret (n + 1)
  else Ret 1.

(** The address [_fetch_rates_from_api("USD")] requests. *)
Definition api_url : string :=
  String.append "https://api.exchangerate.host/latest?base=" "USD".

(** [actualizar_tasas_api] *)
Definition actualizar_tasas_api (max_updates_per_day : Z) : M bool :=
  do cache <- load_record;
  do today <- _today_str;
  do exhausted <- lift (quota_exhausted cache today max_updates_per_day);
  if exhausted then
    run print MsgQuotaReached;
    ret false
  else
    do fetched <-
      try_except
        (do all_rates <- _fetch_rates_from_api "USD"; ret (Some all_rates))
        (fun _ => true)
        (fun e =>
           if is_URLError e
           then run print (MsgNoConnection e); ret None
           else run print (MsgFetchError e); ret None);
    match fetched with
    | None => ret false
    | Some all_rates =>
        do updated <- apply_fetched SUPPORTED all_rates 0;
        do new_count <- lift (next_count cache today);
        do rates <- read_RATES;
        let cache_data :=
          JDict [ ("last_updated", JStr (String.append (utcnow_iso E) "Z"));
                  ("day", JStr today);
                  ("fetch_count", JInt new_count);
                  ("rates", JDict (rates_snapshot rates)) ] in
        run _save_cache cache_data;
        run print (MsgUpdated updated);
        run print (MsgRemaining (Z.max 0 (max_updates_per_day - new_count)));
        ret true
    end.

(** The fetches left today, as the start-up block computes them:
    [fetch_count = cache.get("fetch_count", 0)
                   if cache.get("day") == today else 0;
     remaining = max(0, 2 - int(fetch_count))]. *)
Definition remaining_today (cache : json pyfloat) (today : string)
  : outcome Z :=
  let? day := py_get cache "day" in
  let? fetch_count :=
    (if eq_str day today
     then py_get_default cache "fetch_count" (JInt 0)
     else Ret (JInt 0)) in
  let? n := py_int fetch_count in
  Ret (Z.max 0 (2 - n)).

(** [s.replace(",", ".")] *)
Definition replace_commas (l : list ascii) : list ascii :=
  map (fun a => if Ascii.eqb a ","%char then "."%char else a) l.

(** [leer_monto]; each turn reads one line, here the head of [lines]; at
    the end of input [input] raises EOFError. *)
Fixpoint leer_monto (lines : list string) : M Decimal :=
  match lines with
  | [] => throw EOFError
  | line :: rest =>
      let raw :=
        string_of_list_ascii
          (replace_commas (strip (list_ascii_of_string line))) in
      do read <-
        try_except
          (do val <- lift (of_string raw);
           do negative <- lift (lt_zero val);
           if negative then
             run print MsgNegativeAmount;
             ret None
           else ret (Some val))
          is_InvalidOperation
          (fun _ => run print MsgInvalidAmount; ret None);
      match read with
      | Some val => ret val
      | None => leer_monto rest
      end
  end.

(** The loop of [actualizar_tasa] once the currency [code] is chosen; each
    turn reads one line, here the head of [lines]; at the end of input
    [input] raises EOFError. *)
Fixpoint actualizar_tasa_loop (code : string) (lines : list string)
  : M unit :=
  match lines with
  | [] => throw EOFError
  | line :: rest =>
      let raw :=
        string_of_list_ascii
          (replace_commas (strip (list_ascii_of_string line))) in
      do again <-
        try_except
          (do val <- lift (of_string raw);
           do nonpositive <- lift (le_zero val);
           if nonpositive then
             run print MsgRateMustBePositive;
             ret true
           else
             run assign_RATES code val;
             run print (MsgRateSet val code);
             ret false)
          is_InvalidOperation
          (fun _ => run print MsgInvalidValue; ret true);
      if again then actualizar_tasa_loop code rest else ret tt
  end.

End Program.

(** The start-up block run before the menu: apply the cache, then try one
    automatic update if fetches are left; every exception of the second
    step is swallowed.  The date is read twice, by the block itself and
    then by [actualizar_tasas_api], and the clock may have moved on in
    between: [E] is what the block reads, [E'] what the refresh it calls
    reads. *)
Definition startup (E E' : environment)
    (float_repr : bool -> Z -> Z -> string) : M unit :=
  run _apply_cached_rates float_repr;
  try_except
    (do cache <- load_record;
     do today <- _today_str E;
     do remaining <- lift (remaining_today cache today);
     if 0 <? remaining then
       run print MsgTryingAutoUpdate;
       run actualizar_tasas_api E' 2;
       ret tt
     else ret tt)
    (fun _ => true)
    (fun _ => ret tt).

(** * Vocabulary of the statements *)

(** ** The table *)

(** The keys of the table are the supported codes, in their order. *)
Definition keys_ok (w : world) : Prop := keys (RATES w) = SUPPORTED.

(** A value is accepted as a rate by the manual update when [val <= 0]
    is false. *)
Definition positive (d : Decimal) : Prop := le_zero d = Ret false.

(** Every rate of the table is positive. *)
Definition rates_positive (w : world) : Prop :=
  forall code r, get (RATES w) code = Some r -> positive r.

(** The keys are the supported codes and every rate is positive. *)
Definition table_ok (w : world) : Prop := keys_ok w /\ rates_positive w.

(** ** The cache record and the fetch *)

(** The record [_load_cache() or {}] yields for a state of the file. *)
Definition record_of (c : cache_file) : json pyfloat :=
  match c with
  | Content j => py_or float_truthy j (JDict [])
  | NoFile | Unreadable => JDict []
  end.

(** The world after the request of [_fetch_rates_from_api("USD")]. *)
Definition requested (w : world) : world :=
  mkWorld (RATES w) (cache w) (stdout w) (requests w ++ [api_url]).

(** The ways [_fetch_rates_from_api] fails: the transport or the decoding
    raises, the response is no JSON object, it has no ["rates"], or its
    ["rates"] is no object. *)
Inductive fetch_failure : http_response -> exn -> Prop :=
| fail_transport e :
    fetch_failure (HttpFail e) e
| fail_not_object j :
    (forall d, j <> JDict d) ->
    fetch_failure (HttpJson j) (RuntimeError msg_invalid_response)
| fail_no_rates d :
    get d "rates" = None ->
    fetch_failure (HttpJson (JDict d)) (RuntimeError msg_invalid_response)
| fail_rates_not_object d r :
    get d "rates" = Some r ->
    (forall items, r <> JDict items) ->
    fetch_failure (HttpJson (JDict d)) AttributeError.

(** The record a successful refresh writes. *)
Definition new_record (E : environment) (new_count : Z)
    (rates : dict Decimal) : json pyfloat :=
  JDict [ ("last_updated", JStr (String.append (utcnow_iso E) "Z"));
          ("day", JStr (today_iso E));
          ("fetch_count", JInt new_count);
          ("rates", JDict (rates_snapshot rates)) ].

(** ** What the loops compute *)

Section LoopResults.

Variable float_repr : bool -> Z -> Z -> string.

(** The rate an entry of the cached [rates] contributes, if any. *)
Definition entry_rate (code : string) (value : json pyfloat) : option Decimal :=
  if in_SUPPORTED code then
    match Decimal_of_str float_repr value with
    | Ret d => Some d
    | Raise _ => None
    end
  else None.

(** The table after the loop, and the number of entries applied. *)
Fixpoint applied_rates (items : list (string * json pyfloat))
    (rates : dict Decimal) : dict Decimal :=
  match items with
  | [] => rates
  | (code, value) :: rest =>
      match entry_rate code value with
      | Some d => applied_rates rest (set rates code d)
      | None => applied_rates rest rates
      end
  end.

(** The number of entries the loop applies. *)
Fixpoint applied_count (items : list (string * json pyfloat)) : Z :=
  match items with
  | [] => 0
  | (code, value) :: rest =>
      match entry_rate code value with
      | Some _ => 1 + applied_count rest
      | None => applied_count rest
      end
  end.

End LoopResults.

(** The table after the loop of [actualizar_tasas_api], and the number
    of codes it updates. *)
Fixpoint fetched_rates (codes : list string) (all_rates rates : dict Decimal)
  : dict Decimal :=
  match codes with
  | [] => rates
  | code :: rest =>
      match get all_rates code with
      | Some d => fetched_rates rest all_rates (set rates code d)
      | None => fetched_rates rest all_rates rates
      end
  end.

Fixpoint fetched_count (codes : list string) (all_rates : dict Decimal) : Z :=
  match codes with
  | [] => 0
  | code :: rest =>
      match get all_rates code with
      | Some _ => 1 + fetched_count rest all_rates
      | None => fetched_count rest all_rates
      end
  end.

(** ** Rounding and real values *)

(** The number of hundredths nearest to [c * 10^e], a tie going to the
    larger one: the integer part of [c * 10^e * 100 + 1/2]. *)
Definition hundredths_half_up (c e : Z) : Z :=
  if -2 <=? e then c * 10 ^ (e + 2)
  else (2 * c + 10 ^ (- 2 - e)) / (2 * 10 ^ (- 2 - e)).

Section RealVocabulary.

Local Open Scope R_scope.

(** The real number [c * 10^e]. *)
Definition value (c e : Z) : R := IZR c * powerRZ 10 e.

(** The real number a finite decimal stands for; 0 for the others. *)
Definition D2R (d : Decimal) : R :=
  match d with
  | Fin neg c e => if neg then - value c e else value c e
  | _ => 0
  end.

(** Half a unit in the 28th digit, and the bound shown for a quotient. *)
Definition u_mul : R := 5 / 10000000000000000000000000000.
Definition u_div : R := 61 / 100000000000000000000000000000.

End RealVocabulary.

(** The relative error shown for a conversion there and back. *)
Definition round_trip_bound : R := (3 / 1000000000000000000000000000)%R.

(** Magnitudes between [10^-100000] and [10^100001]. *)
Definition in_range (c e : Z) : Prop :=
  -100000 <= adjusted c e <= 100000.

(** ** Sample environments and records *)

(** The service answers [{"rates": {"USD": 1, "MXN": 20}}]. *)
Definition env_example : environment :=
  mkEnv "2025-03-02" "2025-03-02T09:30:00"
        (fun _ => HttpJson (JDict [("rates",
                     JDict [("USD", JInt 1); ("MXN", JInt 20)])]))
        DiskOk.

(** The service cannot be reached. *)
Definition env_offline : environment :=
  mkEnv "2025-03-02" "2025-03-02T09:30:00"
        (fun _ => HttpFail (URLError "timed out")) DiskOk.

(** The service answers with rates that are not positive. *)
Definition env_bad_rates : environment :=
  mkEnv "2025-03-02" "2025-03-02T09:30:00"
        (fun _ => HttpJson (JDict [("rates",
                     JDict [("EUR", JInt 0); ("GBP", JInt (-3))])]))
        DiskOk.

(** The service of [env_example] a day later. *)
Definition env_next_day : environment :=
  mkEnv "2025-03-03" "2025-03-03T00:00:01" (http env_example) DiskOk.

(** A record that has used both fetches of its day. *)
Definition record_spent : dict (json pyfloat) :=
  [ ("last_updated", JStr "2025-03-02T08:00:00Z");
    ("day", JStr "2025-03-02");
    ("fetch_count", JInt 2);
    ("rates", JDict [("EUR", JStr "0.9")]) ].

(** ** Numeric strings *)

(** A decimal as Python builds it: the coefficient and the payload are
    not negative. *)
Definition wf_decimal (d : Decimal) : Prop :=
  match d with
  | Fin _ c _ => 0 <= c
  | Inf _ => True
  | NaN _ _ p => 0 <= p
  end.

(** A decimal the constructor can return: well formed, and a finite
    value in the exponent range of the widest context.  Every [Decimal]
    of CPython is such a value, whatever made it. *)
Definition constructible (d : Decimal) : Prop :=
  wf_decimal d
  /\ match d with
     | Fin _ c e => holds_exactly c e = true
     | _ => True
     end.

(** One of the characters ['0'] to ['9']. *)
Definition digit_ascii (a : ascii) : Prop :=
  exists d, 0 <= d < 10 /\ a = digit_char d.

(** A character that [strip] and the removal of underscores leave alone. *)
Definition plain (a : ascii) : Prop :=
  is_space a = false /\ is_underscore a = false.

(** The text of a finite number: sign, integer digits, an optional point
    with fraction digits, an optional exponent. *)
Definition number_chars (neg : bool) (ip fp ex : list ascii) : list ascii :=
  sign_str neg ++ ip
    ++ match fp with [] => [] | _ => "."%char :: fp end ++ ex.

(** ** The prompts *)

(** What both prompts make of a line before [Decimal] reads it: the
    line stripped, with every comma replaced by a point. *)
Definition typed (line : string) : string :=
  string_of_list_ascii (replace_commas (strip (list_ascii_of_string line))).

(** The amount [leer_monto] takes from a line, if it takes one: the
    [Decimal] of the line, when [val < 0] is false. *)
Definition amount_read (line : string) : option Decimal :=
  match of_string (typed line) with
  | Ret val =>
      match lt_zero val with
      | Ret false => Some val
      | _ => None
      end
  | Raise _ => None
  end.

(** The line [leer_monto] prints for a line it turns away: the one for a
    negative amount, or the one for a line that is no number or a NaN. *)
Definition amount_retry (line : string) : message :=
  match of_string (typed line) with
  | Ret val =>
      match lt_zero val with
      | Ret true => MsgNegativeAmount
      | _ => MsgInvalidAmount
      end
  | Raise _ => MsgInvalidAmount
  end.

(** The rate the manual update takes from a line, if it takes one: the
    [Decimal] of the line, when [val <= 0] is false. *)
Definition rate_read (line : string) : option Decimal :=
  match of_string (typed line) with
  | Ret val =>
      match le_zero val with
      | Ret false => Some val
      | _ => None
      end
  | Raise _ => None
  end.

(** The line the manual update prints for a line it turns away. *)
Definition rate_retry (line : string) : message :=
  match of_string (typed line) with
  | Ret val =>
      match le_zero val with
      | Ret true => MsgRateMustBePositive
      | _ => MsgInvalidValue
      end
  | Raise _ => MsgInvalidValue
  end.

(** The world after [print] of the line [m]. *)
Definition printed (w : world) (m : message) : world :=
  mkWorld (RATES w) (cache w) (stdout w ++ [m]) (requests w).

(** ** States of the cache file *)

(** The file holds a value that is true and no dictionary: the one case
    in which [cache.get] fails. *)
Definition foreign_cache (c : cache_file) : Prop :=
  exists j, c = Content j /\ truthy float_truthy j = true
            /\ forall d, j <> JDict d.

(** The file after [_save_cache data], by what the disk does. *)
Definition saved_file (E : environment) (before : cache_file)
    (data : json pyfloat) : cache_file :=
  match disk_state E with
  | DiskOk => Content data
  | DiskOpenFails => before
  | DiskWriteFails => Unreadable
  end.

(** ** Refreshes one after the other *)

(** The record of the file is sound and has counted [n] fetches for
    [today]: it is of today with the integer count [n] (0 when the field
    is missing), or of another day and [n = 0]. *)
Definition counted (c : cache_file) (today : string) (n : Z) : Prop :=
  exists d,
    record_of c = JDict d
    /\ ((get d "day" = Some (JStr today)
         /\ py_get_default (JDict d) "fetch_count" (JInt 0) = Ret (JInt n))
        \/ ((forall day, get d "day" = Some day -> eq_str day today = false)
            /\ n = 0)).

(** Calls of [actualizar_tasas_api] one after the other, each in its own
    environment; the number of calls that return [True], and the world
    they leave. *)
Fixpoint refresh_all (envs : list environment) (max : Z) (w : world)
  : Z * world :=
  match envs with
  | [] => (0, w)
  | E :: rest =>
      let out := actualizar_tasas_api E max w in
      let later := refresh_all rest max (snd out) in
      ((match fst out with Ret true => 1 | _ => 0 end) + fst later, snd later)
  end.



(** ** Values that can be rendered *)

(** The values [formatea] renders: a finite one whose rounded magnitude
    has at most 28 digits, and a quiet NaN. *)
Definition formattable (d : Decimal) : Prop :=
  match d with
  | Fin _ c e => hundredths_half_up c e < 10 ^ 28
  | Inf _ => False
  | NaN _ signaling _ => signaling = false
  end.

(** ** The response, the record and the session *)

(** The rate [_fetch_rates_from_api] makes of one value of the response:
    a number as it is ([True] and [False] are the integers 1 and 0), a
    string if it reads as a number, nothing otherwise. *)
Definition decoded_rate (val : json Decimal) : option Decimal :=
  match val with
  | JInt n => Some (of_Z n)
  | JBool b => Some (of_Z (Z_of_bool b))
  | JFloat d => Some d
  | JStr s =>
      match of_string s with
      | Ret d => Some d
      | Raise _ => None
      end
  | JNull | JList _ | JDict _ => None
  end.


(** The calls a session is made of.  [leer_moneda] returns only a code
    that is a key of [RATES], so the manual update is given such a code
    ([permitted]). *)
Inductive operation : Type :=
| OpApplyCache
| OpStartup (E E' : environment)
| OpRefresh (E : environment) (max_updates_per_day : Z)
| OpManualUpdate (code : string) (lines : list string)
| OpReadAmount (lines : list string)
| OpConvert (monto : Decimal) (desde hacia : string)
| OpFormat (valor : Decimal) (code : string).

Section Session.

Variable float_repr : bool -> Z -> Z -> string.

(** The world a call leaves, whether it returns or raises. *)
Definition after (op : operation) (w : world) : world :=
  match op with
  | OpApplyCache => snd (_apply_cached_rates float_repr w)
  | OpStartup E E' => snd (startup E E' float_repr w)
  | OpRefresh E max => snd (actualizar_tasas_api E max w)
  | OpManualUpdate code lines => snd (actualizar_tasa_loop code lines w)
  | OpReadAmount lines => snd (leer_monto lines w)
  | OpConvert monto desde hacia => snd (convertir monto desde hacia w)
  | OpFormat valor code => snd (formatea valor code w)
  end.

Definition permitted (op : operation) (w : world) : bool :=
  match op with
  | OpManualUpdate code _ => mem (RATES w) code
  | _ => true
  end.

Fixpoint session (ops : list operation) (w : world) : option world :=
  match ops with
  | [] => Some w
  | op :: rest =>
      if permitted op w then session rest (after op w) else None
  end.

End Session.

(** * Properties *)

(** ** Digits *)

Lemma digits_fuel_app f : forall c acc,
  digits_fuel f c acc = digits_fuel f c [] ++ acc.
Proof.
  induction f as [|f IH]; intros c acc; simpl.
  - reflexivity.
  - destruct (c <? 10); [reflexivity|].
    rewrite IH. rewrite (IH _ [_]). now rewrite <- app_assoc.
Qed.

Lemma digits_fuel_enough f1 : forall f2 c,
  0 <= c < 10 ^ (Z.of_nat f1 + 1) ->
  0 <= c < 10 ^ (Z.of_nat f2 + 1) ->
  digits_fuel f1 c [] = digits_fuel f2 c [].
Proof.
  induction f1 as [|f1 IH]; intros f2 c H1 H2.
  - change (10 ^ (Z.of_nat 0 + 1)) with 10 in H1.
    assert (Hm : c mod 10 = c) by (apply Z.mod_small; lia).
    destruct f2; simpl; rewrite ?Hm.
    + reflexivity.
    + replace (c <? 10) with true by (symmetry; apply Z.ltb_lt; lia).
      reflexivity.
  - simpl. destruct (c <? 10) eqn:Hc.
    + apply Z.ltb_lt in Hc.
      assert (Hm : c mod 10 = c) by (apply Z.mod_small; lia).
      destruct f2; simpl; rewrite ?Hm.
      * reflexivity.
      * replace (c <? 10) with true by (symmetry; apply Z.ltb_lt; lia).
        reflexivity.
    + apply Z.ltb_ge in Hc.
      destruct f2 as [|f2].
      * change (10 ^ (Z.of_nat 0 + 1)) with 10 in H2. lia.
      * simpl. replace (c <? 10) with false by (symmetry; apply Z.ltb_ge; lia).
        rewrite digits_fuel_app, (digits_fuel_app f2). f_equal.
        apply IH.
        -- split; [apply Z.div_pos; lia|].
           apply Z.div_lt_upper_bound; [lia|].
           replace (Z.of_nat (S f1) + 1) with (Z.succ (Z.of_nat f1 + 1)) in H1 by lia.
           rewrite Z.pow_succ_r in H1 by lia. lia.
        -- split; [apply Z.div_pos; lia|].
           apply Z.div_lt_upper_bound; [lia|].
           replace (Z.of_nat (S f2) + 1) with (Z.succ (Z.of_nat f2 + 1)) in H2 by lia.
           rewrite Z.pow_succ_r in H2 by lia. lia.
Qed.

Lemma log2_fuel c : 0 <= c -> 0 <= c < 10 ^ (Z.of_nat (Z.to_nat (Z.log2 c)) + 1).
Proof.
  intros Hc. split; [assumption|].
  rewrite Z2Nat.id by apply Z.log2_nonneg.
  destruct (Z.eq_dec c 0) as [->|Hne].
  - reflexivity.
  - assert (H : c < 2 ^ Z.succ (Z.log2 c)) by (apply Z.log2_spec; lia).
    eapply Z.lt_le_trans; [exact H|].
    apply Z.pow_le_mono_l. pose proof (Z.log2_nonneg c). lia.
Qed.

Lemma digits_of_small c : 0 <= c < 10 -> digits_of c = [digit_char c].
Proof.
  intros H. unfold digits_of.
  rewrite (digits_fuel_enough _ 0 c); [|apply log2_fuel; lia|simpl; lia].
  simpl. now rewrite Z.mod_small.
Qed.

Lemma digits_of_step c :
  10 <= c -> digits_of c = digits_of (c / 10) ++ [digit_char (c mod 10)].
Proof.
  intros H. unfold digits_of.
  assert (Hq : 0 <= c / 10) by (apply Z.div_pos; lia).
  pose proof (log2_fuel c ltac:(lia)) as Hf.
  pose proof (log2_fuel (c / 10) Hq) as Hf'.
  destruct (Z.to_nat (Z.log2 c)) as [|f] eqn:Hl.
  - change (10 ^ (Z.of_nat 0 + 1)) with 10 in Hf. lia.
  - simpl. replace (c <? 10) with false by (symmetry; apply Z.ltb_ge; lia).
    rewrite digits_fuel_app. f_equal.
    apply digits_fuel_enough; [|assumption].
    split; [assumption|].
    apply Z.div_lt_upper_bound; [lia|].
    replace (Z.of_nat (S f) + 1) with (Z.succ (Z.of_nat f + 1)) in Hf by lia.
    rewrite Z.pow_succ_r in Hf by lia. lia.
Qed.

Lemma ndigits_small c : 0 <= c < 10 -> ndigits c = 1.
Proof. intros H. unfold ndigits. now rewrite digits_of_small. Qed.

Lemma ndigits_step c : 10 <= c -> ndigits c = ndigits (c / 10) + 1.
Proof.
  intros H. unfold ndigits. rewrite digits_of_step by assumption.
  rewrite length_app. simpl. lia.
Qed.

Lemma ndigits_pos c : 0 <= c -> 1 <= ndigits c.
Proof.
  intros H. destruct (Z_lt_le_dec c 10).
  - rewrite ndigits_small; lia.
  - rewrite ndigits_step by assumption. unfold ndigits. lia.
Qed.

(** A positive [c] with [n] digits lies in [[10^(n-1), 10^n)]. *)
Lemma ndigits_bounds c :
  0 < c -> 10 ^ (ndigits c - 1) <= c < 10 ^ ndigits c.
Proof.
  intros Hc. assert (H0 : 0 <= c) by lia. revert Hc. pattern c.
  apply Z_lt_induction; [|assumption].
  clear c H0. intros c IH Hc.
  destruct (Z_lt_le_dec c 10) as [Hs|Hb].
  - rewrite ndigits_small by lia. simpl. lia.
  - rewrite ndigits_step by assumption.
    assert (Hq : 0 < c / 10) by (apply Z.div_str_pos; lia).
    assert (Hlt : c / 10 < c) by (apply Z.div_lt; lia).
    specialize (IH (c / 10) ltac:(lia) Hq).
    pose proof (ndigits_pos (c / 10) ltac:(lia)) as Hn.
    replace (ndigits (c / 10) + 1 - 1) with (Z.succ (ndigits (c / 10) - 1)) by lia.
    replace (ndigits (c / 10) + 1) with (Z.succ (ndigits (c / 10))) by lia.
    rewrite !Z.pow_succ_r by lia.
    pose proof (Z.div_mod c 10 ltac:(lia)) as Hdm.
    pose proof (Z.mod_pos_bound c 10 ltac:(lia)) as Hm.
    lia.
Qed.

Lemma ndigits_unique c n :
  10 ^ (n - 1) <= c < 10 ^ n -> 0 < c -> ndigits c = n.
Proof.
  intros [Hlo Hhi] Hc.
  pose proof (ndigits_bounds c Hc) as [Hlo' Hhi'].
  pose proof (ndigits_pos c ltac:(lia)) as Hn.
  assert (Hn0 : 0 < n).
  { destruct (Z_lt_le_dec 0 n); [assumption|].
    exfalso. destruct (Z.eq_dec n 0) as [->|].
    - simpl in Hhi. lia.
    - rewrite Z.pow_neg_r in Hhi by lia. lia. }
  destruct (Z.lt_trichotomy (ndigits c) n) as [Hlt|[Heq|Hgt]]; [|assumption|].
  - assert (10 ^ ndigits c <= 10 ^ (n - 1)) by (apply Z.pow_le_mono_r; lia). lia.
  - assert (10 ^ n <= 10 ^ (ndigits c - 1)) by (apply Z.pow_le_mono_r; lia). lia.
Qed.

Lemma ndigits_le c n : 0 <= c < 10 ^ n -> 0 < n -> ndigits c <= n.
Proof.
  intros [Hc Hhi] Hn.
  destruct (Z.eq_dec c 0) as [->|Hne].
  - rewrite ndigits_small; lia.
  - pose proof (ndigits_bounds c ltac:(lia)) as [Hlo _].
    destruct (Z_lt_le_dec n (ndigits c)) as [Hlt|]; [|assumption].
    assert (10 ^ n <= 10 ^ (ndigits c - 1)) by (apply Z.pow_le_mono_r; lia). lia.
Qed.

(** ** Dictionaries *)

Section DictFacts.
Context {V : Type}.
Implicit Types (d : dict V) (k : string) (v : V).

Lemma get_set_eq d k v : get (set d k v) k = Some v.
Proof.
  induction d as [|[k' v'] d IH]; simpl.
  - now rewrite String.eqb_refl.
  - destruct (String.eqb k k') eqn:Hk; simpl; rewrite Hk; auto.
Qed.

Lemma get_set_neq d k k' v : k' <> k -> get (set d k v) k' = get d k'.
Proof.
  intros Hne.
  induction d as [|[k0 v0] d IH]; simpl.
  - destruct (String.eqb k' k) eqn:Hk; auto.
    apply String.eqb_eq in Hk. contradiction.
  - destruct (String.eqb k k0) eqn:Hk; simpl.
    + apply String.eqb_eq in Hk. subst k0.
      destruct (String.eqb k' k) eqn:Hk'; auto.
      apply String.eqb_eq in Hk'. contradiction.
    + now rewrite IH.
Qed.

Lemma keys_set_mem d k v : mem d k = true -> keys (set d k v) = keys d.
Proof.
  unfold mem.
  induction d as [|[k' v'] d IH]; simpl; [discriminate|].
  destruct (String.eqb k k') eqn:Hk; simpl; intros H; auto.
  f_equal. auto.
Qed.

Lemma mem_set d k k' v : mem d k' = true -> mem (set d k v) k' = true.
Proof.
  unfold mem. intros H.
  destruct (String.eqb k' k) eqn:Hk.
  - apply String.eqb_eq in Hk. subst. now rewrite get_set_eq.
  - apply String.eqb_neq in Hk. now rewrite get_set_neq.
Qed.

Lemma mem_keys d k : mem d k = true <-> In k (keys d).
Proof.
  unfold mem.
  induction d as [|[k' v'] d IH]; simpl.
  - split; [discriminate | tauto].
  - destruct (String.eqb k k') eqn:Hk.
    + apply String.eqb_eq in Hk. subst. tauto.
    + apply String.eqb_neq in Hk. rewrite IH. split; [tauto|].
      intros [H|H]; [congruence | assumption].
Qed.

End DictFacts.

Lemma in_SUPPORTED_In code : in_SUPPORTED code = true <-> In code SUPPORTED.
Proof.
  unfold in_SUPPORTED. rewrite existsb_exists. split.
  - intros [x [Hin Heq]]. apply String.eqb_eq in Heq. now subst.
  - intros Hin. exists code. split; [assumption | apply String.eqb_refl].
Qed.

(** ** The table keeps its keys *)

(** [RATES] starts with exactly the supported codes, and every assignment
    the program makes goes to a key that is already there. *)

Lemma initial_keys_ok c : keys_ok (initial_world c).
Proof. reflexivity. Qed.

Lemma keys_ok_mem w code :
  keys_ok w -> in_SUPPORTED code = true -> mem (RATES w) code = true.
Proof.
  unfold keys_ok. intros Hk Hs.
  apply mem_keys. rewrite Hk. now apply in_SUPPORTED_In.
Qed.

(** ** Applying the cached rates *)

Section ApplyCache.

Variable float_repr : bool -> Z -> Z -> string.

Lemma apply_items_run items : forall updated w,
  apply_items float_repr items updated w =
    (Ret (updated + applied_count float_repr items),
     mkWorld (applied_rates float_repr items (RATES w)) (cache w) (stdout w) (requests w)).
Proof.
  induction items as [|[code value] rest IH]; intros updated w.
  - simpl. unfold ret. rewrite Z.add_0_r. now destruct w.
  - cbn -[Z.add]. unfold bind, try_except, entry_rate.
    destruct (in_SUPPORTED code) eqn:Hs.
    + unfold bind, lift.
      destruct (Decimal_of_str float_repr value) as [d|e] eqn:Hd.
      * cbn -[Z.add]. rewrite IH. cbn -[Z.add]. f_equal. f_equal. lia.
      * cbn -[Z.add]. rewrite IH. destruct w; reflexivity.
    + unfold ret. rewrite IH. destruct w; reflexivity.
Qed.

Lemma applied_rates_keys items : forall rates,
  keys rates = SUPPORTED -> keys (applied_rates float_repr items rates) = SUPPORTED.
Proof.
  induction items as [|[code value] rest IH]; intros rates Hk; simpl; auto.
  unfold entry_rate.
  destruct (in_SUPPORTED code) eqn:Hs; auto.
  destruct (Decimal_of_str float_repr value); auto.
  apply IH. rewrite keys_set_mem; auto.
  apply mem_keys. rewrite Hk. now apply in_SUPPORTED_In.
Qed.

(** An entry that is not in [items] keeps its rate. *)
Lemma applied_rates_other items : forall rates code,
  ~ In code (map fst items) ->
  get (applied_rates float_repr items rates) code = get rates code.
Proof.
  induction items as [|[k v] rest IH]; intros rates code Hn; simpl; auto.
  simpl in Hn.
  destruct (entry_rate float_repr k v).
  - rewrite IH by tauto. apply get_set_neq. intros ->. tauto.
  - apply IH. tauto.
Qed.

(** With distinct keys, each entry decides the fate of its own code. *)
Lemma applied_rates_entry items : forall rates code value,
  NoDup (map fst items) ->
  In (code, value) items ->
  get (applied_rates float_repr items rates) code =
    match entry_rate float_repr code value with
    | Some d => Some d
    | None => get rates code
    end.
Proof.
  induction items as [|[k v] rest IH]; intros rates code value Hnd Hin;
    simpl in *; [contradiction|].
  inversion Hnd as [|? ? Hnotin Hnd']; subst.
  destruct Hin as [Heq|Hin].
  - inversion Heq; subst.
    destruct (entry_rate float_repr code value) as [d|].
    + rewrite applied_rates_other by assumption. apply get_set_eq.
    + now apply applied_rates_other.
  - assert (Hne : code <> k).
    { intros ->. apply Hnotin. apply in_map_iff. now exists (k, value). }
    destruct (entry_rate float_repr k v) as [d|].
    + rewrite (IH _ _ value) by assumption.
      destruct (entry_rate float_repr code value); auto.
      now apply get_set_neq.
    + now apply (IH _ _ value).
Qed.

End ApplyCache.

(** ** Applying the fetched rates *)

Lemma apply_fetched_run codes all_rates : forall updated w,
  apply_fetched codes all_rates updated w =
    (Ret (updated + fetched_count codes all_rates),
     mkWorld (fetched_rates codes all_rates (RATES w))
             (cache w) (stdout w) (requests w)).
Proof.
  induction codes as [|code rest IH]; intros updated w.
  - cbn -[Z.add]. unfold ret. rewrite Z.add_0_r. now destruct w.
  - cbn -[Z.add]. destruct (get all_rates code) as [d|].
    + unfold bind, assign_RATES. rewrite IH. cbn -[Z.add].
      f_equal. f_equal. lia.
    + apply IH.
Qed.

Lemma fetched_rates_keys codes all_rates : forall rates,
  (forall c, In c codes -> mem rates c = true) ->
  keys (fetched_rates codes all_rates rates) = keys rates.
Proof.
  induction codes as [|code rest IH]; intros rates Hm; simpl; auto.
  destruct (get all_rates code) as [d|].
  - rewrite IH.
    + apply keys_set_mem. apply Hm. now left.
    + intros c Hc. apply mem_set. apply Hm. now right.
  - apply IH. intros c Hc. apply Hm. now right.
Qed.

Lemma fetched_rates_other codes all_rates : forall rates code,
  ~ In code codes ->
  get (fetched_rates codes all_rates rates) code = get rates code.
Proof.
  induction codes as [|k rest IH]; intros rates code Hn; simpl; auto.
  simpl in Hn.
  destruct (get all_rates k).
  - rewrite IH by tauto. apply get_set_neq. intros ->. tauto.
  - apply IH. tauto.
Qed.

(** After the loop, a listed code that was fetched has the fetched rate,
    and every other code has the rate it had. *)
Lemma fetched_rates_get codes all_rates : forall rates code,
  In code codes ->
  get (fetched_rates codes all_rates rates) code =
    match get all_rates code with
    | Some d => Some d
    | None => get rates code
    end.
Proof.
  induction codes as [|k rest IH]; intros rates code Hin; simpl in *;
    [contradiction|].
  destruct (string_dec k code) as [->|Hne].
  - destruct (in_dec string_dec code rest) as [Hr|Hr].
    + destruct (get all_rates code) eqn:Hg.
      * rewrite IH by assumption. now rewrite Hg.
      * rewrite IH by assumption. now rewrite Hg.
    + destruct (get all_rates code) eqn:Hg.
      * rewrite fetched_rates_other by assumption. apply get_set_eq.
      * now apply fetched_rates_other.
  - assert (Hr : In code rest) by (destruct Hin; [contradiction | assumption]).
    destruct (get all_rates k).
    + rewrite IH by assumption.
      destruct (get all_rates code); auto.
      apply get_set_neq. congruence.
    + now apply IH.
Qed.

Lemma set_set_comm {V} (d : dict V) k1 k2 v1 v2 :
  k1 <> k2 -> mem d k1 = true -> mem d k2 = true ->
  set (set d k1 v1) k2 v2 = set (set d k2 v2) k1 v1.
Proof.
  unfold mem. intros Hne.
  induction d as [|[k v] d IH]; simpl; [discriminate|].
  destruct (String.eqb k1 k) eqn:H1; destruct (String.eqb k2 k) eqn:H2;
    simpl; rewrite ?H1, ?H2; intros Hm1 Hm2; auto.
  - apply String.eqb_eq in H1, H2. congruence.
  - f_equal. auto.
Qed.

(** The loop over [SUPPORTED] gives the same table and the same count in
    whatever order the set is walked, since every code it assigns is
    already a key of [RATES]. *)
Lemma fetched_rates_order codes codes' all_rates :
  Permutation.Permutation codes codes' ->
  forall rates,
    (forall c, In c codes -> mem rates c = true) ->
    fetched_rates codes all_rates rates = fetched_rates codes' all_rates rates
    /\ fetched_count codes all_rates = fetched_count codes' all_rates.
Proof.
  induction 1 as [|x l l' Hp IH|x y l|l l' l'' Hp1 IH1 Hp2 IH2];
    intros rates Hm.
  - split; reflexivity.
  - cbn -[Z.add]. destruct (get all_rates x) as [d|].
    + destruct (IH (set rates x d)) as [-> ->]; [|split; reflexivity].
      intros c Hc. apply mem_set. apply Hm. now right.
    + destruct (IH rates) as [-> ->]; [|split; reflexivity].
      intros c Hc. apply Hm. now right.
  - cbn -[Z.add].
    destruct (get all_rates y) as [dy|] eqn:Hy;
      destruct (get all_rates x) as [dx|] eqn:Hx; try (split; [reflexivity|lia]).
    split; [|lia].
    destruct (string_dec x y) as [->|Hne].
    + congruence.
    + rewrite (set_set_comm rates y x); auto.
      * apply Hm. now left.
      * apply Hm. right. now left.
  - destruct (IH1 rates Hm) as [-> ->].
    apply IH2. intros c Hc. apply Hm.
    apply Permutation.Permutation_sym in Hp1.
    eapply Permutation.Permutation_in; eassumption.
Qed.

Lemma apply_fetched_order codes all_rates updated w :
  Permutation.Permutation SUPPORTED codes ->
  keys_ok w ->
  apply_fetched codes all_rates updated w =
  apply_fetched SUPPORTED all_rates updated w.
Proof.
  intros Hp Hk. rewrite !apply_fetched_run.
  destruct (fetched_rates_order SUPPORTED codes all_rates Hp (RATES w))
    as [-> ->]; [|reflexivity].
  intros c Hc. apply mem_keys. now rewrite Hk.
Qed.

(** ** The cache record and the quota *)

Lemma load_record_run w : load_record w = (Ret (record_of (cache w)), w).
Proof.
  unfold load_record, bind, _load_cache, ret, record_of.
  destruct (cache w); reflexivity.
Qed.

Lemma quota_exhausted_int d today max n :
  get d "day" = Some (JStr today) ->
  py_get_default (JDict d) "fetch_count" (JInt 0) = Ret (JInt n) ->
  quota_exhausted (JDict d) today max = Ret (max <=? n).
Proof.
  intros Hd Hf. unfold quota_exhausted. cbn [py_get obind]. rewrite Hd.
  cbn [eq_str]. rewrite String.eqb_refl, Hf. reflexivity.
Qed.

Lemma remaining_today_int d today n :
  get d "day" = Some (JStr today) ->
  py_get_default (JDict d) "fetch_count" (JInt 0) = Ret (JInt n) ->
  remaining_today (JDict d) today = Ret (Z.max 0 (2 - n)).
Proof.
  intros Hd Hf. unfold remaining_today. cbn [py_get obind]. rewrite Hd.
  cbn [eq_str]. rewrite String.eqb_refl, Hf. reflexivity.
Qed.

Lemma remaining_today_other_day d today :
  (forall day, get d "day" = Some day -> eq_str day today = false) ->
  remaining_today (JDict d) today = Ret 2.
Proof.
  intros Hday. unfold remaining_today. simpl.
  destruct (get d "day") as [day|] eqn:Hg.
  - now rewrite (Hday day eq_refl).
  - reflexivity.
Qed.

(** C1.  A record of today whose [fetch_count] is the integer [n]
    (0 when the field is missing) leaves [max(0, 2 - n)] fetches, which
    is 0 exactly when [n >= 2]; in that case [actualizar_tasas_api]
    prints the limit message and returns [False]: it requests nothing and
    leaves [RATES] and the cache file as they were.  A record of another
    day leaves 2 fetches, whatever its count. *)
Theorem refresh_quota_exceeded (E : environment) (w : world)
    (d : dict (json pyfloat)) :
  record_of (cache w) = JDict d ->
  (forall n,
      get d "day" = Some (JStr (today_iso E)) ->
      py_get_default (JDict d) "fetch_count" (JInt 0) = Ret (JInt n) ->
      remaining_today (JDict d) (today_iso E) = Ret (Z.max 0 (2 - n))
      /\ (Z.max 0 (2 - n) = 0 <-> 2 <= n)
      /\ (2 <= n ->
          actualizar_tasas_api E 2 w =
            (Ret false,
             mkWorld (RATES w) (cache w)
                     (stdout w ++ [MsgQuotaReached]) (requests w))))
  /\ ((forall day, get d "day" = Some day -> eq_str day (today_iso E) = false) ->
      remaining_today (JDict d) (today_iso E) = Ret 2).
Proof.
  intros Hrec. split.
  - intros n Hd Hf. split; [|split].
    + now apply remaining_today_int.
    + lia.
    + intros Hn. unfold actualizar_tasas_api, bind.
      rewrite load_record_run, Hrec. unfold _today_str, ret, lift.
      rewrite (quota_exhausted_int d (today_iso E) 2 n Hd Hf).
      replace (2 <=? n) with true by (symmetry; now apply Z.leb_le).
      reflexivity.
  - apply remaining_today_other_day.
Qed.

Lemma refresh_quota_exceeded_witness :
  actualizar_tasas_api env_example 2
      (initial_world (Content (JDict record_spent))) =
    (Ret false,
     mkWorld initial_RATES (Content (JDict record_spent))
             [MsgQuotaReached] []).
Proof.
  apply (proj1 (refresh_quota_exceeded env_example
                  (initial_world (Content (JDict record_spent)))
                  record_spent eq_refl) 2 eq_refl eq_refl).
  lia.
Defined.

(** ** The remote fetch *)

Lemma fetch_fails E w e :
  fetch_failure (http E api_url) e ->
  _fetch_rates_from_api E "USD" w = (Raise e, requested w).
Proof.
  intros Hf. unfold _fetch_rates_from_api. fold api_url.
  inversion Hf as [e' Heq|j Hj Heq|d Hd Heq|d r Hd Hr Heq]; subst.
  - reflexivity.
  - destruct j; try reflexivity. exfalso. now apply (Hj d).
  - now rewrite Hd.
  - rewrite Hd. destruct r; try reflexivity. exfalso. now apply (Hr d0).
Qed.

Lemma fetch_succeeds E w body items :
  http E api_url = HttpJson (JDict body) ->
  get body "rates" = Some (JDict items) ->
  _fetch_rates_from_api E "USD" w =
    (Ret (collect_rates items [("USD", Fin false 1 0)]), requested w).
Proof.
  intros Hh Hr. unfold _fetch_rates_from_api. fold api_url.
  now rewrite Hh, Hr.
Qed.

(** Every response either fails in one of the listed ways or yields a
    mapping. *)
Lemma fetch_outcome E w :
  (exists e, fetch_failure (http E api_url) e)
  \/ (exists all_rates,
        _fetch_rates_from_api E "USD" w = (Ret all_rates, requested w)).
Proof.
  destruct (http E api_url) as [e|j] eqn:Hh.
  - left. exists e. constructor.
  - destruct j as [| | | | | |d];
      try (left; eexists; apply fail_not_object; intros d' Hd; discriminate).
    destruct (get d "rates") as [r|] eqn:Hr.
    + destruct r as [| | | | | |items];
        try (left; eexists; eapply fail_rates_not_object;
             [eassumption | intros it Hd; discriminate]).
      right. eexists. now apply (fetch_succeeds E w d items).
    + left. eexists. now apply fail_no_rates.
Qed.

(** ** Refresh *)

Lemma next_count_other_day d today :
  (forall day, get d "day" = Some day -> eq_str day today = false) ->
  next_count (JDict d) today = Ret 1.
Proof.
  intros Hday. unfold next_count. simpl.
  destruct (get d "day") as [day|] eqn:Hg.
  - now rewrite (Hday day eq_refl).
  - reflexivity.
Qed.

Lemma next_count_today d today n :
  get d "day" = Some (JStr today) ->
  py_get_default (JDict d) "fetch_count" (JInt 0) = Ret (JInt n) ->
  next_count (JDict d) today = Ret (n + 1).
Proof.
  intros Hd Hf. unfold next_count. cbn [py_get obind]. rewrite Hd.
  cbn [eq_str]. rewrite String.eqb_refl, Hf. reflexivity.
Qed.

Lemma rates_snapshot_keys rates : keys (rates_snapshot rates) = keys rates.
Proof.
  unfold keys, rates_snapshot. rewrite map_map. reflexivity.
Qed.

Lemma rates_snapshot_get rates code :
  get (rates_snapshot rates) code =
    match get rates code with
    | Some r => Some (JStr (to_str r))
    | None => None
    end.
Proof.
  induction rates as [|[k v] rates IH]; simpl; auto.
  destruct (String.eqb code k); auto.
Qed.

(** The run of [actualizar_tasas_api] when the quota check passes, the
    fetch yields [all_rates] and the file is written. *)
Lemma refresh_run E w max record all_rates new_count :
  record_of (cache w) = record ->
  quota_exhausted record (today_iso E) max = Ret false ->
  _fetch_rates_from_api E "USD" w = (Ret all_rates, requested w) ->
  next_count record (today_iso E) = Ret new_count ->
  disk_state E = DiskOk ->
  actualizar_tasas_api E max w =
    (Ret true,
     let rates := fetched_rates SUPPORTED all_rates (RATES w) in
     mkWorld rates
             (Content (new_record E new_count rates))
             (stdout w ++ [MsgUpdated (fetched_count SUPPORTED all_rates)]
                       ++ [MsgRemaining (Z.max 0 (max - new_count))])
             (requests w ++ [api_url])).
Proof.
  intros Hrec Hq Hfetch Hn Hdisk.
  unfold actualizar_tasas_api, bind at 1. rewrite load_record_run, Hrec.
  unfold bind at 1. unfold _today_str, ret at 1.
  unfold bind at 1. unfold lift at 1. rewrite Hq.
  unfold bind at 1. unfold try_except, bind at 1. rewrite Hfetch.
  unfold ret at 1. unfold bind at 1. rewrite apply_fetched_run.
  unfold bind at 1. unfold lift at 1. rewrite Hn.
  unfold bind, read_RATES, _save_cache, print, ret. rewrite Hdisk.
  cbn -[fetched_rates fetched_count SUPPORTED Z.max Z.sub rates_snapshot].
  unfold new_record. rewrite <- app_assoc. reflexivity.
Qed.



(** C3.  When the fetch fails, in any of the ways of [fetch_failure],
    [actualizar_tasas_api] leaves [RATES] and the cache file exactly as
    they were; and if the quota check had passed it returns [False] after
    one request and one line of output that names the error. *)
Theorem refresh_fetch_failure (E : environment) (w : world) (max : Z)
    (e : exn) :
  fetch_failure (http E api_url) e ->
  RATES (snd (actualizar_tasas_api E max w)) = RATES w
  /\ cache (snd (actualizar_tasas_api E max w)) = cache w
  /\ (quota_exhausted (record_of (cache w)) (today_iso E) max = Ret false ->
      actualizar_tasas_api E max w =
        (Ret false,
         mkWorld (RATES w) (cache w)
                 (stdout w ++ [if is_URLError e then MsgNoConnection e
                               else MsgFetchError e])
                 (requests w ++ [api_url]))).
Proof.
  intros Hf.
  assert (Hrun : forall b,
            quota_exhausted (record_of (cache w)) (today_iso E) max = b ->
            actualizar_tasas_api E max w =
              match b with
              | Raise e' => (Raise e', w)
              | Ret true =>
                  (Ret false,
                   mkWorld (RATES w) (cache w)
                           (stdout w ++ [MsgQuotaReached]) (requests w))
              | Ret false =>
                  (Ret false,
                   mkWorld (RATES w) (cache w)
                           (stdout w ++ [if is_URLError e then MsgNoConnection e
                                         else MsgFetchError e])
                           (requests w ++ [api_url]))
              end).
  { intros b Hb. unfold actualizar_tasas_api, bind at 1.
    rewrite load_record_run. unfold bind at 1. unfold _today_str, ret at 1.
    unfold bind at 1. unfold lift at 1. rewrite Hb.
    destruct b as [[|]|e']; try reflexivity.
    unfold bind at 1. unfold try_except, bind at 1.
    rewrite (fetch_fails E w e Hf).
    destruct (is_URLError e); reflexivity. }
  specialize (Hrun _ eq_refl).
  destruct (quota_exhausted (record_of (cache w)) (today_iso E) max)
    as [[|]|e']; rewrite Hrun; simpl; repeat split; try discriminate; auto.
Qed.

Lemma refresh_fetch_failure_witness :
  actualizar_tasas_api env_offline 2 (initial_world NoFile) =
    (Ret false,
     mkWorld initial_RATES NoFile
             [MsgNoConnection (URLError "timed out")] [api_url]).
Proof.
  apply (refresh_fetch_failure env_offline (initial_world NoFile) 2
           (URLError "timed out") (fail_transport _)).
  reflexivity.
Defined.

(** ** Start-up application of the cache *)

Section ApplyCacheRun.

Variable float_repr : bool -> Z -> Z -> string.

(** [_load_cache] never raises and changes nothing. *)
Lemma load_cache_total w :
  exists j, _load_cache w = (Ret j, w).
Proof.
  unfold _load_cache. destruct (cache w); eexists; reflexivity.
Qed.

(** A record with a ["rates"] object: every entry is tried on its own. *)
Lemma apply_cached_rates_run w d items :
  cache w = Content (JDict d) ->
  get d "rates" = Some (JDict items) ->
  _apply_cached_rates float_repr w =
    (Ret (Some (applied_count float_repr items)),
     mkWorld (applied_rates float_repr items (RATES w))
             (cache w) (stdout w) (requests w)).
Proof.
  intros Hc Hr. unfold _apply_cached_rates, bind at 1.
  unfold _load_cache. rewrite Hc.
  destruct d as [|kv d']; [discriminate|]. cbn [truthy negb].
  unfold bind at 1. unfold lift, py_get. rewrite Hr.
  unfold bind. rewrite apply_items_run. unfold ret. cbn -[Z.add].
  now rewrite Hc.
Qed.

(** With nothing to apply the function returns [None] and changes
    nothing. *)
Lemma apply_cached_rates_absent w :
  record_of (cache w) = JDict [] ->
  _apply_cached_rates float_repr w = (Ret None, w).
Proof.
  unfold _apply_cached_rates, bind, _load_cache, record_of, py_or.
  destruct (cache w) as [| |j]; simpl; intros H; try reflexivity.
  destruct (truthy float_truthy j) eqn:Ht; [|reflexivity].
  subst j. discriminate.
Qed.

(** The keys of the table survive the application, whatever the file. *)
Lemma apply_cached_rates_keys w :
  keys_ok w -> keys_ok (snd (_apply_cached_rates float_repr w)).
Proof.
  intros Hk. unfold _apply_cached_rates, bind at 1. unfold _load_cache.
  destruct (cache w) as [| |j]; try exact Hk.
  destruct (truthy float_truthy j); [|exact Hk]. cbn [negb].
  unfold bind at 1. unfold lift, py_get.
  destruct j as [| | | | | |d]; try exact Hk.
  destruct (get d "rates") as [r|]; [|exact Hk].
  destruct r as [| | | | | |items]; try exact Hk.
  unfold bind. rewrite apply_items_run. unfold ret. cbn -[Z.add].
  unfold keys_ok. cbn [RATES]. now apply applied_rates_keys.
Qed.

End ApplyCacheRun.

(** The example of the specification: a damaged entry is skipped and the
    sound one applied. *)
Example apply_cached_rates_damaged_entry :
  forall float_repr,
    let w := initial_world (Content (JDict
               [("rates", JDict [("USD", JStr "not-a-number");
                                 ("EUR", JStr "0.9")])])) in
    fst (_apply_cached_rates float_repr w) = Ret (Some 1)
    /\ get (RATES (snd (_apply_cached_rates float_repr w))) "EUR"
         = Some (Fin false 9 (-1))
    /\ get (RATES (snd (_apply_cached_rates float_repr w))) "USD"
         = Some (Fin false 1 0).
Proof. intros fr. vm_compute. auto. Qed.

(** C4 (the code departs from the claim).  A cached entry whose value
    parses to a decimal that is not positive is applied all the same: from
    [{"rates": {"EUR": "-1", "GBP": "0"}}] the function reports 2 entries
    and stores the rates -1 and 0. *)
Theorem apply_cached_rates_stores_nonpositive :
  forall float_repr,
    let w := initial_world (Content (JDict
               [("rates", JDict [("EUR", JStr "-1"); ("GBP", JStr "0")])])) in
    let w' := snd (_apply_cached_rates float_repr w) in
    fst (_apply_cached_rates float_repr w) = Ret (Some 2)
    /\ get (RATES w') "EUR" = Some (Fin true 1 0)
    /\ get (RATES w') "GBP" = Some (Fin false 0 0)
    /\ ~ positive (Fin true 1 0)
    /\ ~ positive (Fin false 0 0).
Proof.
  intros fr. vm_compute. repeat split; try discriminate.
Qed.

(** What the function does decide on: with distinct keys, the entry for
    [code] is applied exactly when [code] is supported and
    [Decimal(str(value))] does not raise, whatever the sign of the
    result; nothing else in the world changes. *)
Lemma apply_cached_rates_entrywise float_repr w d items code value :
  cache w = Content (JDict d) ->
  get d "rates" = Some (JDict items) ->
  NoDup (map fst items) ->
  In (code, value) items ->
  let w' := snd (_apply_cached_rates float_repr w) in
  get (RATES w') code =
    (if in_SUPPORTED code then
       match Decimal_of_str float_repr value with
       | Ret r => Some r
       | Raise _ => get (RATES w) code
       end
     else get (RATES w) code)
  /\ fst (_apply_cached_rates float_repr w)
       = Ret (Some (applied_count float_repr items))
  /\ cache w' = cache w /\ stdout w' = stdout w /\ requests w' = requests w.
Proof.
  intros Hc Hr Hnd Hin. cbv zeta.
  rewrite (apply_cached_rates_run float_repr w d items Hc Hr). cbn [fst snd RATES cache stdout requests].
  repeat split.
  rewrite (applied_rates_entry float_repr items (RATES w) code value Hnd Hin).
  unfold entry_rate. destruct (in_SUPPORTED code); [|reflexivity].
  destruct (Decimal_of_str float_repr value); reflexivity.
Qed.

(** ** The table invariant *)

Lemma initial_rates_positive c : rates_positive (initial_world c).
Proof.
  intros code r. unfold initial_world, initial_RATES. cbn [RATES get].
  repeat (destruct (String.eqb code _);
          [intros H; inversion H; reflexivity|]).
  discriminate.
Qed.

(** A refresh never removes a key of the table. *)
Lemma refresh_keeps_keys E max w :
  keys_ok w -> keys_ok (snd (actualizar_tasas_api E max w)).
Proof.
  intros Hk. unfold actualizar_tasas_api, bind at 1.
  rewrite load_record_run. unfold bind at 1. unfold _today_str, ret at 1.
  unfold bind at 1. unfold lift at 1.
  destruct (quota_exhausted (record_of (cache w)) (today_iso E) max)
    as [[|]|e']; try exact Hk.
  unfold bind at 1. unfold try_except, bind at 1.
  destruct (fetch_outcome E w) as [[e Hf]|[all_rates Hf]].
  - rewrite (fetch_fails E w e Hf). destruct (is_URLError e); exact Hk.
  - rewrite Hf. unfold ret at 1. unfold bind at 1.
    rewrite apply_fetched_run.
    assert (Hk' : keys (fetched_rates SUPPORTED all_rates (RATES w)) = SUPPORTED).
    { rewrite fetched_rates_keys; [exact Hk|].
      intros c Hc. apply mem_keys. now rewrite Hk. }
    unfold bind at 1. unfold lift at 1.
    destruct (next_count (record_of (cache w)) (today_iso E)) as [n|e'];
      [|exact Hk'].
    unfold bind, read_RATES, _save_cache, print, ret.
    cbn -[fetched_rates fetched_count SUPPORTED Z.max Z.sub rates_snapshot].
    exact Hk'.
Qed.

(** The manual update keeps the keys, and a rate it stores is positive. *)
Lemma manual_update_invariant code lines : forall w,
  mem (RATES w) code = true -> table_ok w ->
  table_ok (snd (actualizar_tasa_loop code lines w)).
Proof.
  induction lines as [|line rest IH]; intros w Hm Hok.
  - exact Hok.
  - cbn [actualizar_tasa_loop]. unfold bind at 1. unfold try_except.
    unfold bind at 1. unfold lift at 1.
    destruct (of_string _) as [val|e] eqn:Hval.
    + unfold bind at 1. unfold lift at 1.
      destruct (le_zero val) as [[|]|e] eqn:Hle.
      * unfold bind, print, ret. cbn [fst snd].
        apply IH; assumption.
      * unfold bind, assign_RATES, print, ret. cbn [fst snd RATES].
        destruct Hok as [Hk Hp]. split.
        -- unfold keys_ok. cbn [RATES]. now rewrite keys_set_mem.
        -- intros c r. cbn [RATES].
           destruct (string_dec c code) as [->|Hne].
           ++ rewrite get_set_eq. intros H. inversion H. subst. exact Hle.
           ++ rewrite get_set_neq by assumption. apply Hp.
      * destruct (is_InvalidOperation e).
        -- unfold bind, print, ret. cbn [fst snd]. apply IH; assumption.
        -- exact Hok.
    + destruct (is_InvalidOperation e).
      * unfold bind, print, ret. cbn [fst snd]. apply IH; assumption.
      * exact Hok.
Qed.

(** The manual update turns a value that is not positive away. *)
Example manual_update_rejects_zero :
  actualizar_tasa_loop "EUR" ["0"; "-2,5"] (initial_world NoFile) =
    (Raise EOFError,
     mkWorld initial_RATES NoFile
             [MsgRateMustBePositive; MsgRateMustBePositive] []).
Proof. reflexivity. Qed.

(** C5 (the code departs from the claim).  The keys of the table are
    kept ([apply_cached_rates_keys], [refresh_keeps_keys],
    [manual_update_invariant]), but only the manual update checks that a
    rate is positive.  When the service answers
    [{"rates": {"EUR": 0, "GBP": -3}}], [actualizar_tasas_api] returns
    [True] and stores the rates 0 and -3, after which a conversion from
    EUR divides by zero. *)
Theorem refresh_stores_nonpositive :
  let w := initial_world NoFile in
  let w' := snd (actualizar_tasas_api env_bad_rates 2 w) in
  rates_positive w
  /\ fst (actualizar_tasas_api env_bad_rates 2 w) = Ret true
  /\ keys (RATES w') = SUPPORTED
  /\ get (RATES w') "EUR" = Some (Fin false 0 0)
  /\ get (RATES w') "GBP" = Some (Fin true 3 0)
  /\ ~ rates_positive w'
  /\ fst (convertir (Fin false 100 0) "EUR" "USD" w') = Raise DivisionByZero.
Proof.
  cbv zeta. split; [apply initial_rates_positive|].
  repeat split; try (vm_compute; reflexivity).
  intros Hp. specialize (Hp "EUR" (Fin false 0 0)).
  assert (H : positive (Fin false 0 0)) by (apply Hp; vm_compute; reflexivity).
  discriminate H.
Qed.

(** ** Failures that reach the caller *)

(** What does hold: on a missing or unreadable file, on a falsy value and
    on any JSON object, applying the cache returns. *)
Lemma apply_cached_rates_returns float_repr w :
  (forall j, cache w = Content j -> truthy float_truthy j = true ->
             exists d, j = JDict d) ->
  raises (fst (_apply_cached_rates float_repr w)) = false.
Proof.
  intros Hobj. unfold _apply_cached_rates, bind at 1. unfold _load_cache.
  destruct (cache w) as [| |j] eqn:Hc; try reflexivity.
  destruct (truthy float_truthy j) eqn:Ht; [|reflexivity]. cbn [negb].
  destruct (Hobj j eq_refl Ht) as [d ->].
  unfold bind at 1. unfold lift, py_get.
  destruct (get d "rates") as [r|]; [|reflexivity].
  destruct r as [| | | | | |items]; try reflexivity.
  unfold bind. rewrite apply_items_run. reflexivity.
Qed.

(** And a refresh returns, whatever the service does, when the record is
    an object whose [fetch_count], if present, is an integer. *)
Lemma refresh_returns E max w d :
  record_of (cache w) = JDict d ->
  (forall v, get d "fetch_count" = Some v -> exists n, v = JInt n) ->
  raises (fst (actualizar_tasas_api E max w)) = false.
Proof.
  intros Hrec Hint.
  assert (Hfc : exists n, py_get_default (JDict d) "fetch_count" (JInt 0)
                          = Ret (JInt n)).
  { unfold py_get_default. destruct (get d "fetch_count") as [v|] eqn:Hg.
    - destruct (Hint v eq_refl) as [n ->]. now exists n.
    - now exists 0. }
  destruct Hfc as [n Hfc].
  assert (Hq : exists b, quota_exhausted (JDict d) (today_iso E) max = Ret b).
  { unfold quota_exhausted. cbn [py_get obind].
    destruct (eq_str _ _); [|now exists false].
    rewrite Hfc. cbn [obind py_ge]. eexists. reflexivity. }
  assert (Hn : exists k, next_count (JDict d) (today_iso E) = Ret k).
  { unfold next_count. cbn [py_get obind].
    destruct (eq_str _ _); [|now exists 1].
    rewrite Hfc. cbn [obind py_int]. eexists. reflexivity. }
  destruct Hq as [b Hq]. destruct Hn as [k Hn].
  unfold actualizar_tasas_api, bind at 1. rewrite load_record_run, Hrec.
  unfold bind at 1. unfold _today_str, ret at 1.
  unfold bind at 1. unfold lift at 1. rewrite Hq.
  destruct b; [reflexivity|].
  unfold bind at 1. unfold try_except, bind at 1.
  destruct (fetch_outcome E w) as [[e Hf]|[all_rates Hf]].
  - rewrite (fetch_fails E w e Hf). destruct (is_URLError e); reflexivity.
  - rewrite Hf. unfold ret at 1. unfold bind at 1.
    rewrite apply_fetched_run.
    unfold bind at 1. unfold lift at 1. rewrite Hn. reflexivity.
Qed.

(** C6 (the code departs from the claim).  [_load_cache] never raises
    ([load_cache_total]), but what it returns is used unchecked.  A cache
    file holding the JSON list [[1]] makes [_apply_cached_rates], and
    with it the start-up block, raise AttributeError; a record of today
    whose [fetch_count] is the string ["x"] makes [actualizar_tasas_api]
    raise TypeError; and a record of today whose [fetch_count] is NaN
    makes it raise ValueError after the table has been overwritten. *)
Theorem malformed_cache_raises :
  forall float_repr,
    fst (_apply_cached_rates float_repr
           (initial_world (Content (JList [JInt 1])))) = Raise AttributeError
    /\ fst (startup env_offline env_offline float_repr
              (initial_world (Content (JList [JInt 1])))) = Raise AttributeError
    /\ fst (actualizar_tasas_api env_offline 2
              (initial_world (Content (JDict
                 [("day", JStr "2025-03-02"); ("fetch_count", JStr "x")]))))
       = Raise TypeError
    /\ (let out := actualizar_tasas_api env_example 2
                     (initial_world (Content (JDict
                        [("day", JStr "2025-03-02");
                         ("fetch_count", JFloat FNan)]))) in
        fst out = Raise ValueError
        /\ get (RATES (snd out)) "MXN" = Some (Fin false 20 0)).
Proof.
  intros fr. vm_compute. auto.
Qed.

(** ** Conversion *)

(** What [convertir] computes between two different codes of the table. *)
Lemma convertir_run w monto desde hacia rate_desde rate_hacia :
  get (RATES w) desde = Some rate_desde ->
  get (RATES w) hacia = Some rate_hacia ->
  desde <> hacia ->
  convertir monto desde hacia w =
    ((let? usd := truediv monto rate_desde in mul usd rate_hacia), w).
Proof.
  intros Hd Hh Hne. unfold convertir.
  apply String.eqb_neq in Hne. rewrite Hne.
  unfold bind, read_RATES, lift, ret. rewrite Hd, Hh.
  destruct (truediv monto rate_desde) as [usd|e]; [|reflexivity].
  cbn [obind]. destruct (mul usd rate_hacia); reflexivity.
Qed.

(** ** Conversion and presentation only read *)

Lemma convertir_frame monto desde hacia w :
  snd (convertir monto desde hacia w) = w.
Proof.
  unfold convertir. destruct (String.eqb desde hacia); [reflexivity|].
  unfold bind, read_RATES, lift, ret.
  destruct (get (RATES w) desde); [|reflexivity].
  destruct (truediv monto d); [|reflexivity].
  destruct (get (RATES w) hacia); [|reflexivity].
  destruct (mul a d0); reflexivity.
Qed.

Lemma formatea_frame valor code w : snd (formatea valor code w) = w.
Proof.
  unfold formatea, bind, lift, ret.
  destruct (of_string "0.01"); [|reflexivity].
  destruct (quantize valor a ROUND_HALF_UP); reflexivity.
Qed.

(** C10.  [convertir] and [formatea] return the world they were given,
    raising or not: the table, the cache file, what was printed and what
    was requested are the same, and so is the number of fetches left
    today.  Their result depends on the table and the arguments only. *)
Theorem conversion_is_read_only (E : environment) (w : world)
    (monto valor : Decimal) (desde hacia code : string) :
  snd (convertir monto desde hacia w) = w
  /\ snd (formatea valor code w) = w
  /\ remaining_today (record_of (cache (snd (convertir monto desde hacia w))))
                     (today_iso E)
     = remaining_today (record_of (cache w)) (today_iso E)
  /\ remaining_today (record_of (cache (snd (formatea valor code w))))
                     (today_iso E)
     = remaining_today (record_of (cache w)) (today_iso E)
  /\ (forall w2, RATES w2 = RATES w ->
        fst (convertir monto desde hacia w2) = fst (convertir monto desde hacia w)
        /\ fst (formatea valor code w2) = fst (formatea valor code w)).
Proof.
  rewrite convertir_frame, formatea_frame. repeat split.
  - unfold convertir. destruct (String.eqb desde hacia); [reflexivity|].
    unfold bind, read_RATES, lift, ret. rewrite H.
    destruct (get (RATES w) desde); [|reflexivity].
    destruct (truediv monto d); [|reflexivity].
    destruct (get (RATES w) hacia); [|reflexivity].
    destruct (mul a d0); reflexivity.
  - unfold formatea, bind, lift, ret.
    destruct (of_string "0.01"); [|reflexivity].
    destruct (quantize valor a ROUND_HALF_UP); reflexivity.
Qed.

Lemma conversion_is_read_only_witness :
  fst (convertir (Fin false 100 0) "USD" "MXN"
         (mkWorld initial_RATES Unreadable [MsgQuotaReached] [api_url]))
  = fst (convertir (Fin false 100 0) "USD" "MXN" (initial_world NoFile)).
Proof.
  apply (proj2 (proj2 (proj2 (proj2
           (conversion_is_read_only env_example (initial_world NoFile)
              (Fin false 100 0) (Fin false 1005 (-3)) "USD" "MXN" "USD"))))
           (mkWorld initial_RATES Unreadable [MsgQuotaReached] [api_url])
           eq_refl).
Defined.

(** ** Presentation *)

Lemma half_up_div c p :
  0 <= c -> 0 < p ->
  (2 * c + p) / (2 * p) = c / p + (if p <=? 2 * (c mod p) then 1 else 0).
Proof.
  intros Hc Hp.
  pose proof (Z.div_mod c p ltac:(lia)) as Hdm.
  pose proof (Z.mod_pos_bound c p Hp) as Hm.
  symmetry.
  destruct (p <=? 2 * (c mod p)) eqn:Hh.
  - apply Z.leb_le in Hh.
    apply (Z.div_unique _ _ _ (2 * (c mod p) - p)); [left; lia | lia].
  - apply Z.leb_gt in Hh.
    apply (Z.div_unique _ _ _ (2 * (c mod p) + p)); [left; lia | lia].
Qed.


Lemma rescale_hundredths c e :
  0 <= c -> _rescale c e (-2) ROUND_HALF_UP = hundredths_half_up c e.
Proof.
  intros Hc. unfold _rescale, hundredths_half_up.
  destruct (-2 <=? e) eqn:He.
  - replace (e - -2) with (e + 2) by lia. reflexivity.
  - apply Z.leb_gt in He.
    assert (Hp : 0 < 10 ^ (- 2 - e)) by (apply Z.pow_pos_nonneg; lia).
    unfold round_coeff, round_up.
    destruct (ndigits c <? -2 - e) eqn:Hn.
    + apply Z.ltb_lt in Hn. symmetry. apply Z.div_small.
      assert (Hlt : 10 * c < 10 ^ (- 2 - e)).
      { destruct (Z.eq_dec c 0) as [->|Hne]; [lia|].
        pose proof (ndigits_bounds c ltac:(lia)) as [_ Hhi].
        assert (10 ^ Z.succ (ndigits c) <= 10 ^ (- 2 - e))
          by (apply Z.pow_le_mono_r; lia).
        rewrite Z.pow_succ_r in H by (pose proof (ndigits_pos c Hc); lia).
        lia. }
      lia.
    + now rewrite half_up_div.
Qed.

Lemma fix_fits s c e :
  0 <= c -> ndigits c <= prec -> Etiny <= e <= Emax - prec ->
  _fix (Fin s c e) = Ret (Fin s c e).
Proof.
  intros Hc Hn He. unfold _fix.
  destruct (c =? 0) eqn:H0.
  - apply Z.eqb_eq in H0. subst. do 2 f_equal. unfold Emax, prec, Etiny in *. lia.
  - replace (Etop <? ndigits c + e - prec) with false
      by (symmetry; apply Z.ltb_ge; unfold Etop; lia).
    replace (e <? Z.max (ndigits c + e - prec) Etiny) with false
      by (symmetry; apply Z.ltb_ge; lia).
    reflexivity.
Qed.

Lemma quantize_hundredths s c e :
  0 <= c -> hundredths_half_up c e < 10 ^ 28 ->
  quantize (Fin s c e) (Fin false 1 (-2)) ROUND_HALF_UP =
    Ret (Fin s (hundredths_half_up c e) (-2)).
Proof.
  intros Hc Hn.
  assert (Hn0 : 0 <= hundredths_half_up c e).
  { unfold hundredths_half_up. destruct (-2 <=? e) eqn:He.
    - apply Z.mul_nonneg_nonneg; [lia|]. apply Z.pow_nonneg. lia.
    - apply Z.leb_gt in He. apply Z.div_pos.
      + assert (0 < 10 ^ (- 2 - e)) by (apply Z.pow_pos_nonneg; lia). lia.
      + assert (0 < 10 ^ (- 2 - e)) by (apply Z.pow_pos_nonneg; lia). lia. }
  unfold quantize. cbn [negb andb Z.leb].
  replace ((Etiny <=? -2) && (-2 <=? Emax)) with true by reflexivity.
  cbn [negb].
  destruct (c =? 0) eqn:H0.
  - apply Z.eqb_eq in H0. subst c.
    assert (Hz : hundredths_half_up 0 e = 0).
    { unfold hundredths_half_up. destruct (-2 <=? e) eqn:He; [reflexivity|].
      apply Z.leb_gt in He. apply Z.div_small.
      assert (0 < 10 ^ (- 2 - e)) by (apply Z.pow_pos_nonneg; lia). lia. }
    rewrite Hz. reflexivity.
  - apply Z.eqb_neq in H0.
    pose proof (ndigits_bounds c ltac:(lia)) as [Hlo Hhi].
    pose proof (ndigits_pos c Hc) as Hnp.
    (* the amount has at most 26 digits before the point *)
    assert (Hadj : ndigits c + e <= 26).
    { destruct (Z_lt_le_dec 26 (ndigits c + e)) as [Hbig|]; [exfalso|assumption].
      unfold hundredths_half_up in Hn.
      destruct (-2 <=? e) eqn:He.
      - apply Z.leb_le in He.
        assert (10 ^ 28 <= 10 ^ (ndigits c - 1 + (e + 2)))
          by (apply Z.pow_le_mono_r; lia).
        rewrite Z.pow_add_r in H by lia.
        assert (0 < 10 ^ (e + 2)) by (apply Z.pow_pos_nonneg; lia).
        nia.
      - apply Z.leb_gt in He.
        set (k := - 2 - e) in *.
        assert (Hk : 0 < 10 ^ k) by (apply Z.pow_pos_nonneg; lia).
        assert (10 ^ (28 + k) <= 10 ^ (ndigits c - 1))
          by (apply Z.pow_le_mono_r; lia).
        rewrite Z.pow_add_r in H by lia.
        assert (10 ^ 28 <= (2 * c + 10 ^ k) / (2 * 10 ^ k)).
        { apply Z.div_le_lower_bound; [lia|]. nia. }
        lia. }
    unfold adjusted.
    replace (Emax <? e + ndigits c - 1) with false
      by (symmetry; apply Z.ltb_ge; unfold Emax; lia).
    replace (prec <? e + ndigits c - 1 - -2 + 1) with false
      by (symmetry; apply Z.ltb_ge; unfold prec; lia).
    rewrite rescale_hundredths by assumption.
    assert (Hd : ndigits (hundredths_half_up c e) <= 28)
      by (apply ndigits_le; lia).
    replace (Emax <? -2 + ndigits (hundredths_half_up c e) - 1) with false
      by (symmetry; apply Z.ltb_ge; unfold Emax; lia).
    replace (prec <? ndigits (hundredths_half_up c e)) with false
      by (symmetry; apply Z.ltb_ge; unfold prec; lia).
    apply fix_fits; [assumption | unfold prec; lia | unfold Etiny, Emin, Emax, prec; lia].
Qed.







(** ** Rounding to the context *)

Lemma round_half_even_error c k :
  0 <= c -> 0 <= k -> k <= ndigits c ->
  let q := round_coeff ROUND_HALF_EVEN c k in
  2 * Z.abs (q * 10 ^ k - c) <= 10 ^ k
  /\ c / 10 ^ k <= q <= c / 10 ^ k + 1.
Proof.
  intros Hc Hk Hn. cbv zeta. unfold round_coeff, round_up.
  replace (ndigits c <? k) with false by (symmetry; apply Z.ltb_ge; lia).
  assert (Hp : 0 < 10 ^ k) by (apply Z.pow_pos_nonneg; lia).
  set (p := 10 ^ k) in *.
  pose proof (Z.div_mod c p ltac:(lia)) as Hdm.
  pose proof (Z.mod_pos_bound c p Hp) as Hm.
  destruct ((p <? 2 * (c mod p)) || ((p =? 2 * (c mod p)) && Z.odd (c / p)))
    eqn:Hup.
  - assert (Hge : p <= 2 * (c mod p)).
    { apply orb_true_iff in Hup. destruct Hup as [H|H].
      - apply Z.ltb_lt in H. lia.
      - apply andb_true_iff in H. destruct H as [H _].
        apply Z.eqb_eq in H. lia. }
    split; [|lia]. nia.
  - assert (Hle : 2 * (c mod p) <= p).
    { apply orb_false_iff in Hup. destruct Hup as [H _].
      apply Z.ltb_ge in H. lia. }
    split; [|lia]. nia.
Qed.

(** A non-zero value in the normal range comes out of [_fix] with at most
    28 digits, its leading digit at most one place higher, and off by at
    most half a unit of its 28th digit. *)
Lemma fix_normal s c e :
  0 < c -> Emin <= adjusted c e -> adjusted c e < Emax ->
  exists c' e',
    _fix (Fin s c e) = Ret (Fin s c' e')
    /\ 0 < c' /\ e <= e' /\ ndigits c' <= prec
    /\ adjusted c e <= adjusted c' e' <= adjusted c e + 1
    /\ 2 * 10 ^ 27 * Z.abs (c' * 10 ^ (e' - e) - c) <= c.
Proof.
  intros Hc Hlo Hhi. unfold adjusted in *.
  pose proof (ndigits_bounds c Hc) as [Hb1 Hb2].
  pose proof (ndigits_pos c ltac:(lia)) as Hnp.
  unfold _fix.
  replace (c =? 0) with false by (symmetry; apply Z.eqb_neq; lia).
  replace (Etop <? ndigits c + e - prec) with false
    by (symmetry; apply Z.ltb_ge; unfold Etop, prec, Emax in *; lia).
  replace (Z.max (ndigits c + e - prec) Etiny) with (ndigits c + e - prec)
    by (unfold Etiny, prec, Emin in *; lia).
  destruct (e <? ndigits c + e - prec) eqn:Hr.
  - apply Z.ltb_lt in Hr.
    set (k := ndigits c + e - prec - e).
    assert (Hk : 0 < k) by (unfold k; lia).
    assert (Hkn : k = ndigits c - 28) by (unfold k, prec; lia).
    pose proof (round_half_even_error c k ltac:(lia) ltac:(lia) ltac:(lia))
      as [Herr [Hq1 Hq2]].
    set (q := round_coeff ROUND_HALF_EVEN c k) in *.
    assert (Hp : 0 < 10 ^ k) by (apply Z.pow_pos_nonneg; lia).
    assert (Hc27 : 10 ^ 27 * 10 ^ k <= c).
    { rewrite <- Z.pow_add_r by lia.
      replace (27 + k) with (ndigits c - 1) by lia. assumption. }
    assert (Hc28 : c < 10 ^ 28 * 10 ^ k).
    { rewrite <- Z.pow_add_r by lia.
      replace (28 + k) with (ndigits c) by lia. assumption. }
    assert (Hq27 : 10 ^ 27 <= c / 10 ^ k) by (apply Z.div_le_lower_bound; lia).
    assert (Hq28 : c / 10 ^ k < 10 ^ 28) by (apply Z.div_lt_upper_bound; lia).
    destruct (Z_lt_le_dec q (10 ^ 28)) as [Hsmall|Hbig].
    + assert (Hnq : ndigits q = 28) by (apply ndigits_unique; lia).
      replace (prec <? ndigits q) with false
        by (symmetry; apply Z.ltb_ge; unfold prec; lia).
      replace (Etop <? ndigits c + e - prec) with false
        by (symmetry; apply Z.ltb_ge; unfold Etop, prec, Emax in *; lia).
      exists q, (ndigits c + e - prec).
      split; [reflexivity|].
      split; [lia|]. split; [lia|]. split; [unfold prec; lia|].
      split; [unfold prec; lia|].
      fold k. nia.
    + assert (Hq : q = 10 ^ 28) by lia.
      assert (Hnq : ndigits q = 29) by (apply ndigits_unique; rewrite Hq; lia).
      replace (prec <? ndigits q) with true
        by (symmetry; apply Z.ltb_lt; unfold prec; lia).
      replace (Etop <? ndigits c + e - prec + 1) with false
        by (symmetry; apply Z.ltb_ge; unfold Etop, prec, Emax in *; lia).
      exists (q / 10), (ndigits c + e - prec + 1).
      split; [reflexivity|].
      assert (Hq10 : q / 10 = 10 ^ 27) by (rewrite Hq; reflexivity).
      rewrite Hq10.
      assert (Hn27 : ndigits (10 ^ 27) = 28) by reflexivity.
      split; [lia|]. split; [lia|]. split; [rewrite Hn27; unfold prec; lia|].
      split; [rewrite Hn27; unfold prec; lia|].
      replace (ndigits c + e - prec + 1 - e) with (Z.succ k) by (unfold k; lia).
      rewrite Z.pow_succ_r by lia.
      replace (10 ^ 27 * (10 * 10 ^ k)) with (q * 10 ^ k) by (rewrite Hq; lia).
      nia.
  - apply Z.ltb_ge in Hr.
    exists c, e. split; [reflexivity|].
    split; [lia|]. split; [lia|]. split; [lia|]. split; [lia|].
    rewrite Z.sub_diag. change (10 ^ 0) with 1.
    rewrite Z.mul_1_r, Z.sub_diag. change (Z.abs 0) with 0. lia.
Qed.

Lemma ndigits_ge c m : 0 <= m -> 10 ^ m <= c -> m + 1 <= ndigits c.
Proof.
  intros Hm Hc.
  assert (Hpos : 0 < c) by (pose proof (Z.pow_pos_nonneg 10 m); lia).
  pose proof (ndigits_bounds c Hpos) as [_ Hhi].
  destruct (Z_lt_le_dec (ndigits c) (m + 1)) as [Hlt|]; [|assumption].
  assert (10 ^ ndigits c <= 10 ^ m) by (apply Z.pow_le_mono_r; lia). lia.
Qed.

Lemma ndigits_mul c1 c2 :
  0 < c1 -> 0 < c2 ->
  ndigits c1 + ndigits c2 - 1 <= ndigits (c1 * c2) <= ndigits c1 + ndigits c2.
Proof.
  intros H1 H2.
  pose proof (ndigits_bounds c1 H1) as [L1 U1].
  pose proof (ndigits_bounds c2 H2) as [L2 U2].
  pose proof (ndigits_pos c1 ltac:(lia)) as P1.
  pose proof (ndigits_pos c2 ltac:(lia)) as P2.
  assert (Hp1 : 0 < 10 ^ (ndigits c1 - 1)) by (apply Z.pow_pos_nonneg; lia).
  assert (Hp2 : 0 < 10 ^ (ndigits c2 - 1)) by (apply Z.pow_pos_nonneg; lia).
  split.
  - assert (H : ndigits c1 - 1 + (ndigits c2 - 1) + 1 <= ndigits (c1 * c2)).
    { apply ndigits_ge; [lia|]. rewrite Z.pow_add_r by lia. nia. }
    lia.
  - apply ndigits_le; [|lia]. split; [nia|].
    rewrite Z.pow_add_r by lia. nia.
Qed.

(** The product of two non-zero values, in the normal range. *)
Lemma mul_normal s1 c1 e1 s2 c2 e2 :
  0 < c1 -> 0 < c2 ->
  Emin <= adjusted c1 e1 + adjusted c2 e2 ->
  adjusted c1 e1 + adjusted c2 e2 + 1 < Emax ->
  exists c' e',
    mul (Fin s1 c1 e1) (Fin s2 c2 e2) = Ret (Fin (xorb s1 s2) c' e')
    /\ 0 < c' /\ e1 + e2 <= e'
    /\ adjusted c1 e1 + adjusted c2 e2 <= adjusted c' e'
         <= adjusted c1 e1 + adjusted c2 e2 + 2
    /\ 2 * 10 ^ 27 * Z.abs (c' * 10 ^ (e' - (e1 + e2)) - c1 * c2) <= c1 * c2.
Proof.
  intros H1 H2 Hlo Hhi.
  pose proof (ndigits_mul c1 c2 H1 H2) as [Hn1 Hn2].
  assert (Hc : 0 < c1 * c2) by nia.
  unfold adjusted in *.
  destruct (fix_normal (xorb s1 s2) (c1 * c2) (e1 + e2) Hc)
    as (c' & e' & Hfix & Hc' & He' & _ & Hadj & Herr);
    try (unfold adjusted; lia).
  exists c', e'. unfold mul. unfold adjusted in Hadj.
  repeat split; try assumption; lia.
Qed.

Lemma strip_zeros_spec todo : forall c e,
  0 < c ->
  fst (strip_zeros todo c e) * 10 ^ (snd (strip_zeros todo c e) - e) = c
  /\ e <= snd (strip_zeros todo c e)
  /\ 0 < fst (strip_zeros todo c e).
Proof.
  induction todo as [|todo IH]; intros c e Hc; simpl.
  - rewrite Z.sub_diag. change (10 ^ 0) with 1. lia.
  - destruct (c mod 10 =? 0) eqn:Hm; simpl.
    + apply Z.eqb_eq in Hm.
      pose proof (Z.div_mod c 10 ltac:(lia)) as Hdm.
      assert (Hq : 0 < c / 10) by lia.
      destruct (IH (c / 10) (e + 1) Hq) as (Hv & He & Hp).
      split; [|split; [lia | assumption]].
      replace (snd (strip_zeros todo (c / 10) (e + 1)) - e)
        with (Z.succ (snd (strip_zeros todo (c / 10) (e + 1)) - (e + 1))) by lia.
      rewrite Z.pow_succ_r by lia.
      set (a := fst (strip_zeros todo (c / 10) (e + 1))) in *.
      set (b := 10 ^ (snd (strip_zeros todo (c / 10) (e + 1)) - (e + 1))) in *.
      nia.
    + rewrite Z.sub_diag. change (10 ^ 0) with 1. lia.
Qed.

Lemma ndigits_shift c j : 0 < c -> 0 <= j -> ndigits (c * 10 ^ j) = ndigits c + j.
Proof.
  intros Hc Hj.
  pose proof (ndigits_bounds c Hc) as [L U].
  pose proof (ndigits_pos c ltac:(lia)) as P.
  assert (Hp : 0 < 10 ^ j) by (apply Z.pow_pos_nonneg; lia).
  apply ndigits_unique; [|nia].
  replace (ndigits c + j - 1) with (ndigits c - 1 + j) by lia.
  rewrite !Z.pow_add_r by lia. nia.
Qed.

Lemma div_eucl_div_mod a b : Z.div_eucl a b = (a / b, a mod b).
Proof. unfold Z.div, Z.modulo. now destruct (Z.div_eucl a b). Qed.

Lemma abs_scale a b k : 0 <= k -> Z.abs (a * k - b * k) = Z.abs (a - b) * k.
Proof.
  intros Hk. rewrite <- Z.mul_sub_distr_r, Z.abs_mul.
  now rewrite (Z.abs_eq k).
Qed.

(** The tail of [__truediv__]: from the integer quotient of [N] by [Dn],
    which has 29 or 30 digits, to the rounded result. *)
Lemma div_core sign N Dn g todo :
  0 < Dn -> 10 ^ 28 * Dn <= N -> N < 10 ^ 30 * Dn ->
  Emin <= g + 28 -> g + 29 < Emax ->
  exists c' e',
    (let '(coeff, exp) :=
       if N mod Dn =? 0 then strip_zeros todo (N / Dn) g
       else ((if (N / Dn) mod 5 =? 0 then N / Dn + 1 else N / Dn), g) in
     _fix (Fin sign coeff exp)) = Ret (Fin sign c' e')
    /\ 0 < c' /\ g <= e'
    /\ g + 28 <= adjusted c' e' <= g + 30
    /\ 10 ^ 29 * Z.abs (c' * 10 ^ (e' - g) * Dn - N) <= 61 * N.
Proof.
  intros HDn Hlo Hhi Hg1 Hg2.
  pose proof (Z.div_mod N Dn ltac:(lia)) as Hdm.
  pose proof (Z.mod_pos_bound N Dn HDn) as Hm.
  assert (Hq28 : 10 ^ 28 <= N / Dn) by (apply Z.div_le_lower_bound; lia).
  assert (Hq30 : N / Dn < 10 ^ 30) by (apply Z.div_lt_upper_bound; lia).
  set (q0 := N / Dn) in *.
  assert (Hnq : 29 <= ndigits q0 <= 30).
  { split; [apply (ndigits_ge q0 28); lia | apply ndigits_le; lia]. }
  destruct (N mod Dn =? 0) eqn:Hr.
  - apply Z.eqb_eq in Hr.
    destruct (strip_zeros_spec todo q0 g ltac:(lia)) as (Hv & Hes & Hcs).
    destruct (strip_zeros todo q0 g) as [cs es]. cbn [fst snd] in *.
    assert (Hnd : ndigits q0 = ndigits cs + (es - g)).
    { rewrite <- Hv. apply ndigits_shift; lia. }
    destruct (fix_normal sign cs es Hcs) as (c' & e' & Hfix & Hc' & He' & _ & Hadj & Herr);
      try (unfold adjusted; lia).
    exists c', e'. unfold adjusted in *.
    split; [exact Hfix|]. split; [assumption|]. split; [lia|]. split; [lia|].
    assert (Hp : 0 < 10 ^ (es - g)) by (apply Z.pow_pos_nonneg; lia).
    replace (e' - g) with ((e' - es) + (es - g)) by lia.
    rewrite Z.pow_add_r by lia.
    assert (HN : N = q0 * Dn) by lia.
    replace (c' * (10 ^ (e' - es) * 10 ^ (es - g)) * Dn - N)
      with ((c' * 10 ^ (e' - es)) * (10 ^ (es - g) * Dn) - cs * (10 ^ (es - g) * Dn))
      by (rewrite HN, <- Hv; ring).
    rewrite abs_scale by nia.
    set (A := Z.abs (c' * 10 ^ (e' - es) - cs)) in *.
    assert (HA : 0 <= A) by apply Z.abs_nonneg.
    assert (HN' : N = cs * (10 ^ (es - g) * Dn)) by (rewrite HN, <- Hv; ring).
    assert (Hk : 0 < 10 ^ (es - g) * Dn) by nia.
    set (K := 10 ^ (es - g) * Dn) in *.
    assert (2 * 10 ^ 27 * (A * K) <= cs * K).
    { replace (2 * 10 ^ 27 * (A * K)) with ((2 * 10 ^ 27 * A) * K) by ring.
      apply Z.mul_le_mono_nonneg_r; lia. }
    lia.
  - apply Z.eqb_neq in Hr.
    set (coeff := if q0 mod 5 =? 0 then q0 + 1 else q0).
    assert (Hco : q0 <= coeff <= q0 + 1)
      by (unfold coeff; destruct (q0 mod 5 =? 0); lia).
    assert (Hco30 : coeff < 10 ^ 30).
    { unfold coeff. destruct (q0 mod 5 =? 0) eqn:H5; [|lia].
      apply Z.eqb_eq in H5.
      destruct (Z.eq_dec q0 (10 ^ 30 - 1)) as [Heq|]; [|lia].
      rewrite Heq in H5. vm_compute in H5. discriminate. }
    assert (Hnc : 29 <= ndigits coeff <= 30).
    { split; [apply (ndigits_ge coeff 28); lia | apply ndigits_le; lia]. }
    destruct (fix_normal sign coeff g ltac:(lia)) as (c' & e' & Hfix & Hc' & He' & _ & Hadj & Herr);
      try (unfold adjusted; lia).
    exists c', e'. unfold adjusted in *.
    split; [exact Hfix|]. split; [assumption|]. split; [lia|]. split; [lia|].
    set (x := c' * 10 ^ (e' - g)) in *.
    set (A := Z.abs (x - coeff)) in *.
    assert (HA : 0 <= A) by apply Z.abs_nonneg.
    assert (HT : Z.abs (x * Dn - N) <= A * Dn + Dn).
    { replace (x * Dn - N) with ((x * Dn - coeff * Dn) + (coeff * Dn - N)) by ring.
      eapply Z.le_trans; [apply Z.abs_triangle|].
      rewrite abs_scale by lia. fold A.
      assert (Z.abs (coeff * Dn - N) <= Dn) by (apply Z.abs_le; nia).
      lia. }
    assert (HP : 2 * 10 ^ 27 * (A * Dn) <= coeff * Dn).
    { replace (2 * 10 ^ 27 * (A * Dn)) with ((2 * 10 ^ 27 * A) * Dn) by ring.
      apply Z.mul_le_mono_nonneg_r; lia. }
    assert (HC : coeff * Dn <= N + Dn) by nia.
    lia.
Qed.

(** The quotient of two non-zero values, in the normal range: the result
    [c' * 10^e'] is within 6.1 units in the 28th digit of [N / Dn * 10^g],
    which is the exact quotient. *)
Lemma div_normal s1 c1 e1 s2 c2 e2 :
  0 < c1 -> 0 < c2 ->
  Emin <= adjusted c1 e1 - adjusted c2 e2 - 1 ->
  adjusted c1 e1 - adjusted c2 e2 < Emax ->
  exists c' e' N Dn g,
    truediv (Fin s1 c1 e1) (Fin s2 c2 e2) = Ret (Fin (xorb s1 s2) c' e')
    /\ 0 < c' /\ 0 < N /\ 0 < Dn /\ g <= e'
    /\ ((0 <= e1 - e2 - g /\ N = c1 * 10 ^ (e1 - e2 - g) /\ Dn = c2)
        \/ (e1 - e2 - g < 0 /\ N = c1 /\ Dn = c2 * 10 ^ (- (e1 - e2 - g))))
    /\ adjusted c1 e1 - adjusted c2 e2 - 1 <= adjusted c' e'
         <= adjusted c1 e1 - adjusted c2 e2 + 1
    /\ 10 ^ 29 * Z.abs (c' * 10 ^ (e' - g) * Dn - N) <= 61 * N.
Proof.
  intros H1 H2 Hlo Hhi. unfold adjusted in Hlo, Hhi.
  pose proof (ndigits_bounds c1 H1) as [L1 U1].
  pose proof (ndigits_bounds c2 H2) as [L2 U2].
  pose proof (ndigits_pos c1 ltac:(lia)) as P1.
  pose proof (ndigits_pos c2 ltac:(lia)) as P2.
  unfold truediv.
  replace (c2 =? 0) with false by (symmetry; apply Z.eqb_neq; lia).
  replace (c1 =? 0) with false by (symmetry; apply Z.eqb_neq; lia).
  set (shift := ndigits c2 - ndigits c1 + prec + 1).
  set (g := e1 - e2 - shift).
  assert (Hsh : e1 - e2 - g = shift) by (unfold g; lia).
  destruct (0 <=? shift) eqn:Hs.
  - apply Z.leb_le in Hs.
    rewrite div_eucl_div_mod.
    assert (Hp : 0 < 10 ^ shift) by (apply Z.pow_pos_nonneg; lia).
    assert (Hlo' : 10 ^ 28 * c2 <= c1 * 10 ^ shift).
    { assert (10 ^ 28 * 10 ^ ndigits c2 = 10 ^ (ndigits c1 - 1) * 10 ^ shift).
      { rewrite <- !Z.pow_add_r by lia. f_equal. unfold shift, prec. lia. }
      nia. }
    assert (Hhi' : c1 * 10 ^ shift < 10 ^ 30 * c2).
    { assert (10 ^ 30 * 10 ^ (ndigits c2 - 1) = 10 ^ ndigits c1 * 10 ^ shift).
      { rewrite <- !Z.pow_add_r by lia. f_equal. unfold shift, prec. lia. }
      nia. }
    destruct (div_core (xorb s1 s2) (c1 * 10 ^ shift) c2 g (Z.to_nat shift)
                H2 Hlo' Hhi')
      as (c' & e' & Hrun & Hc' & He' & Hadj & Herr);
      try (unfold g, shift, prec; lia).
    exists c', e', (c1 * 10 ^ shift), c2, g.
    split; [exact Hrun|]. split; [assumption|]. split; [nia|].
    split; [assumption|]. split; [assumption|].
    split; [left; rewrite Hsh; auto|].
    split; [unfold adjusted in *; unfold g, shift, prec in *; lia | assumption].
  - apply Z.leb_gt in Hs.
    rewrite div_eucl_div_mod.
    assert (Hp : 0 < 10 ^ (- shift)) by (apply Z.pow_pos_nonneg; lia).
    assert (HDn : 0 < c2 * 10 ^ (- shift)) by nia.
    assert (Hlo' : 10 ^ 28 * (c2 * 10 ^ (- shift)) <= c1).
    { assert (10 ^ 28 * (10 ^ ndigits c2 * 10 ^ (- shift)) = 10 ^ (ndigits c1 - 1)).
      { rewrite <- !Z.pow_add_r by lia. f_equal. unfold shift, prec. lia. }
      nia. }
    assert (Hhi' : c1 < 10 ^ 30 * (c2 * 10 ^ (- shift))).
    { assert (10 ^ 30 * (10 ^ (ndigits c2 - 1) * 10 ^ (- shift)) = 10 ^ ndigits c1).
      { rewrite <- !Z.pow_add_r by lia. f_equal. unfold shift, prec. lia. }
      nia. }
    destruct (div_core (xorb s1 s2) c1 (c2 * 10 ^ (- shift)) g (Z.to_nat shift)
                HDn Hlo' Hhi')
      as (c' & e' & Hrun & Hc' & He' & Hadj & Herr);
      try (unfold g, shift, prec; lia).
    exists c', e', c1, (c2 * 10 ^ (- shift)), g.
    split; [exact Hrun|]. split; [assumption|]. split; [assumption|].
    split; [assumption|]. split; [assumption|].
    split; [right; rewrite Hsh; auto|].
    split; [unfold adjusted in *; unfold g, shift, prec in *; lia | assumption].
Qed.

(** ** Values as real numbers *)

Section RealValue.

Local Open Scope R_scope.

Lemma ten_neq_0 : 10 <> 0.
Proof. lra. Qed.

Lemma pow10_pos e : 0 < powerRZ 10 e.
Proof. apply powerRZ_lt. lra. Qed.

Lemma IZR_pow10 j : (0 <= j)%Z -> IZR (10 ^ j) = powerRZ 10 j.
Proof.
  intros Hj. destruct j as [|p|p]; [reflexivity| |lia].
  change (10 ^ Z.pos p)%Z with (Z.pow_pos 10 p).
  apply Zpower_pos_powerRZ.
Qed.

Lemma value_pos c e : (0 < c)%Z -> 0 < value c e.
Proof.
  intros Hc. unfold value. apply Rmult_lt_0_compat.
  - now apply IZR_lt.
  - apply pow10_pos.
Qed.

Lemma value_scale c j e :
  (0 <= j)%Z -> value (c * 10 ^ j) e = value c (e + j).
Proof.
  intros Hj. unfold value.
  rewrite mult_IZR, IZR_pow10 by assumption.
  rewrite (powerRZ_add 10 e j ten_neq_0). ring.
Qed.

Lemma Rabs_bounds a b : Rabs a <= b -> - b <= a <= b.
Proof. unfold Rabs. destruct (Rcase_abs a); lra. Qed.

(** From the integer statement of a rounding error to the real one. *)
Lemma close_of_int c c' e e' :
  (0 < c)%Z -> (e <= e')%Z ->
  (2 * 10 ^ 27 * Z.abs (c' * 10 ^ (e' - e) - c) <= c)%Z ->
  Rabs (value c' e' - value c e) <= u_mul * value c e.
Proof.
  intros Hc He H.
  change (2 * 10 ^ 27)%Z with 2000000000000000000000000000%Z in H.
  apply IZR_le in H. rewrite mult_IZR, abs_IZR, minus_IZR in H.
  replace (value c' e') with (value (c' * 10 ^ (e' - e)) e)
    by (rewrite value_scale by lia; f_equal; lia).
  unfold value. rewrite <- Rmult_minus_distr_r, Rabs_mult.
  pose proof (pow10_pos e) as Hp.
  rewrite (Rabs_pos_eq (powerRZ 10 e)) by lra.
  set (A := Rabs (IZR (c' * 10 ^ (e' - e)) - IZR c)) in *.
  assert (HA : A <= u_mul * IZR c) by (unfold u_mul; lra).
  replace (u_mul * (IZR c * powerRZ 10 e)) with ((u_mul * IZR c) * powerRZ 10 e) by ring.
  apply Rmult_le_compat_r; lra.
Qed.

(** Two relative errors in a row. *)
Lemma close_compose X y z f a b :
  0 <= X -> 0 < f -> 0 <= a -> 0 <= b ->
  Rabs (y - X) <= a * X ->
  Rabs (z - y * f) <= b * (y * f) ->
  Rabs (z - X * f) <= (a + b + a * b) * (X * f).
Proof.
  intros HX Hf Ha Hb H1 H2.
  apply Rabs_bounds in H1. apply Rabs_bounds in H2.
  assert (HP : 0 <= X * f) by (apply Rmult_le_pos; lra).
  assert (HY1 : y * f <= (1 + a) * (X * f)).
  { replace ((1 + a) * (X * f)) with (((1 + a) * X) * f) by ring.
    apply Rmult_le_compat_r; lra. }
  assert (HY2 : (1 - a) * (X * f) <= y * f).
  { replace ((1 - a) * (X * f)) with (((1 - a) * X) * f) by ring.
    apply Rmult_le_compat_r; lra. }
  assert (HbY : b * (y * f) <= b * ((1 + a) * (X * f)))
    by (apply Rmult_le_compat_l; lra).
  apply Rabs_le. split; lra.
Qed.

Lemma pow10_add a b : powerRZ 10 (a + b) = powerRZ 10 a * powerRZ 10 b.
Proof. apply powerRZ_add, ten_neq_0. Qed.

Lemma value_mul c1 e1 c2 e2 :
  value (c1 * c2) (e1 + e2) = value c1 e1 * value c2 e2.
Proof. unfold value. rewrite mult_IZR, pow10_add. ring. Qed.

(** [mul] on positive values in the normal range: the result, and how
    far it is from the exact product. *)
Lemma mul_close c1 e1 c2 e2 :
  (0 < c1)%Z -> (0 < c2)%Z ->
  (Emin <= adjusted c1 e1 + adjusted c2 e2)%Z ->
  (adjusted c1 e1 + adjusted c2 e2 + 1 < Emax)%Z ->
  exists c' e',
    mul (Fin false c1 e1) (Fin false c2 e2) = Ret (Fin false c' e')
    /\ (0 < c')%Z
    /\ (adjusted c1 e1 + adjusted c2 e2 <= adjusted c' e'
          <= adjusted c1 e1 + adjusted c2 e2 + 2)%Z
    /\ Rabs (value c' e' - value c1 e1 * value c2 e2)
         <= u_mul * (value c1 e1 * value c2 e2).
Proof.
  intros H1 H2 Hlo Hhi.
  destruct (mul_normal false c1 e1 false c2 e2 H1 H2 Hlo Hhi)
    as (c' & e' & Hrun & Hc' & He' & Hadj & Herr).
  exists c', e'. repeat split; try assumption; try lia.
  rewrite <- value_mul. apply close_of_int; [nia | assumption | assumption].
Qed.

(** [truediv] on positive values in the normal range. *)
Lemma div_close c1 e1 c2 e2 :
  (0 < c1)%Z -> (0 < c2)%Z ->
  (Emin <= adjusted c1 e1 - adjusted c2 e2 - 1)%Z ->
  (adjusted c1 e1 - adjusted c2 e2 < Emax)%Z ->
  exists c' e',
    truediv (Fin false c1 e1) (Fin false c2 e2) = Ret (Fin false c' e')
    /\ (0 < c')%Z
    /\ (adjusted c1 e1 - adjusted c2 e2 - 1 <= adjusted c' e'
          <= adjusted c1 e1 - adjusted c2 e2 + 1)%Z
    /\ Rabs (value c' e' - value c1 e1 * / value c2 e2)
         <= u_div * (value c1 e1 * / value c2 e2).
Proof.
  intros H1 H2 Hlo Hhi.
  destruct (div_normal false c1 e1 false c2 e2 H1 H2 Hlo Hhi)
    as (c' & e' & N & Dn & g & Hrun & Hc' & HN & HDn & Hg & Hsc & Hadj & Herr).
  exists c', e'. split; [exact Hrun|]. split; [assumption|]. split; [assumption|].
  pose proof (value_pos c1 e1 H1) as V1.
  pose proof (value_pos c2 e2 H2) as V2.
  assert (RN : 0 < IZR N) by now apply IZR_lt.
  assert (RD : 0 < IZR Dn) by now apply IZR_lt.
  pose proof (pow10_pos g) as Pg.
  (* the exact quotient *)
  assert (Hq : value c1 e1 * / value c2 e2 = IZR N * / IZR Dn * powerRZ 10 g).
  { assert (Hx : IZR N * powerRZ 10 g * value c2 e2 = IZR Dn * value c1 e1).
    { unfold value. destruct Hsc as [(Hs & -> & ->)|(Hs & -> & ->)].
      - rewrite mult_IZR, IZR_pow10 by assumption.
        replace (powerRZ 10 e1) with (powerRZ 10 ((e1 - e2 - g) + g + e2))
          by (f_equal; lia).
        rewrite !pow10_add. ring.
      - rewrite mult_IZR, IZR_pow10 by lia.
        replace (powerRZ 10 g) with (powerRZ 10 (- (e1 - e2 - g) + (e1 - e2)))
          by (f_equal; lia).
        replace (powerRZ 10 e1) with (powerRZ 10 ((e1 - e2) + e2))
          by (f_equal; lia).
        rewrite !pow10_add. ring. }
    apply (Rmult_eq_reg_r (value c2 e2 * IZR Dn)); [|nra].
    transitivity (IZR Dn * value c1 e1); [field; lra|].
    rewrite <- Hx. field. lra. }
  rewrite Hq.
  (* the error *)
  change (10 ^ 29)%Z with 100000000000000000000000000000%Z in Herr.
  apply IZR_le in Herr.
  rewrite !mult_IZR, abs_IZR, minus_IZR, mult_IZR in Herr.
  replace (value c' e') with (value (c' * 10 ^ (e' - g)) g)
    by (rewrite value_scale by lia; f_equal; lia).
  unfold value.
  set (x := IZR (c' * 10 ^ (e' - g))) in *.
  replace (x * powerRZ 10 g - IZR N * / IZR Dn * powerRZ 10 g)
    with ((x * IZR Dn - IZR N) * (/ IZR Dn * powerRZ 10 g)) by (field; lra).
  rewrite Rabs_mult.
  assert (Hk : 0 < / IZR Dn * powerRZ 10 g).
  { apply Rmult_lt_0_compat; [now apply Rinv_0_lt_compat | assumption]. }
  rewrite (Rabs_pos_eq (/ IZR Dn * powerRZ 10 g)) by lra.
  replace (u_div * (IZR N * / IZR Dn * powerRZ 10 g))
    with ((u_div * IZR N) * (/ IZR Dn * powerRZ 10 g)) by ring.
  apply Rmult_le_compat_r; [lra|].
  unfold u_div. lra.
Qed.

End RealValue.

(** ** Round trips *)

(** One conversion of a positive amount between two positive rates, all
    in range: the result is positive, its leading digit is where the
    exact result has it, up to three places, and it is within
    [u_div + u_mul + u_div * u_mul] of [x / a * b]. *)
Lemma convertir_close cx kx ca ka cb kb :
  0 < cx -> 0 < ca -> 0 < cb ->
  -500000 <= adjusted cx kx <= 500000 ->
  in_range ca ka -> in_range cb kb ->
  exists cy ky,
    (let? usd := truediv (Fin false cx kx) (Fin false ca ka) in
     mul usd (Fin false cb kb)) = Ret (Fin false cy ky)
    /\ 0 < cy
    /\ adjusted cx kx - adjusted ca ka + adjusted cb kb - 1 <= adjusted cy ky
         <= adjusted cx kx - adjusted ca ka + adjusted cb kb + 3
    /\ (Rabs (value cy ky - value cx kx * / value ca ka * value cb kb)
          <= (u_div + u_mul + u_div * u_mul)
             * (value cx kx * / value ca ka * value cb kb))%R.
Proof.
  intros Hx Ha Hb Rx Ra Rb. unfold in_range in *.
  destruct (div_close cx kx ca ka Hx Ha) as (c1 & e1 & Hdiv & Hc1 & Hadj1 & Herr1);
    try (unfold Emin, Emax; lia).
  destruct (mul_close c1 e1 cb kb Hc1 Hb) as (cy & ky & Hmul & Hcy & Hadj2 & Herr2);
    try (unfold Emin, Emax; lia).
  exists cy, ky. rewrite Hdiv. cbn [obind].
  split; [exact Hmul|]. split; [assumption|]. split; [lia|].
  pose proof (value_pos cx kx Hx) as Vx.
  pose proof (value_pos ca ka Ha) as Va.
  pose proof (value_pos cb kb Hb) as Vb.
  apply (close_compose _ (value c1 e1)); try assumption.
  - apply Rlt_le. apply Rmult_lt_0_compat; [assumption|].
    now apply Rinv_0_lt_compat.
  - unfold u_div. lra.
  - unfold u_mul. lra.
Qed.

Lemma convertir_zero e ca ka cb kb :
  0 < ca -> 0 < cb ->
  exists e',
    (let? usd := truediv (Fin false 0 e) (Fin false ca ka) in
     mul usd (Fin false cb kb)) = Ret (Fin false 0 e').
Proof.
  intros Ha Hb. unfold truediv.
  replace (ca =? 0) with false by (symmetry; apply Z.eqb_neq; lia).
  cbn [Z.eqb _fix obind mul Z.mul xorb]. eexists. reflexivity.
Qed.

(** C7.  With both codes in the table, [convertir] returns the amount
    itself, untouched, when the two codes are equal; otherwise it divides
    the amount by the rate of the source currency, which gives the amount
    in USD, and multiplies that by the rate of the target currency, both
    in the decimal arithmetic of the context, raising what they raise.
    For a positive amount and positive rates in range, the value it
    returns is the real number [amount / rate_desde * rate_hacia] up to
    the rounding of the two operations at 28 digits. *)
Theorem convertir_cross_rate (w : world) (monto : Decimal)
    (desde hacia : string) (rate_desde rate_hacia : Decimal) :
  get (RATES w) desde = Some rate_desde ->
  get (RATES w) hacia = Some rate_hacia ->
  (desde = hacia -> convertir monto desde hacia w = (Ret monto, w))
  /\ (desde <> hacia ->
      convertir monto desde hacia w =
        ((let? usd := truediv monto rate_desde in mul usd rate_hacia), w))
  /\ (desde <> hacia ->
      forall cx kx ca ka cb kb,
        monto = Fin false cx kx ->
        rate_desde = Fin false ca ka ->
        rate_hacia = Fin false cb kb ->
        0 < cx -> 0 < ca -> 0 < cb ->
        in_range cx kx -> in_range ca ka -> in_range cb kb ->
        exists cy ky,
          convertir monto desde hacia w = (Ret (Fin false cy ky), w)
          /\ (Rabs (value cy ky - value cx kx * / value ca ka * value cb kb)
                <= (u_div + u_mul + u_div * u_mul)
                   * (value cx kx * / value ca ka * value cb kb))%R).
Proof.
  intros Hd Hh. split; [|split].
  - intros ->. unfold convertir. now rewrite String.eqb_refl.
  - intros Hne. now apply convertir_run.
  - intros Hne cx kx ca ka cb kb -> -> -> Hx Ha Hb Rx Ra Rb.
    unfold in_range in Rx.
    destruct (convertir_close cx kx ca ka cb kb Hx Ha Hb)
      as (cy & ky & Hrun & _ & _ & Herr); try assumption; try lia.
    exists cy, ky.
    rewrite (convertir_run w _ desde hacia _ _ Hd Hh Hne), Hrun. auto.
Qed.

Lemma convertir_cross_rate_witness :
  convertir (Fin false 100 0) "USD" "MXN" (initial_world NoFile) =
    (Ret (Fin false 19800 (-1)), initial_world NoFile)
  /\ exists cy ky,
       convertir (Fin false 100 0) "USD" "MXN" (initial_world NoFile) =
         (Ret (Fin false cy ky), initial_world NoFile)
       /\ (Rabs (value cy ky - value 100 0 * / value 1 0 * value 198 (-1))
             <= (u_div + u_mul + u_div * u_mul)
                * (value 100 0 * / value 1 0 * value 198 (-1)))%R.
Proof.
  split.
  - apply (proj1 (proj2 (convertir_cross_rate (initial_world NoFile)
                           (Fin false 100 0) "USD" "MXN"
                           (Fin false 1 0) (Fin false 198 (-1))
                           eq_refl eq_refl))).
    discriminate.
  - apply (proj2 (proj2 (convertir_cross_rate (initial_world NoFile)
                           (Fin false 100 0) "USD" "MXN"
                           (Fin false 1 0) (Fin false 198 (-1))
                           eq_refl eq_refl))
             ltac:(discriminate) 100 0 1 0 198 (-1) eq_refl eq_refl eq_refl);
      try lia; unfold in_range; vm_compute; split; discriminate.
Defined.

Lemma round_trip_bound_ok :
  (let a2 := u_div + u_mul + u_div * u_mul in
   a2 + a2 + a2 * a2 <= round_trip_bound)%R.
Proof. unfold round_trip_bound, u_div, u_mul. cbv zeta. lra. Qed.

(** C8, as amended.  For a non-negative amount and two positive rates
    of the table, all of magnitude between [10^-100000] and [10^100001],
    converting there and back returns, without raising, a value whose
    distance from the amount is at most [3 * 10^-27] times the amount:
    they agree to 26 significant digits.  No presentation rounding is
    involved. *)
Theorem round_trip_close (w : world) (desde hacia : string)
    (cx kx ca ka cb kb : Z) :
  get (RATES w) desde = Some (Fin false ca ka) ->
  get (RATES w) hacia = Some (Fin false cb kb) ->
  0 < ca -> 0 < cb -> 0 <= cx ->
  in_range ca ka -> in_range cb kb -> (0 < cx -> in_range cx kx) ->
  exists y z,
    convertir (Fin false cx kx) desde hacia w = (Ret y, w)
    /\ convertir y hacia desde w = (Ret z, w)
    /\ (Rabs (D2R z - D2R (Fin false cx kx))
          <= round_trip_bound * D2R (Fin false cx kx))%R.
Proof.
  intros Hd Hh Ha Hb Hx Ra Rb Rx.
  assert (Hbound : (0 <= round_trip_bound)%R) by (unfold round_trip_bound; lra).
  destruct (string_dec desde hacia) as [Heq|Hne].
  - (* the same currency: the amount comes back untouched *)
    subst hacia. exists (Fin false cx kx), (Fin false cx kx).
    unfold convertir. rewrite String.eqb_refl. unfold ret.
    split; [reflexivity|]. split; [reflexivity|].
    rewrite Rminus_diag, Rabs_R0. cbn [D2R].
    apply Rmult_le_pos; [assumption|].
    unfold value. apply Rmult_le_pos; [now apply IZR_le | apply Rlt_le, pow10_pos].
  - assert (Hne' : hacia <> desde) by congruence.
    destruct (Z.eq_dec cx 0) as [Hz|Hnz].
    + (* zero stays zero *)
      subst cx.
      destruct (convertir_zero kx ca ka cb kb Ha Hb) as (e1 & H1).
      destruct (convertir_zero e1 cb kb ca ka Hb Ha) as (e2 & H2).
      exists (Fin false 0 e1), (Fin false 0 e2).
      rewrite (convertir_run w _ desde hacia _ _ Hd Hh Hne), H1.
      rewrite (convertir_run w _ hacia desde _ _ Hh Hd Hne'), H2.
      split; [reflexivity|]. split; [reflexivity|].
      cbn [D2R]. unfold value. rewrite !Rmult_0_l, Rminus_diag, Rabs_R0. lra.
    + assert (Hpos : 0 < cx) by lia.
      specialize (Rx Hpos). unfold in_range in *.
      destruct (convertir_close cx kx ca ka cb kb Hpos Ha Hb)
        as (cy & ky & Hrun1 & Hcy & Hadj1 & Herr1);
        try (unfold in_range; lia).
      destruct (convertir_close cy ky cb kb ca ka Hcy Hb Ha)
        as (cz & kz & Hrun2 & Hcz & Hadj2 & Herr2);
        try (unfold in_range; lia).
      exists (Fin false cy ky), (Fin false cz kz).
      rewrite (convertir_run w _ desde hacia _ _ Hd Hh Hne), Hrun1.
      rewrite (convertir_run w _ hacia desde _ _ Hh Hd Hne'), Hrun2.
      split; [reflexivity|]. split; [reflexivity|].
      cbn [D2R].
      pose proof (value_pos cx kx Hpos) as Vx.
      pose proof (value_pos ca ka Ha) as Va.
      pose proof (value_pos cb kb Hb) as Vb.
      set (vx := value cx kx) in *. set (va := value ca ka) in *.
      set (vb := value cb kb) in *. set (vy := value cy ky) in *.
      set (vz := value cz kz) in *.
      set (a2 := (u_div + u_mul + u_div * u_mul)%R) in *.
      assert (Ha2 : (0 <= a2)%R) by (unfold a2, u_div, u_mul; lra).
      assert (HX : (0 < vx * / va * vb)%R).
      { apply Rmult_lt_0_compat; [|assumption].
        apply Rmult_lt_0_compat; [assumption | now apply Rinv_0_lt_compat]. }
      assert (Hf : (0 < / vb * va)%R).
      { apply Rmult_lt_0_compat; [now apply Rinv_0_lt_compat | assumption]. }
      assert (Hback : (vx * / va * vb * (/ vb * va) = vx)%R) by (field; lra).
      replace (vy * / vb * va)%R with (vy * (/ vb * va))%R in Herr2 by ring.
      pose proof (close_compose (vx * / va * vb) vy vz (/ vb * va) a2 a2
                    (Rlt_le _ _ HX) Hf Ha2 Ha2 Herr1 Herr2) as Hc.
      rewrite Hback in Hc.
      eapply Rle_trans; [exact Hc|].
      apply Rmult_le_compat_r; [lra|].
      apply round_trip_bound_ok.
Qed.

Lemma round_trip_close_witness :
  exists y z,
    convertir (Fin false 100 0) "COP" "GBP" (initial_world NoFile)
      = (Ret y, initial_world NoFile)
    /\ convertir y "GBP" "COP" (initial_world NoFile)
      = (Ret z, initial_world NoFile)
    /\ (Rabs (D2R z - D2R (Fin false 100 0))
          <= round_trip_bound * D2R (Fin false 100 0))%R.
Proof.
  apply (round_trip_close (initial_world NoFile) "COP" "GBP"
           100 0 3940 0 78 (-2) eq_refl eq_refl);
    try lia;
    try (intros _); unfold in_range; vm_compute; split; discriminate.
Defined.

(** C8, as stated, fails below the exponent range of the context.  The
    amount [1E-1000026], which [leer_monto] accepts, converted from JPY
    to USD with the default rates underflows to zero, and comes back as
    zero: the round trip loses the whole amount, not a rounding error in
    the 28th digit. *)
Lemma round_trip_underflow :
  let w := initial_world NoFile in
  let x := Fin false 1 (-1000026) in
  leer_monto ["1E-1000026"] w = (Ret x, w)
  /\ exists y z,
       convertir x "JPY" "USD" w = (Ret y, w)
       /\ convertir y "USD" "JPY" w = (Ret z, w)
       /\ z = Fin false 0 (-1000026)
       /\ (0 < D2R x)%R
       /\ D2R z = 0%R
       /\ forall eps : R,
            (eps < 1)%R -> ~ (Rabs (D2R z - D2R x) <= eps * D2R x)%R.
Proof.
  cbv zeta. split; [vm_compute; reflexivity|].
  exists (Fin false 0 (-1000026)), (Fin false 0 (-1000026)).
  split; [vm_compute; reflexivity|]. split; [vm_compute; reflexivity|].
  split; [reflexivity|].
  assert (Hx : (0 < D2R (Fin false 1 (-1000026)))%R)
    by (cbn [D2R]; apply value_pos; lia).
  assert (Hz : D2R (Fin false 0 (-1000026)) = 0%R)
    by (cbn [D2R]; unfold value; apply Rmult_0_l).
  split; [exact Hx|]. split; [exact Hz|].
  intros eps Heps H. rewrite Hz, Rminus_0_l, Rabs_Ropp in H.
  rewrite Rabs_pos_eq in H by lra.
  assert ((eps * D2R (Fin false 1 (-1000026)) < 1 * D2R (Fin false 1 (-1000026)))%R)
    by (apply Rmult_lt_compat_r; assumption).
  lra.
Qed.

(** * Further properties *)

(** ** Reading back what [str] writes *)

Lemma digit_cases d :
  0 <= d < 10 ->
  d = 0 \/ d = 1 \/ d = 2 \/ d = 3 \/ d = 4 \/ d = 5 \/ d = 6 \/ d = 7
  \/ d = 8 \/ d = 9.
Proof. lia. Qed.

Ltac digit_enum H :=
  let a := fresh in
  destruct H as (a & H & ->);
  apply digit_cases in H;
  repeat (destruct H as [H|H]; [subst a|]); [..|subst a].

Lemma digit_is_digit a : digit_ascii a -> is_digit a = true.
Proof. intros H. digit_enum H; reflexivity. Qed.

Lemma digit_plain a : digit_ascii a -> plain a.
Proof. intros H. digit_enum H; split; reflexivity. Qed.

Lemma digit_val_char d : 0 <= d < 10 -> digit_val (digit_char d) = d.
Proof.
  intros H. apply digit_cases in H.
  repeat (destruct H as [H|H]; [subst d; reflexivity|]). subst d. reflexivity.
Qed.

Lemma digit_lower a : digit_ascii a -> lower a = a.
Proof. intros H. digit_enum H; reflexivity. Qed.

Lemma digits_of_digits c : 0 <= c -> Forall digit_ascii (digits_of c).
Proof.
  intros Hc. assert (H0 := Hc). revert Hc. pattern c.
  apply Z_lt_induction; [|assumption].
  clear c H0. intros c IH Hc.
  destruct (Z_lt_le_dec c 10) as [Hs|Hb].
  - rewrite digits_of_small by lia. constructor; [|constructor].
    exists c. split; [lia | reflexivity].
  - rewrite digits_of_step by assumption. apply Forall_app. split.
    + apply IH; [split|]; try (apply Z.div_pos; lia). apply Z.div_lt; lia.
    + constructor; [|constructor].
      exists (c mod 10). split; [apply Z.mod_pos_bound; lia | reflexivity].
Qed.

Lemma Z_of_digits_snoc l a :
  Z_of_digits (l ++ [a]) = 10 * Z_of_digits l + digit_val a.
Proof. unfold Z_of_digits. now rewrite fold_left_app. Qed.

Lemma Z_of_digits_of c : 0 <= c -> Z_of_digits (digits_of c) = c.
Proof.
  intros Hc. assert (H0 := Hc). revert Hc. pattern c.
  apply Z_lt_induction; [|assumption].
  clear c H0. intros c IH Hc.
  destruct (Z_lt_le_dec c 10) as [Hs|Hb].
  - rewrite digits_of_small by lia. unfold Z_of_digits. simpl.
    now rewrite digit_val_char by lia.
  - rewrite digits_of_step by assumption. rewrite Z_of_digits_snoc.
    rewrite IH; [| split; [apply Z.div_pos; lia | apply Z.div_lt; lia]
                 | apply Z.div_pos; lia].
    rewrite digit_val_char by (apply Z.mod_pos_bound; lia).
    pose proof (Z.div_mod c 10 ltac:(lia)). lia.
Qed.

Lemma digits_of_nonempty c : digits_of c <> [].
Proof.
  unfold digits_of. destruct (Z.to_nat (Z.log2 c)); simpl.
  - discriminate.
  - destruct (c <? 10); [discriminate|].
    rewrite digits_fuel_app. intros H. apply app_eq_nil in H.
    destruct H as [_ H]. discriminate.
Qed.

(** Leading zeros do not count. *)
Lemma Z_of_digits_zeros n l :
  Z_of_digits (zeros n ++ l) = Z_of_digits l.
Proof.
  unfold zeros, Z_of_digits. induction (Z.to_nat n) as [|k IH]; simpl; auto.
Qed.

Lemma zeros_digits n : Forall digit_ascii (zeros n).
Proof.
  unfold zeros. induction (Z.to_nat n); simpl; constructor; auto.
  exists 0. split; [lia | reflexivity].
Qed.

Lemma zeros_length n : 0 <= n -> Z.of_nat (List.length (zeros n)) = n.
Proof. intros H. unfold zeros. rewrite repeat_length. lia. Qed.

Lemma span_digits_app ds rest :
  Forall digit_ascii ds ->
  match rest with [] => True | a :: _ => is_digit a = false end ->
  span_digits (ds ++ rest) = (ds, rest).
Proof.
  intros Hd Hr. induction Hd as [|a ds Ha Hds IH]; simpl.
  - destruct rest as [|a rest]; [reflexivity|]. simpl. now rewrite Hr.
  - rewrite (digit_is_digit a Ha), IH. reflexivity.
Qed.

Lemma lstrip_plain l :
  match l with [] => True | a :: _ => is_space a = false end -> lstrip l = l.
Proof. destruct l as [|a l]; simpl; [auto|]. now intros ->. Qed.

Lemma strip_plain l : Forall plain l -> strip l = l.
Proof.
  intros H. unfold strip.
  rewrite (lstrip_plain l) by (destruct H as [|a l [Ha _] _]; auto).
  apply Forall_rev in H.
  rewrite (lstrip_plain (rev l)) by (destruct H as [|a l' [Ha _] _]; auto).
  apply rev_involutive.
Qed.

Lemma filter_plain l :
  Forall plain l -> filter (fun a => negb (is_underscore a)) l = l.
Proof.
  induction 1 as [|a l [_ Ha] _ IH]; simpl; [reflexivity|].
  now rewrite Ha, IH.
Qed.

(** The exponent part Python writes reads back as the exponent. *)
Lemma parse_exp_signed n :
  parse_exp ("E"%char :: signed_digits n) = Some n.
Proof.
  unfold parse_exp, signed_digits.
  change (Ascii.eqb (lower "E") "e") with true. cbv iota.
  pose proof (digits_of_digits (Z.abs n) (Z.abs_nonneg n)) as Hd.
  pose proof (digits_of_nonempty (Z.abs n)) as Hne.
  pose proof (Z_of_digits_of (Z.abs n) (Z.abs_nonneg n)) as Hz.
  destruct (n <? 0) eqn:Hn; cbn [take_sign].
  - rewrite <- (app_nil_r (digits_of (Z.abs n))) at 1.
    rewrite span_digits_app by auto.
    destruct (digits_of (Z.abs n)); [congruence|].
    rewrite Hz. apply Z.ltb_lt in Hn. f_equal. lia.
  - rewrite <- (app_nil_r (digits_of (Z.abs n))) at 1.
    rewrite span_digits_app by auto.
    destruct (digits_of (Z.abs n)); [congruence|].
    rewrite Hz. apply Z.ltb_ge in Hn. f_equal. lia.
Qed.

Lemma take_sign_digit a l :
  digit_ascii a -> take_sign (a :: l) = (false, a :: l).
Proof. intros H. digit_enum H; reflexivity. Qed.

Lemma signed_digits_plain n : Forall plain (signed_digits n).
Proof.
  unfold signed_digits. constructor.
  - destruct (n <? 0); split; reflexivity.
  - eapply Forall_impl; [apply digit_plain|].
    apply digits_of_digits, Z.abs_nonneg.
Qed.

Lemma of_string_number neg ip fp ex n :
  Forall digit_ascii ip -> ip <> [] -> Forall digit_ascii fp ->
  (ex = [] /\ n = 0) \/ ex = "E"%char :: signed_digits n ->
  of_string (string_of_list_ascii (number_chars neg ip fp ex)) =
    if holds_exactly (Z_of_digits (ip ++ fp)) (n - Z.of_nat (List.length fp))
    then Ret (Fin neg (Z_of_digits (ip ++ fp)) (n - Z.of_nat (List.length fp)))
    else Raise InvalidOperation.
Proof.
  intros Hip Hne Hfp Hex.
  assert (Hexp : parse_exp ex = Some n).
  { destruct Hex as [[-> ->]| ->]; [reflexivity | apply parse_exp_signed]. }
  assert (Hexhead : match ex with [] => True | a :: _ => is_digit a = false end).
  { destruct Hex as [[He _]| He].
    - rewrite He. exact I.
    - rewrite He. cbv iota. vm_compute. reflexivity. }
  assert (Hexplain : Forall plain ex).
  { destruct Hex as [[-> _]| ->]; [constructor|].
    constructor; [split; reflexivity | apply signed_digits_plain]. }
  assert (Hplain : Forall plain (number_chars neg ip fp ex)).
  { unfold number_chars.
    apply Forall_app; split; [|apply Forall_app; split; [|apply Forall_app; split]].
    - destruct neg; repeat constructor.
    - eapply Forall_impl; [apply digit_plain | assumption].
    - destruct fp; [constructor|].
      constructor; [split; reflexivity|].
      eapply Forall_impl; [apply digit_plain | assumption].
    - assumption. }
  unfold of_string.
  rewrite list_ascii_of_string_of_list_ascii, strip_plain, filter_plain
    by assumption.
  destruct ip as [|a ip]; [congruence|].
  assert (Hsign : take_sign (number_chars neg (a :: ip) fp ex) =
                  (neg, (a :: ip) ++ match fp with [] => [] | _ => "."%char :: fp end ++ ex)).
  { unfold number_chars. destruct neg; [reflexivity|].
    cbn [sign_str app]. apply take_sign_digit. now inversion Hip. }
  rewrite Hsign.
  unfold parse_finite.
  rewrite span_digits_app; [|assumption|].
  2:{ destruct fp; [cbn [app]; assumption | reflexivity]. }
  destruct fp as [|b fp].
  - destruct Hex as [[-> ->]| ->].
    + cbn [app]. cbv beta iota zeta. rewrite Hexp. reflexivity.
    + cbn [app]. cbv beta iota zeta. rewrite Hexp. reflexivity.
  - change (("."%char :: b :: fp) ++ ex) with ("."%char :: ((b :: fp) ++ ex)).
    cbv beta iota zeta. rewrite (span_digits_app (b :: fp) ex) by assumption.
    cbn [app]. cbv beta iota zeta. rewrite Hexp. reflexivity.
Qed.

Lemma dot_fraction (fp : list ascii) :
  fp <> [] ->
  match fp with [] => [] | _ => "."%char :: fp end = "."%char :: fp.
Proof. destruct fp; [congruence | reflexivity]. Qed.

Lemma Forall_firstn_of {A} (P : A -> Prop) n : forall l,
  Forall P l -> Forall P (firstn n l).
Proof.
  induction n as [|n IH]; intros l H; [constructor|].
  destruct H; simpl; constructor; auto.
Qed.

Lemma Forall_skipn_of {A} (P : A -> Prop) n : forall l,
  Forall P l -> Forall P (skipn n l).
Proof.
  induction n as [|n IH]; intros l H; [assumption|].
  destruct H; simpl; [constructor | auto].
Qed.

Lemma map_lower_digits l : Forall digit_ascii l -> map lower l = l.
Proof.
  induction 1 as [|a l Ha _ IH]; cbn [map]; [reflexivity|].
  now rewrite (digit_lower a Ha), IH.
Qed.

Lemma Z_of_digits_zero_head l : Z_of_digits ("0"%char :: l) = Z_of_digits l.
Proof. reflexivity. Qed.

(** What [str] writes for a finite decimal is a numeric string whose parts
    give back the coefficient and the exponent. *)
Lemma to_chars_finite neg c e :
  0 <= c ->
  exists ip fp ex n,
    to_chars (Fin neg c e) = number_chars neg ip fp ex
    /\ Forall digit_ascii ip /\ ip <> [] /\ Forall digit_ascii fp
    /\ ((ex = [] /\ n = 0) \/ ex = "E"%char :: signed_digits n)
    /\ Z_of_digits (ip ++ fp) = c
    /\ n - Z.of_nat (List.length fp) = e.
Proof.
  intros Hc.
  pose proof (digits_of_digits c Hc) as Hd.
  pose proof (digits_of_nonempty c) as Hne.
  pose proof (Z_of_digits_of c Hc) as Hz.
  pose proof (ndigits_pos c Hc) as Hlen.
  assert (Hl : ndigits c = Z.of_nat (List.length (digits_of c))) by reflexivity.
  unfold to_chars, number_chars.
  set (int := digits_of c) in *. set (len := ndigits c) in *.
  destruct ((e <=? 0) && (-6 <? e + len)) eqn:Hpos.
  - apply andb_true_iff in Hpos. destruct Hpos as [He Hleft].
    apply Z.leb_le in He. apply Z.ltb_lt in Hleft.
    rewrite Z.eqb_refl.
    destruct (e + len <=? 0) eqn:Hdot.
    + (* 0.000ddd *)
      apply Z.leb_le in Hdot.
      exists ["0"%char], (zeros (- (e + len)) ++ int), [], 0.
      assert (Hfp : zeros (- (e + len)) ++ int <> []).
      { intros H. apply app_eq_nil in H. tauto. }
      rewrite (dot_fraction _ Hfp).
      split; [reflexivity|].
      split; [constructor; [exists 0; split; [lia|reflexivity] | constructor]|].
      split; [discriminate|].
      split; [apply Forall_app; split; [apply zeros_digits | assumption]|].
      split; [left; auto|].
      split.
      * cbn [app]. now rewrite Z_of_digits_zero_head, Z_of_digits_zeros.
      * rewrite length_app, Nat2Z.inj_add, zeros_length by lia. lia.
    + apply Z.leb_gt in Hdot.
      destruct (len <=? e + len) eqn:Hint.
      * (* an integer: the exponent is 0 *)
        apply Z.leb_le in Hint. assert (e = 0) by lia. subst e.
        replace (0 + len - len) with 0 by lia.
        change (zeros 0) with (@nil ascii). rewrite app_nil_r.
        exists int, [], [], 0.
        split; [reflexivity|].
        split; [assumption|]. split; [assumption|]. split; [constructor|].
        split; [left; auto|].
        rewrite app_nil_r. split; [assumption | reflexivity].
      * (* ddd.ddd *)
        apply Z.leb_gt in Hint.
        exists (firstn (Z.to_nat (e + len)) int),
               (skipn (Z.to_nat (e + len)) int), [], 0.
        assert (Hsk : List.length (skipn (Z.to_nat (e + len)) int)
                      = (List.length int - Z.to_nat (e + len))%nat)
          by apply length_skipn.
        assert (Hfp : skipn (Z.to_nat (e + len)) int <> []).
        { intros H. rewrite H in Hsk. simpl in Hsk. lia. }
        rewrite (dot_fraction _ Hfp).
        split; [reflexivity|].
        split; [now apply Forall_firstn_of|].
        split.
        { intros H.
          assert (Hf : List.length (firstn (Z.to_nat (e + len)) int)
                       = Nat.min (Z.to_nat (e + len)) (List.length int))
            by apply length_firstn.
          rewrite H in Hf. simpl in Hf. lia. }
        split; [now apply Forall_skipn_of|].
        split; [left; auto|].
        rewrite firstn_skipn. split; [assumption|]. rewrite Hsk. lia.
  - (* scientific notation *)
    assert (Hsci : e + len <> 1).
    { intros H. apply andb_false_iff in Hpos.
      destruct Hpos as [Hp|Hp]; [apply Z.leb_gt in Hp | apply Z.ltb_ge in Hp]; lia. }
    replace (e + len =? 1) with false by (symmetry; now apply Z.eqb_neq).
    cbn [Z.leb Z.compare].
    destruct (len <=? 1) eqn:Hone.
    + apply Z.leb_le in Hone. assert (len = 1) by lia.
      replace (1 - len) with 0 by lia.
      change (zeros 0) with (@nil ascii). rewrite app_nil_r.
      exists int, [], ("E"%char :: signed_digits (e + len - 1)), (e + len - 1).
      split; [reflexivity|].
      split; [assumption|]. split; [assumption|]. split; [constructor|].
      split; [right; reflexivity|].
      rewrite app_nil_r. split; [assumption|]. simpl. lia.
    + apply Z.leb_gt in Hone.
      exists (firstn 1 int), (skipn 1 int),
             ("E"%char :: signed_digits (e + len - 1)), (e + len - 1).
      assert (Hsk : List.length (skipn 1 int) = (List.length int - 1)%nat)
        by apply length_skipn.
      assert (Hfp : skipn 1 int <> []).
      { intros H. rewrite H in Hsk. simpl in Hsk. lia. }
      rewrite (dot_fraction _ Hfp).
      split; [reflexivity|].
      split; [now apply Forall_firstn_of|].
      split; [destruct int; [congruence | discriminate]|].
      split; [now apply Forall_skipn_of|].
      split; [right; reflexivity|].
      rewrite firstn_skipn. split; [assumption|]. rewrite Hsk. lia.
Qed.

Lemma span_digits_all l : Forall digit_ascii l -> span_digits l = (l, []).
Proof.
  intros H. rewrite <- (app_nil_r l) at 1.
  apply span_digits_app; [assumption | reflexivity].
Qed.

Lemma parse_special_nan neg sg l :
  Forall digit_ascii l ->
  parse_special neg
    ((if sg : bool then ["s"%char] else []) ++ "N"%char :: "a"%char :: "N"%char :: l)
  = Some (NaN neg sg (Z_of_digits l)).
Proof.
  intros H. unfold parse_special.
  destruct sg; cbn [app map]; rewrite (map_lower_digits l H);
    change (lower "N") with "n"%char; change (lower "a") with "a"%char;
    change (lower "s") with "s"%char;
    cbn -[span_digits Z_of_digits]; rewrite (span_digits_all l H); reflexivity.
Qed.

(** [Decimal(str(d)) == d], digit for digit: the coefficient, the exponent
    and the sign come back as they were, and so do infinities and NaNs
    with their payload. *)
Lemma of_string_to_str d : constructible d -> of_string (to_str d) = Ret d.
Proof.
  destruct d as [neg c e|neg|neg sg p]; intros [Hwf Hfit].
  - rename Hwf into Hc. cbn [wf_decimal] in Hc.
    destruct (to_chars_finite neg c e Hc)
      as (ip & fp & ex & n & Hto & Hip & Hne & Hfp & Hex & Hz & He).
    unfold to_str. rewrite Hto.
    rewrite (of_string_number neg ip fp ex n Hip Hne Hfp Hex).
    now rewrite Hz, He, Hfit.
  - destruct neg; reflexivity.
  - cbn [wf_decimal] in Hwf.
    assert (Hpd : Forall digit_ascii (payload_digits p)).
    { unfold payload_digits. destruct (p =? 0); [constructor|].
      now apply digits_of_digits. }
    assert (Hpz : Z_of_digits (payload_digits p) = p).
    { unfold payload_digits. destruct (p =? 0) eqn:H0.
      - apply Z.eqb_eq in H0. now subst.
      - now apply Z_of_digits_of. }
    assert (Hplain : Forall plain (payload_digits p))
      by (eapply Forall_impl; [apply digit_plain | assumption]).
    pose proof (parse_special_nan neg sg _ Hpd) as Hsp.
    unfold of_string, to_str.
    rewrite list_ascii_of_string_of_list_ascii.
    destruct sg, neg; cbn [to_chars sign_str app list_ascii_of_string];
      cbn [app] in Hsp;
      (rewrite strip_plain, filter_plain
         by (repeat (constructor; [split; reflexivity|]); assumption));
      cbn [take_sign]; cbv beta iota zeta;
      rewrite Hsp, Hpz; reflexivity.
Qed.

(** X1.  [str] and [Decimal] are inverse on the way through the cache
    file: the string [actualizar_tasas_api] saves for a rate, read back
    by the [Decimal(str(value))] of [_apply_cached_rates], is that rate
    again, with the same sign, digits and exponent (an infinity and a
    NaN with its payload included). *)
Theorem decimal_str_reads_back (float_repr : bool -> Z -> Z -> string)
    (d : Decimal) :
  constructible d ->
  Decimal_of_str float_repr (JStr (to_str d)) = Ret d.
Proof.
  intros Hwf. unfold Decimal_of_str. cbn [py_str_scalar].
  now apply of_string_to_str.
Qed.

Lemma decimal_str_reads_back_witness :
  Decimal_of_str (fun _ _ _ => "0") (JStr (to_str (Fin false 1465 (-1))))
    = Ret (Fin false 1465 (-1)).
Proof.
  apply (decimal_str_reads_back (fun _ _ _ => "0") (Fin false 1465 (-1))).
  split; [cbn [wf_decimal]; lia | reflexivity].
Defined.

(** ** What a refresh saves is what the next start loads *)

Lemma dict_ext {V} (d1 : dict V) : forall d2,
  keys d1 = keys d2 -> NoDup (keys d1) ->
  (forall k, get d1 k = get d2 k) -> d1 = d2.
Proof.
  induction d1 as [|[k v] d1 IH]; intros [|[k' v'] d2] Hk Hnd Hg;
    try discriminate; [reflexivity|].
  cbn [keys map fst] in Hk. injection Hk as <- Hk.
  cbn [keys map fst] in Hnd. inversion Hnd as [|? ? Hnotin Hnd']; subst.
  assert (v = v').
  { specialize (Hg k). cbn [get] in Hg. rewrite String.eqb_refl in Hg.
    congruence. }
  subst v'. f_equal. apply IH; [assumption | assumption |].
  intros k0. specialize (Hg k0). cbn [get] in Hg.
  destruct (String.eqb k0 k) eqn:He; [|assumption].
  apply String.eqb_eq in He. subst k0.
  assert (H1 : get d1 k = None).
  { destruct (get d1 k) eqn:H; [|reflexivity]. exfalso. apply Hnotin.
    apply (proj1 (mem_keys d1 k)). unfold mem. now rewrite H. }
  assert (H2 : get d2 k = None).
  { destruct (get d2 k) eqn:H; [|reflexivity]. exfalso. apply Hnotin.
    rewrite Hk. apply (proj1 (mem_keys d2 k)). unfold mem. now rewrite H. }
  congruence.
Qed.

Section Restore.

Variable float_repr : bool -> Z -> Z -> string.

Lemma entry_rate_saved code r :
  in_SUPPORTED code = true -> constructible r ->
  entry_rate float_repr code (JStr (to_str r)) = Some r.
Proof.
  intros Hs Hwf. unfold entry_rate. rewrite Hs.
  unfold Decimal_of_str. cbn [py_str_scalar].
  now rewrite of_string_to_str.
Qed.

Lemma applied_count_saved rates :
  (forall code, In code (keys rates) -> in_SUPPORTED code = true) ->
  (forall code r, In (code, r) rates -> constructible r) ->
  applied_count float_repr (rates_snapshot rates) = Z.of_nat (List.length rates).
Proof.
  induction rates as [|[k v] rates IH]; intros Hs Hwf; [reflexivity|].
  cbn [rates_snapshot map fst snd applied_count].
  rewrite entry_rate_saved.
  - fold (rates_snapshot rates). rewrite IH.
    + cbn [List.length]. lia.
    + intros c Hc. apply Hs. right. exact Hc.
    + intros c r Hc. apply (Hwf c). right. exact Hc.
  - apply Hs. left. reflexivity.
  - apply (Hwf k). left. reflexivity.
Qed.

Lemma get_In {V} (d : dict V) k v : get d k = Some v -> In (k, v) d.
Proof.
  induction d as [|[k' v'] d IH]; cbn [get]; [discriminate|].
  destruct (String.eqb k k') eqn:He.
  - apply String.eqb_eq in He. intros H. injection H as ->. subst. now left.
  - intros H. right. auto.
Qed.

Lemma SUPPORTED_NoDup : NoDup SUPPORTED.
Proof.
  unfold SUPPORTED.
  repeat (constructor; [cbn [In]; intros H; repeat (destruct H as [H|H]; [discriminate H|]); exact H|]).
  constructor.
Qed.

Lemma applied_rates_saved saved rates :
  keys rates = SUPPORTED -> keys saved = SUPPORTED ->
  (forall code r, In (code, r) saved -> constructible r) ->
  applied_rates float_repr (rates_snapshot saved) rates = saved.
Proof.
  intros Hk Hks Hwf. apply dict_ext.
  - rewrite applied_rates_keys by assumption. now rewrite Hks.
  - rewrite applied_rates_keys by assumption. apply SUPPORTED_NoDup.
  - intros k. destruct (in_SUPPORTED k) eqn:Hs.
    + assert (Hin : In k (keys saved)) by (rewrite Hks; now apply in_SUPPORTED_In).
      apply mem_keys in Hin. unfold mem in Hin.
      destruct (get saved k) as [r|] eqn:Hg; [|discriminate].
      rewrite (applied_rates_entry float_repr (rates_snapshot saved) rates k
                 (JStr (to_str r))).
      * rewrite entry_rate_saved; [reflexivity | assumption |].
        apply (Hwf k). now apply get_In.
      * change (map fst (rates_snapshot saved)) with (keys (rates_snapshot saved)).
        rewrite rates_snapshot_keys, Hks. apply SUPPORTED_NoDup.
      * apply get_In. rewrite rates_snapshot_get, Hg. reflexivity.
    + assert (Hn : ~ In k SUPPORTED).
      { intros H. apply in_SUPPORTED_In in H. congruence. }
      rewrite applied_rates_other.
      * assert (H1 : get rates k = None).
        { destruct (get rates k) eqn:H; [|reflexivity]. exfalso. apply Hn.
          rewrite <- Hk. apply mem_keys. unfold mem. now rewrite H. }
        assert (H2 : get saved k = None).
        { destruct (get saved k) eqn:H; [|reflexivity]. exfalso. apply Hn.
          rewrite <- Hks. apply mem_keys. unfold mem. now rewrite H. }
        congruence.
      * change (map fst (rates_snapshot saved)) with (keys (rates_snapshot saved)).
        now rewrite rates_snapshot_keys, Hks.
Qed.

End Restore.

(** X2.  The record a successful refresh writes restores the table it was
    taken from: at the next start, whatever the table holds then,
    [_apply_cached_rates] applies all eleven entries and leaves [RATES]
    equal to the saved table, rate for rate ([Decimal(str(r))] is [r]). *)
Theorem saved_rates_restore (E : environment)
    (float_repr : bool -> Z -> Z -> string)
    (count : Z) (saved : dict Decimal) (w : world) :
  keys_ok w ->
  keys saved = SUPPORTED ->
  (forall code r, In (code, r) saved -> constructible r) ->
  cache w = Content (new_record E count saved) ->
  _apply_cached_rates float_repr w =
    (Ret (Some 11), mkWorld saved (cache w) (stdout w) (requests w)).
Proof.
  intros Hk Hks Hwf Hc.
  rewrite (apply_cached_rates_run float_repr w _ (rates_snapshot saved) Hc eq_refl).
  rewrite applied_rates_saved by assumption.
  rewrite applied_count_saved.
  - assert (Hl : List.length saved = List.length SUPPORTED).
    { rewrite <- Hks. unfold keys. now rewrite length_map. }
    rewrite Hl. reflexivity.
  - intros code Hin. apply in_SUPPORTED_In. now rewrite <- Hks.
  - assumption.
Qed.

Lemma saved_rates_restore_witness :
  _apply_cached_rates (fun _ _ _ => "0")
    (mkWorld (set initial_RATES "EUR" (Fin false 5 0))
             (Content (new_record env_example 1 initial_RATES)) [] []) =
  (Ret (Some 11),
   mkWorld initial_RATES
           (Content (new_record env_example 1 initial_RATES)) [] []).
Proof.
  apply (saved_rates_restore env_example (fun _ _ _ => "0") 1 initial_RATES
           (mkWorld (set initial_RATES "EUR" (Fin false 5 0))
                    (Content (new_record env_example 1 initial_RATES)) [] [])).
  - reflexivity.
  - reflexivity.
  - intros code r Hin. cbn [initial_RATES In] in Hin.
    repeat (destruct Hin as [Hin|Hin];
            [injection Hin as <- <-;
             split; [cbn [wf_decimal]; lia | reflexivity]|]).
    destruct Hin.
  - reflexivity.
Defined.

(** ** Reading an amount *)

Lemma of_string_raises s e : of_string s = Raise e -> e = InvalidOperation.
Proof.
  unfold of_string.
  destruct (take_sign _) as [neg body].
  destruct (parse_finite neg body) as [[sign c k|sign|sign sg p]|];
    try discriminate.
  - destruct (holds_exactly c k); congruence.
  - destruct (parse_special neg body); [discriminate|]. congruence.
Qed.

Lemma lt_zero_raises d e : lt_zero d = Raise e -> e = InvalidOperation.
Proof. destruct d; cbn [lt_zero]; congruence. Qed.

Lemma le_zero_raises d e : le_zero d = Raise e -> e = InvalidOperation.
Proof. destruct d; cbn [le_zero]; congruence. Qed.

(** One turn of the loop of [leer_monto]. *)
Lemma leer_monto_turn line rest w :
  leer_monto (line :: rest) w =
    match of_string (typed line) with
    | Ret val =>
        match lt_zero val with
        | Ret true => leer_monto rest (printed w MsgNegativeAmount)
        | Ret false => (Ret val, w)
        | Raise _ => leer_monto rest (printed w MsgInvalidAmount)
        end
    | Raise _ => leer_monto rest (printed w MsgInvalidAmount)
    end.
Proof.
  cbn [leer_monto]. fold (typed line).
  unfold bind, try_except, lift, print, ret, printed.
  destruct (of_string (typed line)) as [val|e] eqn:Hval.
  - destruct (lt_zero val) as [[|]|e] eqn:Hlt; try reflexivity.
    now rewrite (lt_zero_raises _ _ Hlt).
  - now rewrite (of_string_raises _ _ Hval).
Qed.

(** A line [leer_monto] takes ends the loop; a line it turns away costs
    its retry message and the loop goes on. *)
Lemma amount_read_some line val :
  amount_read line = Some val <->
  of_string (typed line) = Ret val /\ lt_zero val = Ret false.
Proof.
  unfold amount_read. destruct (of_string (typed line)) as [v|e].
  - destruct (lt_zero v) as [[|]|e] eqn:Hlt; split;
      try discriminate; try (intros [H1 H2]; congruence).
    intros H. injection H as <-. auto.
  - split; [discriminate | intros [H _]; discriminate].
Qed.

Lemma leer_monto_taken line rest w val :
  amount_read line = Some val -> leer_monto (line :: rest) w = (Ret val, w).
Proof.
  intros H. apply amount_read_some in H. destruct H as [Hv Hlt].
  now rewrite leer_monto_turn, Hv, Hlt.
Qed.

Lemma leer_monto_turned line rest w :
  amount_read line = None ->
  leer_monto (line :: rest) w =
    leer_monto rest (printed w (amount_retry line)).
Proof.
  rewrite leer_monto_turn. unfold amount_read, amount_retry.
  destruct (of_string (typed line)) as [v|e]; [|reflexivity].
  destruct (lt_zero v) as [[|]|e]; try reflexivity. discriminate.
Qed.

(** X3.  [leer_monto] goes through the lines in order.  It returns at
    the first line whose [Decimal] is a value [val] with [val < 0] false
    (so no negative number and no NaN), returns that [val] and reads no
    further; for each line before it, it prints one retry message, in
    order: the one for a negative amount when the line is a negative
    number, the other one when the line is no number or a NaN.  When it
    runs out of lines, every line was turned away and the EOFError of
    [input] is let out.  The table, the cache file and the requests are
    never touched. *)
Theorem leer_monto_result (lines : list string) : forall w,
  (exists turned line rest val,
      lines = turned ++ line :: rest
      /\ Forall (fun l => amount_read l = None) turned
      /\ of_string (typed line) = Ret val
      /\ lt_zero val = Ret false
      /\ leer_monto lines w =
           (Ret val,
            mkWorld (RATES w) (cache w)
                    (stdout w ++ map amount_retry turned) (requests w)))
  \/ (Forall (fun l => amount_read l = None) lines
      /\ leer_monto lines w =
           (Raise EOFError,
            mkWorld (RATES w) (cache w)
                    (stdout w ++ map amount_retry lines) (requests w))).
Proof.
  induction lines as [|line rest IH]; intros w.
  - right. split; [constructor|].
    cbn [map]. rewrite app_nil_r. destruct w; reflexivity.
  - destruct (amount_read line) as [val|] eqn:Hread.
    + left. exists [], line, rest, val.
      apply amount_read_some in Hread as Hfacts. destruct Hfacts as [Hv Hlt].
      split; [reflexivity|]. split; [constructor|].
      split; [assumption|]. split; [assumption|].
      rewrite (leer_monto_taken line rest w val Hread).
      cbn [map]. rewrite app_nil_r. destruct w; reflexivity.
    + rewrite (leer_monto_turned line rest w Hread).
      destruct (IH (printed w (amount_retry line)))
        as [(turned & line' & rest' & val & Hl & Hturned & Hv & Hlt & Hrun)
           |[Hturned Hrun]];
        cbn [printed RATES cache stdout requests] in Hrun;
        rewrite <- app_assoc in Hrun.
      * left. exists (line :: turned), line', rest', val.
        split; [now rewrite Hl|]. split; [now constructor|].
        split; [assumption|]. split; [assumption|]. exact Hrun.
      * right. split; [now constructor | exact Hrun].
Qed.

Lemma map_replace_commas_digits l :
  Forall digit_ascii l -> replace_commas l = l.
Proof.
  unfold replace_commas.
  induction 1 as [|a l Ha _ IH]; cbn [map]; [reflexivity|].
  rewrite IH. f_equal. digit_enum Ha; reflexivity.
Qed.

Lemma Z_of_digits_bound l :
  Forall digit_ascii l ->
  0 <= Z_of_digits l < 10 ^ Z.of_nat (List.length l).
Proof.
  induction l as [|a l IH] using rev_ind; intros H.
  - cbn. lia.
  - apply Forall_app in H. destruct H as [Hl Ha].
    inversion Ha as [|? ? Hd _]; subst.
    rewrite Z_of_digits_snoc, length_app, Nat2Z.inj_add.
    cbn [List.length]. change (Z.of_nat 1) with 1.
    rewrite Z.pow_add_r by lia. change (10 ^ 1) with 10.
    specialize (IH Hl).
    destruct Hd as (d & Hd & ->). rewrite digit_val_char by assumption.
    lia.
Qed.

(** A number written with fewer than [10^18] digits, all told, and no
    exponent is one the constructor holds exactly. *)
Lemma holds_exactly_plain ip fp :
  Forall digit_ascii ip -> ip <> [] -> Forall digit_ascii fp ->
  Z.of_nat (List.length (ip ++ fp)) < 10 ^ 18 ->
  holds_exactly (Z_of_digits (ip ++ fp)) (0 - Z.of_nat (List.length fp)) = true.
Proof.
  intros Hip Hne Hfp Hlen.
  assert (Hall : Forall digit_ascii (ip ++ fp)) by (apply Forall_app; auto).
  pose proof (Z_of_digits_bound _ Hall) as Hb.
  assert (Hpos : 0 < Z.of_nat (List.length (ip ++ fp))).
  { rewrite length_app. destruct ip; [congruence|]. cbn [List.length]. lia. }
  pose proof (ndigits_le _ _ Hb Hpos) as Hn.
  rewrite length_app, Nat2Z.inj_add in *.
  change (10 ^ 18) with 1000000000000000000 in Hlen.
  unfold holds_exactly, MAX_EMAX, MIN_ETINY.
  apply andb_true_iff. split; apply Z.leb_le; lia.
Qed.

(** X4.  A decimal comma is read as a decimal point: the line made of the
    digits [ip], a comma and the digits [fp] (fewer than [10^18] digits
    in all, the most [Decimal] takes) is accepted at once as the amount
    with these digits and [len(fp)] decimal places, and nothing is
    printed. *)
Theorem leer_monto_decimal_comma (ip fp : list ascii) (rest : list string)
    (w : world) :
  Forall digit_ascii ip -> ip <> [] -> Forall digit_ascii fp -> fp <> [] ->
  Z.of_nat (List.length (ip ++ fp)) < 10 ^ 18 ->
  leer_monto (string_of_list_ascii (ip ++ ","%char :: fp) :: rest) w =
    (Ret (Fin false (Z_of_digits (ip ++ fp)) (- Z.of_nat (List.length fp))), w).
Proof.
  intros Hip Hne Hfp Hnf Hlen.
  assert (Hplain : Forall plain (ip ++ ","%char :: fp)).
  { apply Forall_app. split.
    - eapply Forall_impl; [apply digit_plain | assumption].
    - constructor; [split; reflexivity|].
      eapply Forall_impl; [apply digit_plain | assumption]. }
  rewrite leer_monto_turn. unfold typed.
  rewrite list_ascii_of_string_of_list_ascii, (strip_plain _ Hplain).
  assert (Hrep : replace_commas (ip ++ ","%char :: fp) = ip ++ "."%char :: fp).
  { unfold replace_commas. rewrite map_app. cbn [map].
    fold (replace_commas ip). fold (replace_commas fp).
    now rewrite !map_replace_commas_digits. }
  rewrite Hrep.
  pose proof (of_string_number false ip fp [] 0 Hip Hne Hfp
                (or_introl (conj eq_refl eq_refl))) as Hparse.
  unfold number_chars in Hparse. rewrite (dot_fraction fp Hnf) in Hparse.
  cbn [sign_str app] in Hparse. rewrite app_nil_r in Hparse.
  rewrite (holds_exactly_plain ip fp Hip Hne Hfp Hlen) in Hparse.
  rewrite Hparse. cbn [lt_zero]. rewrite andb_false_r. reflexivity.
Qed.

Lemma leer_monto_decimal_comma_witness :
  leer_monto ["1234,56"] (initial_world NoFile) =
    (Ret (Fin false 123456 (-2)), initial_world NoFile).
Proof.
  apply (leer_monto_decimal_comma
           (list_ascii_of_string "1234") (list_ascii_of_string "56") []
           (initial_world NoFile)).
  - repeat constructor;
      first [ now (exists 1) | now (exists 2) | now (exists 3) | now (exists 4) ].
  - discriminate.
  - repeat constructor; first [ now (exists 5) | now (exists 6) ].
  - discriminate.
  - reflexivity.
Defined.

(** ** The manual update *)

(** One turn of the loop of [actualizar_tasa]. *)
Lemma actualizar_tasa_turn code line rest w :
  actualizar_tasa_loop code (line :: rest) w =
    match of_string (typed line) with
    | Ret val =>
        match le_zero val with
        | Ret true => actualizar_tasa_loop code rest (printed w MsgRateMustBePositive)
        | Ret false =>
            (Ret tt,
             mkWorld (set (RATES w) code val) (cache w)
                     (stdout w ++ [MsgRateSet val code]) (requests w))
        | Raise _ => actualizar_tasa_loop code rest (printed w MsgInvalidValue)
        end
    | Raise _ => actualizar_tasa_loop code rest (printed w MsgInvalidValue)
    end.
Proof.
  cbn [actualizar_tasa_loop]. fold (typed line).
  unfold bind, try_except, lift, assign_RATES, print, ret, printed.
  destruct (of_string (typed line)) as [val|e] eqn:Hval.
  - destruct (le_zero val) as [[|]|e] eqn:Hle; try reflexivity.
    now rewrite (le_zero_raises _ _ Hle).
  - now rewrite (of_string_raises _ _ Hval).
Qed.

Lemma rate_read_some line val :
  rate_read line = Some val <->
  of_string (typed line) = Ret val /\ le_zero val = Ret false.
Proof.
  unfold rate_read. destruct (of_string (typed line)) as [v|e].
  - destruct (le_zero v) as [[|]|e] eqn:Hle; split;
      try discriminate; try (intros [H1 H2]; congruence).
    intros H. injection H as <-. auto.
  - split; [discriminate | intros [H _]; discriminate].
Qed.

Lemma actualizar_tasa_taken code line rest w val :
  rate_read line = Some val ->
  actualizar_tasa_loop code (line :: rest) w =
    (Ret tt,
     mkWorld (set (RATES w) code val) (cache w)
             (stdout w ++ [MsgRateSet val code]) (requests w)).
Proof.
  intros H. apply rate_read_some in H. destruct H as [Hv Hle].
  now rewrite actualizar_tasa_turn, Hv, Hle.
Qed.

Lemma actualizar_tasa_turned code line rest w :
  rate_read line = None ->
  actualizar_tasa_loop code (line :: rest) w =
    actualizar_tasa_loop code rest (printed w (rate_retry line)).
Proof.
  rewrite actualizar_tasa_turn. unfold rate_read, rate_retry.
  destruct (of_string (typed line)) as [v|e]; [|reflexivity].
  destruct (le_zero v) as [[|]|e]; try reflexivity. discriminate.
Qed.

(** X5.  The rate loop of the manual update goes through the lines in
    order.  At the first line whose [Decimal] is a value [val] with
    [val <= 0] false it stores that [val] as the rate of the chosen code,
    prints the confirmation and returns, reading no further; for each
    line before it, it prints one retry message, in order: the one for a
    rate that is not positive when the line is a number [<= 0], the other
    one when the line is no number or a NaN.  Nothing else changes: the
    other rates, the cache file and the requests stay as they were, and
    when the lines run out first (EOFError) the table is untouched. *)
Theorem manual_update_effect (code : string) (lines : list string) : forall w,
  (exists turned line rest val,
      lines = turned ++ line :: rest
      /\ Forall (fun l => rate_read l = None) turned
      /\ of_string (typed line) = Ret val
      /\ positive val
      /\ actualizar_tasa_loop code lines w =
           (Ret tt,
            mkWorld (set (RATES w) code val) (cache w)
                    (stdout w ++ map rate_retry turned
                              ++ [MsgRateSet val code])
                    (requests w)))
  \/ (Forall (fun l => rate_read l = None) lines
      /\ actualizar_tasa_loop code lines w =
           (Raise EOFError,
            mkWorld (RATES w) (cache w)
                    (stdout w ++ map rate_retry lines) (requests w))).
Proof.
  induction lines as [|line rest IH]; intros w.
  - right. split; [constructor|].
    cbn [map]. rewrite app_nil_r. destruct w; reflexivity.
  - destruct (rate_read line) as [val|] eqn:Hread.
    + left. exists [], line, rest, val.
      apply rate_read_some in Hread as Hfacts. destruct Hfacts as [Hv Hle].
      split; [reflexivity|]. split; [constructor|].
      split; [assumption|]. split; [exact Hle|].
      rewrite (actualizar_tasa_taken code line rest w val Hread).
      reflexivity.
    + rewrite (actualizar_tasa_turned code line rest w Hread).
      destruct (IH (printed w (rate_retry line)))
        as [(turned & line' & rest' & val & Hl & Hturned & Hv & Hpos & Hrun)
           |[Hturned Hrun]];
        cbn [printed RATES cache stdout requests] in Hrun;
        rewrite <- app_assoc in Hrun.
      * left. exists (line :: turned), line', rest', val.
        split; [now rewrite Hl|]. split; [now constructor|].
        split; [assumption|]. split; [assumption|]. exact Hrun.
      * right. split; [now constructor | exact Hrun].
Qed.

(** ** Start-up *)

(** [_apply_cached_rates] by the state of the file. *)
Lemma apply_cached_rates_eq float_repr w :
  _apply_cached_rates float_repr w =
    match cache w with
    | Content j =>
        if truthy float_truthy j then
          match j with
          | JDict d =>
              match get d "rates" with
              | Some (JDict items) =>
                  (Ret (Some (applied_count float_repr items)),
                   mkWorld (applied_rates float_repr items (RATES w))
                           (cache w) (stdout w) (requests w))
              | _ => (Ret None, w)
              end
          | _ => (Raise AttributeError, w)
          end
        else (Ret None, w)
    | _ => (Ret None, w)
    end.
Proof.
  destruct (cache w) as [| |j] eqn:Hc.
  - unfold _apply_cached_rates, bind, _load_cache. now rewrite Hc.
  - unfold _apply_cached_rates, bind, _load_cache. now rewrite Hc.
  - destruct (truthy float_truthy j) eqn:Ht.
    + destruct j as [| | | | | |d];
        try (unfold _apply_cached_rates, bind, _load_cache;
             rewrite Hc, Ht; reflexivity).
      destruct (get d "rates") as [r|] eqn:Hr.
      * destruct r as [| | | | | |items];
          try (unfold _apply_cached_rates, bind, _load_cache;
               rewrite Hc, Ht; cbn [negb lift py_get]; rewrite Hr; reflexivity).
        rewrite (apply_cached_rates_run float_repr w d items Hc Hr).
        now rewrite Hc.
      * unfold _apply_cached_rates, bind, _load_cache.
        rewrite Hc, Ht. cbn [negb lift py_get]. rewrite Hr. reflexivity.
    + unfold _apply_cached_rates, bind, _load_cache. now rewrite Hc, Ht.
Qed.

Lemma apply_cached_rates_cases float_repr w :
  (foreign_cache (cache w)
   /\ _apply_cached_rates float_repr w = (Raise AttributeError, w))
  \/ (~ foreign_cache (cache w)
      /\ exists r rates,
           _apply_cached_rates float_repr w =
             (Ret r, mkWorld rates (cache w) (stdout w) (requests w))).
Proof.
  rewrite apply_cached_rates_eq.
  assert (Hw : (Ret None, w) =
               (@Ret (option Z) None,
                mkWorld (RATES w) (cache w) (stdout w) (requests w)))
    by (destruct w; reflexivity).
  unfold foreign_cache.
  destruct (cache w) as [| |j].
  - right. split; [intros (j & Hj & _); discriminate|]. eauto.
  - right. split; [intros (j & Hj & _); discriminate|]. eauto.
  - destruct (truthy float_truthy j) eqn:Ht.
    + destruct j as [| | | | | |d];
        try (left; split;
             [eexists; split; [reflexivity|]; split; [exact Ht|];
              intros d' Hd; discriminate
             | reflexivity]).
      right. split.
      { intros (j & Hj & _ & Hn). injection Hj as Hj. subst j.
        now apply (Hn d). }
      destruct (get d "rates") as [[| | | | | |items]|]; eauto.
    + right. split.
      { intros (j' & Hj & Ht' & _). injection Hj as Hj. subst j'.
        congruence. }
      eauto.
Qed.

(** X6.  Applying the cache touches the table only: the cache file, the
    output and the requests are as before on every path.  It raises in
    one case only, when the file holds a value that is true and no
    dictionary (a list, a number, a string); the exception is the
    AttributeError of [cache.get] and the table is then untouched. *)
Theorem apply_cached_rates_effect (float_repr : bool -> Z -> Z -> string)
    (w : world) :
  cache (snd (_apply_cached_rates float_repr w)) = cache w
  /\ stdout (snd (_apply_cached_rates float_repr w)) = stdout w
  /\ requests (snd (_apply_cached_rates float_repr w)) = requests w
  /\ (raises (fst (_apply_cached_rates float_repr w)) = true
      <-> foreign_cache (cache w))
  /\ (foreign_cache (cache w) ->
      _apply_cached_rates float_repr w = (Raise AttributeError, w)).
Proof.
  destruct (apply_cached_rates_cases float_repr w)
    as [[Hf Hrun]|[Hf (r & rates & Hrun)]]; rewrite Hrun; cbn [fst snd raises].
  - repeat split; auto.
  - cbn [cache stdout requests]. repeat split; auto; try discriminate.
    intros H. contradiction.
Qed.

(** [actualizar_tasas_api] path by path. *)
Lemma refresh_eq E max w :
  actualizar_tasas_api E max w =
    match quota_exhausted (record_of (cache w)) (today_iso E) max with
    | Raise e => (Raise e, w)
    | Ret true => (Ret false, printed w MsgQuotaReached)
    | Ret false =>
        match _fetch_rates_from_api E "USD" w with
        | (Raise e, w1) =>
            (Ret false,
             printed w1 (if is_URLError e then MsgNoConnection e
                         else MsgFetchError e))
        | (Ret all_rates, w1) =>
            let rates := fetched_rates SUPPORTED all_rates (RATES w1) in
            match next_count (record_of (cache w)) (today_iso E) with
            | Raise e =>
                (Raise e, mkWorld rates (cache w1) (stdout w1) (requests w1))
            | Ret n =>
                (Ret true,
                 mkWorld rates
                         (saved_file E (cache w1) (new_record E n rates))
                         (stdout w1
                            ++ [MsgUpdated (fetched_count SUPPORTED all_rates);
                                MsgRemaining (Z.max 0 (max - n))])
                         (requests w1))
            end
        end
    end.
Proof.
  unfold actualizar_tasas_api, bind at 1. rewrite load_record_run.
  unfold bind at 1. unfold _today_str, ret at 1.
  unfold bind at 1. unfold lift at 1.
  destruct (quota_exhausted (record_of (cache w)) (today_iso E) max)
    as [[|]|e]; [reflexivity| |reflexivity].
  unfold bind at 1. unfold try_except, bind at 1.
  destruct (_fetch_rates_from_api E "USD" w) as [[all_rates|e] w1].
  - unfold ret at 1. unfold bind at 1. rewrite apply_fetched_run.
    unfold bind at 1. unfold lift at 1.
    destruct (next_count (record_of (cache w)) (today_iso E)) as [n|e];
      [|reflexivity].
    unfold bind, read_RATES, _save_cache, print, ret, saved_file, new_record.
    cbn -[fetched_rates fetched_count SUPPORTED Z.max Z.sub rates_snapshot].
    rewrite <- app_assoc. reflexivity.
  - destruct (is_URLError e); reflexivity.
Qed.

Lemma float_int_below f n :
  float_int f = Ret n -> n <= 1 -> float_ge f 2 = false.
Proof.
  destruct f as [|neg|neg m e]; cbn [float_int float_ge]; try discriminate.
  destruct (0 <=? e) eqn:He.
  - intros H Hn. injection H as <-. apply Z.leb_gt. lia.
  - intros H Hn. injection H as <-. apply Z.leb_gt. apply Z.leb_gt in He.
    assert (Hk : 0 < 2 ^ (- e)) by (apply Z.pow_pos_nonneg; lia).
    set (k := 2 ^ (- e)) in *.
    destruct neg; cbn [float_signed] in *.
    + destruct (Z_lt_le_dec (- m) (2 * k)) as [Hlt|Hge]; [exact Hlt|].
      exfalso.
      assert (m / k <= (- 2 * k) / k) by (apply Z.div_le_mono; lia).
      rewrite Z.div_mul in H by lia. lia.
    + destruct (Z_lt_le_dec m (2 * k)) as [Hlt|Hge]; [exact Hlt|].
      exfalso.
      assert ((2 * k) / k <= m / k) by (apply Z.div_le_mono; lia).
      rewrite Z.div_mul in H by lia. lia.
Qed.

(** When the start-up block finds fetches left, the quota check of the
    refresh it calls does not stop it: [int(fetch_count) <= 1] excludes
    [fetch_count >= 2]. *)
Lemma remaining_not_exhausted record today r :
  remaining_today record today = Ret r -> 0 < r ->
  quota_exhausted record today 2 <> Ret true.
Proof.
  unfold remaining_today, quota_exhausted.
  destruct (py_get record "day") as [day|e]; cbn [obind]; [|discriminate].
  destruct (eq_str day today); [|discriminate].
  destruct (py_get_default record "fetch_count" (JInt 0)) as [fc|e];
    cbn [obind]; [|discriminate].
  destruct (py_int fc) as [n|e] eqn:Hint; cbn [obind]; [|discriminate].
  intros Hr Hpos.
  assert (Hr' : Z.max 0 (2 - n) = r) by congruence.
  assert (Hn : n <= 1) by lia.
  destruct fc as [|b|a|f|s|l|d]; cbn [py_int py_ge] in *; try discriminate.
  - injection Hint as <-. intros H. injection H as H.
    apply Z.leb_le in H. lia.
  - injection Hint as <-. intros H. injection H as H.
    apply Z.leb_le in H. lia.
  - rewrite (float_int_below f n Hint Hn). discriminate.
Qed.

(** The start-up block by what its first step does. *)
Lemma startup_eq E E' float_repr w :
  startup E E' float_repr w =
    match _apply_cached_rates float_repr w with
    | (Raise e, w1) => (Raise e, w1)
    | (Ret _, w1) =>
        (Ret tt,
         match remaining_today (record_of (cache w1)) (today_iso E) with
         | Ret r =>
             if 0 <? r
             then snd (actualizar_tasas_api E' 2 (printed w1 MsgTryingAutoUpdate))
             else w1
         | Raise _ => w1
         end)
    end.
Proof.
  unfold startup, bind at 1.
  destruct (_apply_cached_rates float_repr w) as [[r|e] w1]; [|reflexivity].
  unfold try_except, bind at 1. rewrite load_record_run.
  unfold bind at 1. unfold _today_str, ret at 1.
  unfold bind at 1. unfold lift at 1.
  destruct (remaining_today (record_of (cache w1)) (today_iso E)) as [n|e];
    [|reflexivity].
  destruct (0 <? n); [|reflexivity].
  unfold bind, print, ret, printed.
  destruct (actualizar_tasas_api E' 2 _) as [[b|e] w2]; reflexivity.
Qed.

(** X7.  The start-up block lets an exception out in one case only: the
    cache file holds a value that is true and no dictionary, and the
    AttributeError of [_apply_cached_rates], which runs outside the
    [try], stops the program before anything else happens.  In every
    other case it completes, whatever the network, the disk, the clock
    and the record do. *)
Theorem startup_outcome (E E' : environment)
    (float_repr : bool -> Z -> Z -> string) (w : world) :
  (foreign_cache (cache w)
   /\ startup E E' float_repr w = (Raise AttributeError, w))
  \/ (~ foreign_cache (cache w)
      /\ fst (startup E E' float_repr w) = Ret tt).
Proof.
  rewrite startup_eq.
  destruct (apply_cached_rates_cases float_repr w)
    as [[Hf Hrun]|[Hf (r & rates & Hrun)]]; rewrite Hrun.
  - left. auto.
  - right. auto.
Qed.

Lemma refresh_output E max w :
  exists msgs,
    stdout (snd (actualizar_tasas_api E max w)) = stdout w ++ msgs
    /\ (In MsgQuotaReached msgs ->
        quota_exhausted (record_of (cache w)) (today_iso E) max = Ret true)
    /\ (requests (snd (actualizar_tasas_api E max w)) = requests w
        \/ requests (snd (actualizar_tasas_api E max w))
             = requests w ++ [api_url]).
Proof.
  rewrite refresh_eq.
  destruct (quota_exhausted (record_of (cache w)) (today_iso E) max)
    as [[|]|e].
  - exists [MsgQuotaReached]. cbn [snd printed stdout requests]. auto.
  - destruct (fetch_outcome E w) as [[e Hf]|[all_rates Hf]].
    + rewrite (fetch_fails E w e Hf).
      eexists. cbn [snd printed requested stdout requests].
      split; [reflexivity|]. split; [|now right].
      intros [H|[]]. destruct (is_URLError e); discriminate.
    + rewrite Hf. cbv zeta.
      destruct (next_count (record_of (cache w)) (today_iso E)) as [n|e].
      * eexists. cbn [snd requested stdout requests].
        split; [reflexivity|]. split; [|now right].
        intros [H|[H|[]]]; discriminate.
      * exists []. cbn [snd requested stdout requests].
        rewrite app_nil_r. split; [reflexivity|]. split; [|now right].
        intros [].
  - exists []. cbn [snd]. rewrite app_nil_r. split; [reflexivity|].
    split; [intros []|now left].
Qed.

(** X8.  As long as the date does not change between the two readings
    (the block's own and the one of the refresh it calls), the start-up
    block never prints the limit message: it calls the refresh only when
    [max(0, 2 - int(fetch_count))] is positive, and then the quota check
    of the refresh, which compares the raw [fetch_count] with 2, cannot
    succeed.  It sends at most one request. *)
Theorem startup_never_reports_limit (E E' : environment)
    (float_repr : bool -> Z -> Z -> string) (w : world) :
  today_iso E' = today_iso E ->
  exists msgs,
    stdout (snd (startup E E' float_repr w)) = stdout w ++ msgs
    /\ ~ In MsgQuotaReached msgs
    /\ (requests (snd (startup E E' float_repr w)) = requests w
        \/ requests (snd (startup E E' float_repr w))
             = requests w ++ [api_url]).
Proof.
  intros Hday. rewrite startup_eq.
  destruct (apply_cached_rates_cases float_repr w)
    as [[Hf Hrun]|[Hf (r & rates & Hrun)]]; rewrite Hrun.
  - exists []. cbn [snd]. rewrite app_nil_r. split; [reflexivity|].
    split; [intros []|now left].
  - cbn [snd cache].
    set (w1 := mkWorld rates (cache w) (stdout w) (requests w)).
    destruct (remaining_today (record_of (cache w)) (today_iso E))
      as [n|e] eqn:Hrem.
    + destruct (0 <? n) eqn:Hpos.
      * apply Z.ltb_lt in Hpos.
        destruct (refresh_output E' 2 (printed w1 MsgTryingAutoUpdate))
          as (msgs & Hout & Hq & Hreq).
        exists (MsgTryingAutoUpdate :: msgs).
        rewrite Hout. cbn [printed stdout w1]. rewrite <- app_assoc.
        split; [reflexivity|]. split.
        -- intros [H|H]; [discriminate|].
           apply Hq in H. cbn [printed cache w1] in H. rewrite Hday in H.
           now apply (remaining_not_exhausted _ _ n Hrem Hpos).
        -- exact Hreq.
      * exists []. cbn [stdout requests w1]. rewrite app_nil_r.
        split; [reflexivity|]. split; [intros []|now left].
    + exists []. cbn [stdout requests w1]. rewrite app_nil_r.
      split; [reflexivity|]. split; [intros []|now left].
Qed.

Lemma startup_never_reports_limit_witness :
  exists msgs,
    stdout (snd (startup env_example env_example (fun _ _ _ => "0")
                   (initial_world (Content (JDict record_spent)))))
      = stdout (initial_world (Content (JDict record_spent))) ++ msgs
    /\ ~ In MsgQuotaReached msgs
    /\ (requests (snd (startup env_example env_example (fun _ _ _ => "0")
                         (initial_world (Content (JDict record_spent)))))
          = requests (initial_world (Content (JDict record_spent)))
        \/ requests (snd (startup env_example env_example (fun _ _ _ => "0")
                            (initial_world (Content (JDict record_spent)))))
             = requests (initial_world (Content (JDict record_spent)))
                 ++ [api_url]).
Proof.
  apply (startup_never_reports_limit env_example env_example
           (fun _ _ _ => "0") (initial_world (Content (JDict record_spent)))).
  reflexivity.
Defined.

(** When midnight falls between the two readings the message can
    appear: the block, still on 2 March, finds a record of the 3rd and
    counts 2 fetches left; the refresh, now on the 3rd, finds the quota
    of that day used up. *)
Example startup_across_midnight :
  forall float_repr,
    stdout (snd (startup env_example env_next_day float_repr
                   (initial_world (Content (JDict
                      [("day", JStr "2025-03-03"); ("fetch_count", JInt 2)])))))
    = [MsgTryingAutoUpdate; MsgQuotaReached].
Proof. intros float_repr. reflexivity. Qed.

(** ** The daily quota over a session *)

Lemma quota_exhausted_other_day d today max :
  (forall day, get d "day" = Some day -> eq_str day today = false) ->
  quota_exhausted (JDict d) today max = Ret false.
Proof.
  intros Hday. unfold quota_exhausted. cbn [py_get obind].
  destruct (get d "day") as [day|] eqn:Hg.
  - now rewrite (Hday day eq_refl).
  - reflexivity.
Qed.

Lemma counted_new_record E n rates :
  counted (Content (new_record E n rates)) (today_iso E) n.
Proof.
  eexists. split; [reflexivity|]. left. split; reflexivity.
Qed.

(** A refresh that passes the quota check, with a disk that writes:
    it returns [True] and leaves the new record, or the fetch fails and
    the file is as before. *)
Lemma refresh_passed E max w n' :
  quota_exhausted (record_of (cache w)) (today_iso E) max = Ret false ->
  next_count (record_of (cache w)) (today_iso E) = Ret n' ->
  disk_state E = DiskOk ->
  (fst (actualizar_tasas_api E max w) = Ret true
   /\ exists rates,
        cache (snd (actualizar_tasas_api E max w))
          = Content (new_record E n' rates))
  \/ (fst (actualizar_tasas_api E max w) = Ret false
      /\ cache (snd (actualizar_tasas_api E max w)) = cache w).
Proof.
  intros Hq Hn Hdisk.
  destruct (fetch_outcome E w) as [[e Hf]|[all_rates Hf]].
  - right. rewrite refresh_eq, Hq, (fetch_fails E w e Hf). split; reflexivity.
  - left. rewrite (refresh_run E w max _ all_rates n' eq_refl Hq Hf Hn Hdisk).
    cbv zeta. cbn [fst snd cache]. eauto.
Qed.

(** One refresh on a sound record: it returns [True] only if fewer than
    [max] fetches were counted, and then one more is counted; otherwise
    the file is as before. *)
Lemma refresh_counts E max w n :
  1 <= max -> disk_state E = DiskOk ->
  counted (cache w) (today_iso E) n ->
  (fst (actualizar_tasas_api E max w) = Ret true
   /\ n < max
   /\ counted (cache (snd (actualizar_tasas_api E max w))) (today_iso E) (n + 1))
  \/ (fst (actualizar_tasas_api E max w) = Ret false
      /\ cache (snd (actualizar_tasas_api E max w)) = cache w).
Proof.
  intros Hmax Hdisk (d & Hrec & Hcount).
  assert (Hn : next_count (record_of (cache w)) (today_iso E) = Ret (n + 1)).
  { rewrite Hrec. destruct Hcount as [[Hd Hf]|[Hd ->]].
    - now apply next_count_today.
    - now apply next_count_other_day. }
  assert (Hgo : n < max ->
    quota_exhausted (record_of (cache w)) (today_iso E) max = Ret false ->
    (fst (actualizar_tasas_api E max w) = Ret true
     /\ n < max
     /\ counted (cache (snd (actualizar_tasas_api E max w)))
                (today_iso E) (n + 1))
    \/ (fst (actualizar_tasas_api E max w) = Ret false
        /\ cache (snd (actualizar_tasas_api E max w)) = cache w)).
  { intros Hlt Hq.
    destruct (refresh_passed E max w (n + 1) Hq Hn Hdisk)
      as [(Hr & rates & Hc)|Hfail]; [left|now right].
    split; [assumption|]. split; [assumption|].
    rewrite Hc. apply counted_new_record. }
  destruct Hcount as [[Hd Hf]|[Hd ->]].
  - pose proof (quota_exhausted_int d (today_iso E) max n Hd Hf) as Hq.
    destruct (max <=? n) eqn:Hle.
    + right. rewrite refresh_eq, Hrec, Hq. split; reflexivity.
    + apply Hgo; [now apply Z.leb_gt | now rewrite Hrec].
  - apply Hgo; [lia|]. rewrite Hrec. now apply quota_exhausted_other_day.
Qed.

(** X9.  The daily quota over a session.  However many times the refresh
    is called on one day, starting from a sound record that has counted
    [n] fetches for that day and with a disk that takes the writes, at
    most [max - n] of the calls return [True] (none when [n >= max]).
    The limit must be at least 1: with a limit of 0 a record of another
    day still lets one refresh through. *)
Theorem daily_quota (today : string) (max : Z) (envs : list environment) :
  forall (w : world) (n : Z),
    1 <= max ->
    Forall (fun E => today_iso E = today /\ disk_state E = DiskOk) envs ->
    counted (cache w) today n ->
    fst (refresh_all envs max w) <= Z.max 0 (max - n).
Proof.
  induction envs as [|E rest IH]; intros w n Hmax Hall Hcount.
  - cbn [refresh_all fst]. lia.
  - inversion Hall as [|? ? [Hday Hdisk] Hrest]; subst.
    cbn [refresh_all fst].
    destruct (refresh_counts E max w n Hmax Hdisk Hcount)
      as [(Hr & Hlt & Hc)|(Hr & Hc)]; rewrite Hr.
    + specialize (IH _ (n + 1) Hmax Hrest Hc). lia.
    + assert (Hc' : counted (cache (snd (actualizar_tasas_api E max w)))
                            (today_iso E) n) by (now rewrite Hc).
      specialize (IH _ n Hmax Hrest Hc'). lia.
Qed.

Lemma daily_quota_witness :
  fst (refresh_all [env_example; env_example; env_example; env_example] 2
         (initial_world NoFile)) <= Z.max 0 (2 - 0).
Proof.
  apply (daily_quota "2025-03-02" 2
           [env_example; env_example; env_example; env_example]
           (initial_world NoFile) 0).
  - lia.
  - repeat constructor.
  - exists []. split; [reflexivity|]. right. split; [|reflexivity].
    intros day H. discriminate H.
Defined.

(** With a limit of 0 a record of another day lets one refresh through. *)
Example zero_limit_lets_one_through :
  fst (refresh_all [env_example; env_example] 0 (initial_world NoFile)) = 1.
Proof. vm_compute. reflexivity. Qed.



(** ** What [formatea] can render *)

Lemma quantize_too_wide s c e :
  0 <= c -> 10 ^ 28 <= hundredths_half_up c e ->
  quantize (Fin s c e) (Fin false 1 (-2)) ROUND_HALF_UP = Raise InvalidOperation.
Proof.
  intros Hc Hn. unfold quantize.
  replace ((Etiny <=? -2) && (-2 <=? Emax)) with true by reflexivity.
  cbn [negb].
  destruct (c =? 0) eqn:H0.
  { apply Z.eqb_eq in H0. subst c. exfalso.
    assert (Hz : hundredths_half_up 0 e = 0).
    { unfold hundredths_half_up. destruct (-2 <=? e) eqn:He; [reflexivity|].
      apply Z.leb_gt in He. apply Z.div_small.
      assert (0 < 10 ^ (- 2 - e)) by (apply Z.pow_pos_nonneg; lia). lia. }
    rewrite Hz in Hn. lia. }
  destruct (Emax <? adjusted c e); [reflexivity|].
  destruct (prec <? adjusted c e - -2 + 1); [reflexivity|].
  rewrite rescale_hundredths by assumption.
  destruct (Emax <? adjusted (hundredths_half_up c e) (-2)); [reflexivity|].
  pose proof (ndigits_ge (hundredths_half_up c e) 28 ltac:(lia) Hn) as Hd.
  replace (prec <? ndigits (hundredths_half_up c e)) with true
    by (symmetry; apply Z.ltb_lt; unfold prec; lia).
  reflexivity.
Qed.

(** X11.  The domain of [formatea].  It returns a string exactly for the
    finite values whose magnitude, rounded to hundredths, has at most 28
    digits (below [10^26]) and for a quiet NaN.  For a larger finite
    value, for an infinity (which [leer_monto] accepts as an amount) and
    for a signaling NaN [quantize] raises InvalidOperation.  The world is
    untouched in both cases. *)
Theorem formatea_domain (w : world) (d : Decimal) (code : string) :
  wf_decimal d ->
  (formattable d -> exists s, formatea d code w = (Ret s, w))
  /\ (~ formattable d -> formatea d code w = (Raise InvalidOperation, w)).
Proof.
  intros Hwf. unfold formatea, bind, lift, ret.
  change (of_string "0.01") with (Ret (Fin false 1 (-2))). cbv beta iota.
  destruct d as [neg c e|neg|neg sg p]; cbn [formattable wf_decimal] in *.
  - split.
    + intros Hn. rewrite quantize_hundredths by assumption. eauto.
    + intros Hn. rewrite quantize_too_wide by (assumption || lia). reflexivity.
  - split; [intros []|]. intros _. reflexivity.
  - destruct sg.
    + split; [discriminate|]. intros _. reflexivity.
    + split; [|intros H; now contradiction H]. intros _.
      cbn [quantize _fix]. eauto.
Qed.

Lemma formatea_domain_witness :
  (exists s,
     formatea (Fin false 1 25) "ARS" (initial_world NoFile)
       = (Ret s, initial_world NoFile))
  /\ formatea (Fin false 1 26) "ARS" (initial_world NoFile)
       = (Raise InvalidOperation, initial_world NoFile).
Proof.
  split.
  - apply (proj1 (formatea_domain (initial_world NoFile) (Fin false 1 25) "ARS"
                    ltac:(cbn; lia))).
    vm_compute. reflexivity.
  - apply (proj2 (formatea_domain (initial_world NoFile) (Fin false 1 26) "ARS"
                    ltac:(cbn; lia))).
    vm_compute. discriminate.
Defined.

(** ** How [convertir] fails *)

Lemma fix_raises d e : _fix d = Raise e -> e = Overflow.
Proof.
  destruct d as [s c k|s|s sg p]; cbn [_fix]; try discriminate.
  destruct (c =? 0); [discriminate|].
  destruct (Etop <? ndigits c + k - prec); [congruence|].
  destruct (k <? Z.max (ndigits c + k - prec) Etiny); [|discriminate].
  destruct (prec <? ndigits _); destruct (Etop <? _); congruence.
Qed.

Lemma truediv_raises a b e :
  truediv a b = Raise e ->
  e = DivisionByZero \/ e = InvalidOperation \/ e = Overflow.
Proof.
  unfold truediv.
  destruct a as [s1 c1 e1|s1|s1 [|] p1]; destruct b as [s2 c2 e2|s2|s2 [|] p2];
    try discriminate;
    try (intros H; injection H as <-; auto; fail);
    try (intros H; apply fix_raises in H; auto; fail).
  destruct (c2 =? 0).
  - destruct (c1 =? 0); intros H; injection H as <-; auto.
  - destruct (c1 =? 0); [intros H; apply fix_raises in H; auto|].
    destruct (if 0 <=? _ then _ else _) as [q r].
    destruct (if r =? 0 then _ else _) as [q' k'].
    intros H; apply fix_raises in H; auto.
Qed.

Lemma mul_raises a b e :
  mul a b = Raise e -> e = InvalidOperation \/ e = Overflow.
Proof.
  unfold mul.
  destruct a as [s1 c1 e1|s1|s1 [|] p1]; destruct b as [s2 c2 e2|s2|s2 [|] p2];
    try discriminate;
    try (intros H; injection H as <-; auto; fail);
    try (intros H; apply fix_raises in H; auto; fail).
  - destruct (c1 =? 0); [|discriminate]. intros H; injection H as <-; auto.
  - destruct (c2 =? 0); [|discriminate]. intros H; injection H as <-; auto.
Qed.

(** [convertir] path by path. *)
Lemma convertir_eq monto desde hacia w :
  convertir monto desde hacia w =
    (if String.eqb desde hacia then Ret monto
     else
       match get (RATES w) desde with
       | None => Raise (KeyError desde)
       | Some rate_desde =>
           match truediv monto rate_desde with
           | Raise e => Raise e
           | Ret usd =>
               match get (RATES w) hacia with
               | None => Raise (KeyError hacia)
               | Some rate_hacia => mul usd rate_hacia
               end
           end
       end,
     w).
Proof.
  unfold convertir. destruct (String.eqb desde hacia); [reflexivity|].
  unfold bind, read_RATES, lift, ret.
  destruct (get (RATES w) desde) as [rd|]; [|reflexivity].
  destruct (truediv monto rd) as [usd|e]; [|reflexivity].
  destruct (get (RATES w) hacia) as [rh|]; [|reflexivity].
  destruct (mul usd rh); reflexivity.
Qed.

(** X12.  The ways [convertir] fails.  It raises only between two
    different codes, and then with a KeyError for a code that is missing
    from the table (the source code first) or with one of the three
    signals of the decimal arithmetic; with equal codes it returns the
    amount without looking anything up. *)
Theorem convertir_failures (w : world) (monto : Decimal)
    (desde hacia : string) (e : exn) :
  fst (convertir monto desde hacia w) = Raise e ->
  desde <> hacia
  /\ ((e = KeyError desde /\ get (RATES w) desde = None)
      \/ (e = KeyError hacia /\ get (RATES w) hacia = None
          /\ get (RATES w) desde <> None)
      \/ e = DivisionByZero \/ e = InvalidOperation \/ e = Overflow).
Proof.
  rewrite convertir_eq. cbn [fst].
  destruct (String.eqb desde hacia) eqn:Heq; [discriminate|].
  apply String.eqb_neq in Heq. intros H. split; [assumption|].
  destruct (get (RATES w) desde) as [rd|] eqn:Hd.
  - destruct (truediv monto rd) as [usd|e'] eqn:Hdiv.
    + destruct (get (RATES w) hacia) as [rh|] eqn:Hh.
      * apply mul_raises in H. tauto.
      * injection H as <-. right. left. repeat split; congruence.
    + injection H as <-. apply truediv_raises in Hdiv. tauto.
  - injection H as <-. left. auto.
Qed.

Lemma convertir_failures_witness :
  "XAU" <> "USD"
  /\ ((KeyError "XAU" = KeyError "XAU"
       /\ get (RATES (initial_world NoFile)) "XAU" = None)
      \/ (KeyError "XAU" = KeyError "USD"
          /\ get (RATES (initial_world NoFile)) "USD" = None
          /\ get (RATES (initial_world NoFile)) "XAU" <> None)
      \/ KeyError "XAU" = DivisionByZero
      \/ KeyError "XAU" = InvalidOperation
      \/ KeyError "XAU" = Overflow).
Proof.
  apply (convertir_failures (initial_world NoFile) (Fin false 1 0)
           "XAU" "USD" (KeyError "XAU")).
  reflexivity.
Defined.



(** ** What a refresh takes from the response *)

Lemma collect_rates_step code val rest out :
  collect_rates ((code, val) :: rest) out =
    collect_rates rest (match decoded_rate val with
                        | Some d => set out code d
                        | None => out
                        end).
Proof.
  cbn [collect_rates]. unfold decoded_rate.
  destruct val as [|b|n|f|s|l|d]; try reflexivity.
  destruct (of_string s); reflexivity.
Qed.

Lemma collect_rates_other items : forall out code,
  ~ In code (map fst items) ->
  get (collect_rates items out) code = get out code.
Proof.
  induction items as [|[k v] items IH]; intros out code Hn; [reflexivity|].
  rewrite collect_rates_step. cbn [map fst In] in Hn.
  rewrite IH by tauto.
  destruct (decoded_rate v); [|reflexivity].
  apply get_set_neq. intros ->. tauto.
Qed.

Lemma collect_rates_entry items : forall out code val,
  NoDup (map fst items) ->
  In (code, val) items ->
  get (collect_rates items out) code =
    match decoded_rate val with
    | Some d => Some d
    | None => get out code
    end.
Proof.
  induction items as [|[k v] items IH]; intros out code val Hnd Hin;
    [destruct Hin|].
  cbn [map fst] in Hnd. inversion Hnd as [|? ? Hnotin Hnd']; subst.
  rewrite collect_rates_step.
  destruct Hin as [Heq|Hin].
  - injection Heq as -> ->.
    rewrite collect_rates_other by assumption.
    destruct (decoded_rate val); [apply get_set_eq | reflexivity].
  - rewrite (IH _ code val Hnd' Hin).
    assert (Hne : code <> k).
    { intros ->. apply Hnotin. apply (in_map fst) in Hin. exact Hin. }
    destruct (decoded_rate val); [reflexivity|].
    destruct (decoded_rate v); [now apply get_set_neq | reflexivity].
Qed.

Lemma get_In_keys {V} (d : dict V) k :
  get d k = None -> ~ In k (map fst d).
Proof.
  intros Hg Hin. apply (proj2 (mem_keys d k)) in Hin.
  unfold mem in Hin. now rewrite Hg in Hin.
Qed.

(** X14.  What a successful refresh does to the rate of a supported code,
    by the entry of the response (an object, so its keys are distinct).
    A value that is a number, or a string that reads as one, becomes the
    rate; a value that is neither (null, a list, an object, a string such
    as ["n/a"]) is skipped and the code keeps the rate it had, as it does
    when the response has no entry for it.  USD is the exception: without
    a usable entry its rate is set to 1, whatever it was. *)
Theorem refresh_rate_by_entry (E : environment) (max : Z) (w : world)
    (body : dict (json Decimal)) (items : list (string * json Decimal))
    (code : string) :
  http E api_url = HttpJson (JDict body) ->
  get body "rates" = Some (JDict items) ->
  NoDup (map fst items) ->
  fst (actualizar_tasas_api E max w) = Ret true ->
  keys_ok w ->
  In code SUPPORTED ->
  get (RATES (snd (actualizar_tasas_api E max w))) code =
    match match get items code with
          | Some val => decoded_rate val
          | None => None
          end with
    | Some d => Some d
    | None => if String.eqb code "USD" then Some (Fin false 1 0)
              else get (RATES w) code
    end.
Proof.
  intros Hh Hr Hnd Hret Hk Hin.
  rewrite refresh_eq in Hret |- *.
  rewrite (fetch_succeeds E w body items Hh Hr) in Hret |- *.
  destruct (quota_exhausted (record_of (cache w)) (today_iso E) max)
    as [[|]|e]; try discriminate.
  cbv zeta in Hret |- *.
  destruct (next_count (record_of (cache w)) (today_iso E)) as [n|e];
    [|discriminate].
  cbn [snd RATES requested].
  rewrite (fetched_rates_get SUPPORTED _ (RATES w) code Hin).
  assert (Hall : get (collect_rates items [("USD", Fin false 1 0)]) code =
                 match match get items code with
                       | Some val => decoded_rate val
                       | None => None
                       end with
                 | Some d => Some d
                 | None => if String.eqb code "USD" then Some (Fin false 1 0)
                           else None
                 end).
  { destruct (get items code) as [val|] eqn:Hg.
    - rewrite (collect_rates_entry items _ code val Hnd (get_In _ _ _ Hg)).
      destruct (decoded_rate val); reflexivity.
    - rewrite collect_rates_other by (now apply get_In_keys).
      reflexivity. }
  rewrite Hall.
  destruct (match get items code with
            | Some val => decoded_rate val
            | None => None
            end); [reflexivity|].
  destruct (String.eqb code "USD"); reflexivity.
Qed.

Lemma refresh_rate_by_entry_witness :
  get (RATES (snd (actualizar_tasas_api env_example 2 (initial_world NoFile))))
      "EUR" = Some (Fin false 92 (-2)).
Proof.
  apply (refresh_rate_by_entry env_example 2 (initial_world NoFile)
           [("rates", JDict [("USD", JInt 1); ("MXN", JInt 20)])]
           [("USD", JInt 1); ("MXN", JInt 20)] "EUR").
  - reflexivity.
  - reflexivity.
  - repeat constructor; cbn [In]; intros H;
      repeat (destruct H as [H|H]; [discriminate H|]); exact H.
  - reflexivity.
  - reflexivity.
  - cbn. tauto.
Defined.

(** ** When a refresh raises *)








(** ** The codes of the table over a session *)

Lemma leer_monto_rates lines : forall w,
  RATES (snd (leer_monto lines w)) = RATES w.
Proof.
  induction lines as [|line rest IH]; intros w; [reflexivity|].
  rewrite leer_monto_turn.
  destruct (of_string (typed line)) as [val|e].
  - destruct (lt_zero val) as [[|]|e]; try (now rewrite IH). reflexivity.
  - now rewrite IH.
Qed.

Lemma manual_update_keys code lines : forall w,
  mem (RATES w) code = true ->
  keys (RATES (snd (actualizar_tasa_loop code lines w))) = keys (RATES w).
Proof.
  induction lines as [|line rest IH]; intros w Hm; [reflexivity|].
  rewrite actualizar_tasa_turn.
  destruct (of_string (typed line)) as [val|e].
  - destruct (le_zero val) as [[|]|e].
    + now rewrite IH.
    + cbn [snd RATES]. now apply keys_set_mem.
    + now rewrite IH.
  - now rewrite IH.
Qed.

Lemma startup_keeps_keys E E' float_repr w :
  keys_ok w -> keys_ok (snd (startup E E' float_repr w)).
Proof.
  intros Hk. rewrite startup_eq.
  pose proof (apply_cached_rates_keys float_repr w Hk) as Hk1.
  destruct (_apply_cached_rates float_repr w) as [[r|e] w1]; cbn [snd] in *;
    [|assumption].
  destruct (remaining_today (record_of (cache w1)) (today_iso E)) as [n|e];
    [|assumption].
  destruct (0 <? n); [|assumption].
  apply refresh_keeps_keys. exact Hk1.
Qed.

Lemma after_keeps_keys float_repr op w :
  permitted op w = true -> keys_ok w -> keys_ok (after float_repr op w).
Proof.
  intros Hp Hk. destruct op; cbn [after permitted] in *.
  - now apply apply_cached_rates_keys.
  - now apply startup_keeps_keys.
  - now apply refresh_keeps_keys.
  - unfold keys_ok. now rewrite manual_update_keys.
  - unfold keys_ok. now rewrite leer_monto_rates.
  - now rewrite convertir_frame.
  - now rewrite formatea_frame.
Qed.

(** X16.  The codes of the table never change.  Through any sequence of
    cache applications, start-up blocks, refreshes, manual updates (of a
    code of the table), amount prompts, conversions and renderings,
    returning or raising, the keys of [RATES] stay the supported codes;
    so a conversion between supported codes never raises KeyError. *)
Theorem session_keeps_codes (float_repr : bool -> Z -> Z -> string)
    (ops : list operation) :
  forall w w',
    keys_ok w ->
    session float_repr ops w = Some w' ->
    keys_ok w'
    /\ forall monto desde hacia key,
         In desde SUPPORTED -> In hacia SUPPORTED ->
         fst (convertir monto desde hacia w') <> Raise (KeyError key).
Proof.
  induction ops as [|op rest IH]; intros w w' Hk Hs.
  - injection Hs as <-. split; [assumption|].
    intros monto desde hacia key Hd Hh. rewrite convertir_eq. cbn [fst].
    destruct (String.eqb desde hacia); [discriminate|].
    assert (Hm : forall c, In c SUPPORTED -> exists r, get (RATES w) c = Some r).
    { intros c Hc. rewrite <- Hk in Hc. apply mem_keys in Hc.
      unfold mem in Hc. destruct (get (RATES w) c); [eauto|discriminate]. }
    destruct (Hm desde Hd) as [rd ->]. destruct (Hm hacia Hh) as [rh ->].
    destruct (truediv monto rd) as [usd|e] eqn:Hdiv.
    + intros H. apply mul_raises in H. destruct H; discriminate.
    + intros H. injection H as ->. apply truediv_raises in Hdiv.
      destruct Hdiv as [H|[H|H]]; discriminate.
  - cbn [session] in Hs. destruct (permitted op w) eqn:Hp; [|discriminate].
    apply (IH (after float_repr op w)); [|assumption].
    now apply after_keeps_keys.
Qed.

Lemma session_keeps_codes_witness :
  keys_ok (snd (convertir (Fin false 5 0) "USD" "EUR"
     (snd (actualizar_tasa_loop "EUR" ["0,95"]
        (snd (actualizar_tasas_api env_bad_rates 2
           (snd (startup env_offline env_offline (fun _ _ _ => "0")
              (initial_world NoFile)))))))))
  /\ forall monto desde hacia key,
       In desde SUPPORTED -> In hacia SUPPORTED ->
       fst (convertir monto desde hacia
              (snd (convertir (Fin false 5 0) "USD" "EUR"
                 (snd (actualizar_tasa_loop "EUR" ["0,95"]
                    (snd (actualizar_tasas_api env_bad_rates 2
                       (snd (startup env_offline env_offline (fun _ _ _ => "0")
                          (initial_world NoFile))))))))))
         <> Raise (KeyError key).
Proof.
  apply (session_keeps_codes (fun _ _ _ => "0")
           [OpStartup env_offline env_offline; OpRefresh env_bad_rates 2;
            OpManualUpdate "EUR" ["0,95"];
            OpConvert (Fin false 5 0) "USD" "EUR"]
           (initial_world NoFile)).
  - reflexivity.
  - vm_compute. reflexivity.
Defined.

(** ** The loop over the set of supported codes *)

(** X17.  [SUPPORTED] is a set, and Python fixes no order for the loop
    over it.  The order does not matter: whichever way the loop of
    [actualizar_tasas_api] enumerates the supported codes, each once, it
    leaves the same table and the same count. *)
Theorem supported_order_irrelevant (codes : list string)
    (all_rates : dict Decimal) (updated : Z) (w : world) :
  NoDup codes ->
  (forall code, In code codes <-> In code SUPPORTED) ->
  keys_ok w ->
  apply_fetched codes all_rates updated w =
    apply_fetched SUPPORTED all_rates updated w.
Proof.
  intros Hnd Hin Hk.
  assert (Hp : Permutation SUPPORTED codes).
  { apply NoDup_Permutation; [apply SUPPORTED_NoDup | assumption|].
    intros c. symmetry. apply Hin. }
  rewrite !apply_fetched_run.
  destruct (fetched_rates_order SUPPORTED codes all_rates Hp (RATES w))
    as [-> ->]; [|reflexivity].
  intros c Hc. apply mem_keys. now rewrite Hk.
Qed.

Lemma supported_order_irrelevant_witness :
  apply_fetched (rev SUPPORTED) [("MXN", Fin false 20 0)] 0
                (initial_world NoFile) =
  apply_fetched SUPPORTED [("MXN", Fin false 20 0)] 0 (initial_world NoFile).
Proof.
  apply (supported_order_irrelevant (rev SUPPORTED)
           [("MXN", Fin false 20 0)] 0 (initial_world NoFile)).
  - apply NoDup_rev, SUPPORTED_NoDup.
  - intros code. symmetry. apply in_rev.
  - reflexivity.
Defined.

(** ** What the return value of a refresh tells *)

(** X18.  A refresh that returns [False] has changed neither the table
    nor the cache file, whatever made it give up: the quota, the network
    or the response. *)
Theorem refresh_false_changes_nothing (E : environment) (max : Z) (w : world) :
  fst (actualizar_tasas_api E max w) = Ret false ->
  RATES (snd (actualizar_tasas_api E max w)) = RATES w
  /\ cache (snd (actualizar_tasas_api E max w)) = cache w.
Proof.
  rewrite refresh_eq.
  destruct (quota_exhausted (record_of (cache w)) (today_iso E) max)
    as [[|]|e].
  - intros _. split; reflexivity.
  - destruct (fetch_outcome E w) as [[e Hf]|[all_rates Hf]].
    + rewrite (fetch_fails E w e Hf). intros _. split; reflexivity.
    + rewrite Hf. cbv zeta.
      destruct (next_count (record_of (cache w)) (today_iso E)); discriminate.
  - discriminate.
Qed.

Lemma refresh_false_changes_nothing_witness :
  RATES (snd (actualizar_tasas_api env_offline 2 (initial_world NoFile)))
    = RATES (initial_world NoFile)
  /\ cache (snd (actualizar_tasas_api env_offline 2 (initial_world NoFile)))
    = cache (initial_world NoFile).
Proof.
  apply (refresh_false_changes_nothing env_offline 2 (initial_world NoFile)).
  reflexivity.
Defined.

(** X19.  The number a refresh prints as left for today is the number
    the next start finds: after a refresh with the limit 2 that returns
    [True] and writes the file, the last line printed is
    ["Restantes hoy: r"] and the start-up block, run the same day on the
    file, computes [remaining = r]. *)
Theorem printed_remaining_is_saved (E : environment) (w : world) :
  disk_state E = DiskOk ->
  fst (actualizar_tasas_api E 2 w) = Ret true ->
  exists updated remaining,
    stdout (snd (actualizar_tasas_api E 2 w)) =
      stdout w ++ [MsgUpdated updated; MsgRemaining remaining]
    /\ remaining_today (record_of (cache (snd (actualizar_tasas_api E 2 w))))
                       (today_iso E) = Ret remaining.
Proof.
  intros Hdisk. rewrite refresh_eq.
  destruct (quota_exhausted (record_of (cache w)) (today_iso E) 2)
    as [[|]|e]; try discriminate.
  destruct (fetch_outcome E w) as [[e Hf]|[all_rates Hf]].
  - rewrite (fetch_fails E w e Hf). discriminate.
  - rewrite Hf. cbv zeta.
    destruct (next_count (record_of (cache w)) (today_iso E)) as [n|e];
      [|discriminate].
    intros _. cbn [snd stdout cache requested]. unfold saved_file.
    rewrite Hdisk. eexists _, _. split; [reflexivity|].
    apply (remaining_today_int _ (today_iso E) n); reflexivity.
Qed.

Lemma printed_remaining_is_saved_witness :
  exists updated remaining,
    stdout (snd (actualizar_tasas_api env_example 2 (initial_world NoFile))) =
      stdout (initial_world NoFile) ++ [MsgUpdated updated; MsgRemaining remaining]
    /\ remaining_today
         (record_of (cache (snd (actualizar_tasas_api env_example 2
                                   (initial_world NoFile)))))
         (today_iso env_example) = Ret remaining.
Proof.
  apply (printed_remaining_is_saved env_example (initial_world NoFile)).
  - reflexivity.
  - reflexivity.
Defined.

(** ** A manual rate does not outlive the session *)

Lemma manual_update_cache code lines : forall w,
  cache (snd (actualizar_tasa_loop code lines w)) = cache w.
Proof.
  induction lines as [|line rest IH]; intros w; [reflexivity|].
  rewrite actualizar_tasa_turn.
  destruct (of_string (typed line)) as [val|e].
  - destruct (le_zero val) as [[|]|e]; try (now rewrite IH). reflexivity.
  - now rewrite IH.
Qed.

(** X20.  The manual update is not saved.  It leaves the cache file as
    it was, so when the file holds the record of an earlier refresh, the
    next start (the table at its defaults, then [_apply_cached_rates])
    brings back the rates of that refresh, the one typed by hand
    included. *)
Theorem manual_rate_lost_at_restart (E : environment)
    (float_repr : bool -> Z -> Z -> string) (count : Z)
    (saved : dict Decimal) (code : string) (lines : list string) (w : world) :
  keys saved = SUPPORTED ->
  (forall c r, In (c, r) saved -> constructible r) ->
  cache w = Content (new_record E count saved) ->
  cache (snd (actualizar_tasa_loop code lines w)) = cache w
  /\ RATES (snd (_apply_cached_rates float_repr
                   (initial_world
                      (cache (snd (actualizar_tasa_loop code lines w))))))
     = saved.
Proof.
  intros Hks Hwf Hc. rewrite manual_update_cache. split; [reflexivity|].
  rewrite Hc.
  rewrite (apply_cached_rates_run float_repr
             (initial_world (Content (new_record E count saved)))
             [ ("last_updated", JStr (String.append (utcnow_iso E) "Z"));
               ("day", JStr (today_iso E));
               ("fetch_count", JInt count);
               ("rates", JDict (rates_snapshot saved)) ]
             (rates_snapshot saved) eq_refl eq_refl).
  cbn [snd RATES initial_world].
  apply applied_rates_saved; [reflexivity | assumption | assumption].
Qed.

Lemma manual_rate_lost_at_restart_witness :
  cache (snd (actualizar_tasa_loop "EUR" ["0,5"]
     (initial_world (Content (new_record env_example 1 initial_RATES)))))
    = Content (new_record env_example 1 initial_RATES)
  /\ RATES (snd (_apply_cached_rates (fun _ _ _ => "0")
       (initial_world (cache (snd (actualizar_tasa_loop "EUR" ["0,5"]
          (initial_world (Content (new_record env_example 1 initial_RATES)))))))))
     = initial_RATES.
Proof.
  apply (manual_rate_lost_at_restart env_example (fun _ _ _ => "0") 1
           initial_RATES "EUR" ["0,5"]
           (initial_world (Content (new_record env_example 1 initial_RATES)))).
  - reflexivity.
  - intros c r Hin. cbn [initial_RATES In] in Hin.
    repeat (destruct Hin as [Hin|Hin];
            [injection Hin as <- <-;
             split; [cbn [wf_decimal]; lia | reflexivity]|]).
    destruct Hin.
  - reflexivity.
Defined.
